(** * Golden-ratio MIDI generator: the composition engine

    A shallow embedding of [music_theory.py] (class [MusicTheory]) and of the
    orchestration in [midi_generator.py] (class [AdvancedMidiGenerator]).

    Number model.  Python [int] is [Z].  A Python [float] is a binary64
    number.  Where the code goes through [self.phi] or [math.sin] the floats
    are modelled by the real numbers of the Standard Library: [self.phi] is
    [(1 + sqrt 5) / 2], [math.sin] is [sin], [int(x)] on a float is
    truncation toward zero, and [x % m] on floats is the floored remainder;
    the rounding of binary64 arithmetic is not part of that model.  Where a
    float is computed from ints and decimal constants only and the rounding
    changes the integer the code goes on with, the float is computed in
    binary64 (module [Binary64]): the note count
    [int(duration_seconds * (tempo_bpm / 60 * 2))] and the harmony velocity
    [int(velocity * 0.7)].  The products [velocity * 0.8] and
    [velocity * 1.2] and the quotient [60000000 / bpm] are computed on the
    real numbers: for the velocities from 0 to 127 and the tempos from 1
    to 1000 both models give the same integer (lemmas
    [velocity_factors_exact] and [tempo_quotient_exact]).

    Effects.  [random.random()] reads the next element of a sequence of
    draws; the cursor is threaded through the code that draws.  A raised
    exception is a value of [Py.exn]. *)

From Stdlib Require Import ZArith List String Reals Lra Lia Permutation.
From Stdlib Require Import Sorted.
From Stdlib Require Import DecimalString.
From Stdlib Require Floats.
From stdpp Require Import base gmap strings list.

Local Open Scope string_scope.
Local Open Scope list_scope.
Local Open Scope Z_scope.

(** ** The Python operations the code relies on *)

Module Py.

Inductive exn : Type :=
| KeyError (key : string)
| IndexError
| ZeroDivisionError
| ValueError.

Inductive result (A : Type) : Type :=
| Ok (a : A)
| Raise (e : exn).
Arguments Ok {A} a.
Arguments Raise {A} e.

Definition bind {A B} (c : result A) (k : A -> result B) : result B :=
  match c with
  | Ok a => k a
  | Raise e => Raise e
  end.

(** [int(x)] for a float [x]: the integer part, rounded toward zero. *)
Definition int (x : R) : Z :=
  if Rle_dec 0 x then Int_part x else - Int_part (- x).

(** [math.floor(x)]: the largest integer not above [x]. *)
Definition floor (x : R) : Z := Int_part x.

(** [round(x)]: the nearest integer, a tie going to the even neighbour. *)
Definition round (x : R) : Z :=
  let f := Int_part x in
  let d := (x - IZR f)%R in
  if Rlt_dec d (1 / 2) then f
  else if Rlt_dec (1 / 2) d then f + 1
  else if Z.even f then f else f + 1.

(** [x % m] on floats, for a positive modulus. *)
Definition fmod (x m : R) : R := (x - IZR (Int_part (x / m)) * m)%R.

(** [a % b] on ints: the sign of the result follows [b]. *)
Definition mod_ (a b : Z) : result Z :=
  if b =? 0 then Raise ZeroDivisionError else Ok (a mod b).

(** [a / b] on ints or floats: true division. *)
Definition truediv (a b : R) : result R :=
  if Req_dec_T b 0 then Raise ZeroDivisionError else Ok (a / b)%R.

(** [l[i]]: a negative index counts from the end. *)
Definition index {A} (l : list A) (i : Z) : result A :=
  let n := Z.of_nat (length l) in
  let j := if i <? 0 then i + n else i in
  if (0 <=? j) && (j <? n) then
    match nth_error l (Z.to_nat j) with
    | Some a => Ok a
    | None => Raise IndexError
    end
  else Raise IndexError.

(** [l[i] = v]: the same index rule as for reading. *)
Definition setitem {A} (l : list A) (i : Z) (v : A) : result (list A) :=
  let n := Z.of_nat (length l) in
  let j := if i <? 0 then i + n else i in
  if (0 <=? j) && (j <? n) then Ok (<[Z.to_nat j := v]> l)
  else Raise IndexError.

(** [d[k]] on a dict with string keys. *)
Definition getitem {A} (d : gmap string A) (k : string) : result A :=
  match d !! k with
  | Some a => Ok a
  | None => Raise (KeyError k)
  end.

(** [k in d]. *)
Definition contains {A} (d : gmap string A) (k : string) : bool :=
  match d !! k with
  | Some _ => true
  | None => false
  end.

(** [d.get(k, default)]. *)
Definition get {A} (d : gmap string A) (k : string) (default : A) : A :=
  match d !! k with
  | Some a => a
  | None => default
  end.

(** The truth value of a list: empty is false. *)
Definition truthy {A} (l : list A) : bool :=
  match l with
  | [] => false
  | _ :: _ => true
  end.

(** [max(l)] and [min(l)] on a list of ints. *)
Definition max_ (l : list Z) : result Z :=
  match l with
  | [] => Raise ValueError
  | a :: l' => Ok (fold_left Z.max l' a)
  end.

Definition min_ (l : list Z) : result Z :=
  match l with
  | [] => Raise ValueError
  | a :: l' => Ok (fold_left Z.min l' a)
  end.

(** [sum(l)] on a list of ints. *)
Definition sum (l : list Z) : Z := fold_left Z.add l 0.

(** [len(l)]. *)
Definition len {A} (l : list A) : Z := Z.of_nat (length l).

(** [range(a, b)] and [range(n)]. *)
Definition range2 (a b : Z) : list Z :=
  map (fun k => a + Z.of_nat k) (seq 0 (Z.to_nat (b - a))).

Definition range (n : Z) : list Z := range2 0 n.

(** [enumerate(l)]. *)
Definition enumerate {A} (l : list A) : list (Z * A) :=
  combine (range (len l)) l.

(** [str(n)] for an int. *)
Definition str (n : Z) : string := NilZero.string_of_int (Z.to_int n).

(** [sorted(l, reverse=True)] on ints: a stable insertion into descending
    order. *)
Fixpoint insert_desc (x : Z) (l : list Z) : list Z :=
  match l with
  | [] => [x]
  | y :: l' => if y <? x then x :: l else y :: insert_desc x l'
  end.

Definition sorted_reverse (l : list Z) : list Z :=
  fold_right insert_desc [] l.

(** A [for] loop whose body may raise: the body updates the loop state. *)
Fixpoint for_ {A B} (l : list A) (body : B -> A -> result B) (st : B)
  : result B :=
  match l with
  | [] => Ok st
  | a :: l' => bind (body st a) (for_ l' body)
  end.

End Py.

Import Py.

(** ** Binary64 arithmetic *)

Module Binary64.

(** A finite binary64 number: [mant * 2 ^ expo], with a significand of at
    most 53 bits.  Every operation returns the representable number nearest
    to the exact result, a tie going to the even significand.  The exponent
    is not bounded: overflow (from 2^1024 on) and the subnormal numbers are
    not part of the model. *)
Record t : Type := { mant : Z; expo : Z }.

Definition zero : t := {| mant := 0; expo := 0 |}.

(** The integer nearest to [n / d], for [0 <= n] and [0 < d]; a tie goes to
    the even one. *)
Definition nearest_even (n d : Z) : Z :=
  let q := n / d in
  let r := n mod d in
  match 2 * r ?= d with
  | Lt => q
  | Gt => q + 1
  | Eq => if Z.even q then q else q + 1
  end.

(** The fraction [n / d], for [0 < n] and [0 < d], rounded to 53 significant
    bits: with [2 ^ l <= n / d < 2 ^ (l + 1)], the significand is the
    integer nearest to [n / d / 2 ^ (l - 52)]. *)
Definition round_pos (n d : Z) : t :=
  let l := Z.log2 n - Z.log2 d in
  let l := if n * 2 ^ Z.max 0 (- l) <? d * 2 ^ Z.max 0 l then l - 1 else l in
  let e := l - 52 in
  {| mant := nearest_even (n * 2 ^ Z.max 0 (- e)) (d * 2 ^ Z.max 0 e);
     expo := e |}.

(** The fraction [n / d], for [0 < d], rounded to the nearest binary64
    number. *)
Definition round (n d : Z) : t :=
  match n with
  | 0 => zero
  | Z.pos _ => round_pos n d
  | Z.neg _ =>
      let x := round_pos (- n) d in {| mant := - mant x; expo := expo x |}
  end.

(** [float(z)], the conversion of an int operand. *)
Definition of_Z (z : Z) : t := round z 1.

(** The decimal constant [n / d] of the program text, as [0.7] is
    [literal 7 10]. *)
Definition literal (n d : Z) : t := round n d.

(** [a / b] on ints, for a divisor that is not 0: the quotient is rounded
    once. *)
Definition div (a b : Z) : t := round (a * Z.sgn b) (Z.abs b).

(** [x * y] on floats. *)
Definition mul (x y : t) : t :=
  let e := expo x + expo y in
  round (mant x * mant y * 2 ^ Z.max 0 e) (2 ^ Z.max 0 (- e)).

(** [int(x)]: the integer part, rounded toward zero. *)
Definition int (x : t) : Z :=
  Z.quot (mant x * 2 ^ Z.max 0 (expo x)) (2 ^ Z.max 0 (- expo x)).

End Binary64.

Declare Scope result_scope.
Delimit Scope result_scope with result.
Notation "'let!' x ':=' c 'in' k" := (Py.bind c (fun x => k))
  (at level 10, x pattern, c at level 100, k at level 200) : result_scope.

(** ** The shared random source *)

Module Random.

(** The state of the generator: the draws still to come are
    [draws cursor], [draws (cursor + 1)], ...  Each draw of
    [random.random()] lies in the interval from 0 (included) to 1
    (excluded); no definition below depends on it. *)
Record state : Type := { draws : nat -> R; cursor : nat }.

(** A computation that may draw and may raise. *)
Definition M (A : Type) : Type := state -> result (A * state).

Definition ret {A} (a : A) : M A := fun s => Ok (a, s).

Definition bind {A B} (c : M A) (k : A -> M B) : M B :=
  fun s =>
    match c s with
    | Ok (a, s') => k a s'
    | Raise e => Raise e
    end.

Definition lift {A} (c : result A) : M A :=
  fun s =>
    match c with
    | Ok a => Ok (a, s)
    | Raise e => Raise e
    end.

(** [random.random()]. *)
Definition random : M R :=
  fun s => Ok (draws s (cursor s),
               {| draws := draws s; cursor := S (cursor s) |}).

(** A [for] loop that may raise: the body updates the loop state. *)
Fixpoint for_ {A B} (l : list A) (body : B -> A -> M B) (st : B) : M B :=
  match l with
  | [] => ret st
  | a :: l' => bind (body st a) (for_ l' body)
  end.

End Random.

Declare Scope rand_scope.
Delimit Scope rand_scope with rand.
Notation "'let!' x ':=' c 'in' k" := (Random.bind c (fun x => k))
  (at level 10, x pattern, c at level 100, k at level 200) : rand_scope.

(** ** [music_theory.py]: class [MusicTheory] *)

Module MusicTheory.

(** A note event: [(pitch, duration, velocity)]. *)
Definition note : Type := (Z * Z * Z)%type.

Definition pitch (n : note) : Z := n.1.1.
Definition duration (n : note) : Z := n.1.2.
Definition velocity (n : note) : Z := n.2.

(** The values stored in the analysis record. *)
#[warnings="-register-all"]
Inductive pyval : Type :=
| PInt (z : Z)
| PFloat (x : R)
| PStr (s : string)
| PList (l : list Z)
| PDict (d : gmap string pyval).

Definition phi : R := ((1 + sqrt 5) / 2)%R.
Definition phi_inverse : R := (1 / phi)%R.

Definition note_names : list string :=
  ["C"; "C#"; "D"; "D#"; "E"; "F"; "F#"; "G"; "G#"; "A"; "A#"; "B"].

Definition scales : gmap string (list Z) :=
  list_to_map
    [ ("major", [0; 2; 4; 5; 7; 9; 11]);
      ("minor", [0; 2; 3; 5; 7; 8; 10]);
      ("harmonic_minor", [0; 2; 3; 5; 7; 8; 11]);
      ("melodic_minor", [0; 2; 3; 5; 7; 9; 11]);
      ("dorian", [0; 2; 3; 5; 7; 9; 10]);
      ("phrygian", [0; 1; 3; 5; 7; 8; 10]);
      ("lydian", [0; 2; 4; 6; 7; 9; 11]);
      ("mixolydian", [0; 2; 4; 5; 7; 9; 10]);
      ("pentatonic_major", [0; 2; 4; 7; 9]);
      ("pentatonic_minor", [0; 3; 5; 7; 10]);
      ("blues", [0; 3; 5; 6; 7; 10]);
      ("whole_tone", [0; 2; 4; 6; 8; 10]);
      ("chromatic", Py.range 12);
      ("japanese", [0; 1; 5; 7; 8]);
      ("arabic", [0; 1; 4; 5; 7; 8; 11]);
      ("gypsy", [0; 1; 4; 5; 7; 8; 11]) ].

Definition rhythm_patterns : gmap string (list Z) :=
  list_to_map
    [ ("straight", [1; 0; 1; 0; 1; 0; 1; 0]);
      ("swing", [1; 0; 0; 1; 1; 0; 0; 1]);
      ("syncopated", [1; 0; 1; 1; 0; 1; 0; 1]);
      ("latin", [1; 0; 1; 0; 0; 1; 1; 0]);
      ("funk", [1; 0; 0; 1; 0; 1; 0; 0]);
      ("waltz", [1; 0; 0; 1; 0; 0]) ].

(** [get_note_name]. *)
Definition get_note_name (midi_note : Z) : result string :=
  (let octave := midi_note / 12 - 1 in
   let! name := Py.index note_names (midi_note mod 12) in
   Ok (String.append name (Py.str octave)))%result.

(** [fibonacci_sequence].  In the loop [len(fib) = i], so the reads
    [fib[i-1]] and [fib[i-2]] are in range. *)
Definition fibonacci_sequence (n : Z) : list Z :=
  if n <=? 0 then []
  else if n =? 1 then [1]
  else if n =? 2 then [1; 1]
  else
    fold_left
      (fun fib i =>
         fib ++ [nth (Z.to_nat (i - 1)) fib 0 + nth (Z.to_nat (i - 2)) fib 0])
      (Py.range2 2 n) [1; 1].

(** The nested function [subdivide] of [golden_ratio_subdivisions].  The
    source counts [depth] up from 0 and stops at [depth >= 3]; [levels] is
    [3 - depth], the number of splits still allowed.  The list
    [subdivisions] that the source appends to is passed along. *)
Fixpoint subdivide (levels : nat) (length : Z) (subdivisions : list Z)
  : Random.M (list Z) :=
  match levels with
  | O => Random.ret (subdivisions ++ [length])
  | S levels' =>
      if length <? 4 then Random.ret (subdivisions ++ [length])
      else
        let major := Py.int (IZR length * phi_inverse) in
        let minor := length - major in
        (let! u := Random.random in
         if Rlt_dec u 0.6 then
           let! subdivisions := subdivide levels' major subdivisions in
           subdivide levels' minor subdivisions
         else Random.ret (subdivisions ++ [major; minor]))%rand
  end.

(** [golden_ratio_subdivisions].  The two locals [major_part] and
    [minor_part] of the source are never read. *)
Definition golden_ratio_subdivisions (total_length : Z)
  : Random.M (list Z) :=
  (let! subdivisions := subdivide 3 total_length [] in
   Random.ret (Py.sorted_reverse subdivisions))%rand.

Definition base_duration : Z := 480.

Definition golden_durations : list Z :=
  [ Py.int (IZR base_duration * phi_inverse);
    base_duration;
    Py.int (IZR base_duration * phi);
    Py.int (IZR base_duration * phi ^ 2) ].

(** The octave offset of the note at index [i]. *)
Definition octave_shift (i : Z) : Z :=
  let octave_factor := (sin (IZR i * phi) * 2)%R in
  Py.int octave_factor * 12.

(** One turn of the loop of [generate_golden_melody]. *)
Definition melody_step (scale_notes fib_seq : list Z)
           (melody : list note) (i : Z) : Random.M (list note) :=
  (let phi_factor := Py.fmod (IZR i * phi) 1 in
   let! k := Random.lift (Py.mod_ i (Py.len fib_seq)) in
   let! f := Random.lift (Py.index fib_seq k) in
   let! m := Random.lift (Py.max_ fib_seq) in
   let! fib_factor := Random.lift (Py.truediv (IZR f) (IZR m)) in
   let! u := Random.random in
   let random_factor := (u * 0.3)%R in
   let note_factor := ((phi_factor + fib_factor + random_factor) / 2.3)%R in
   let! note_index :=
     Random.lift
       (Py.mod_ (Py.int (note_factor * IZR (Py.len scale_notes)))
                (Py.len scale_notes)) in
   let! base_note := Random.lift (Py.index scale_notes note_index) in
   let final_note := base_note + octave_shift i in
   let final_note := Z.max 21 (Z.min 108 final_note) in
   let duration_index :=
     Py.int (Py.fmod (IZR i * phi) (IZR (Py.len golden_durations))) in
   let! duration := Random.lift (Py.index golden_durations duration_index) in
   let velocity_base := 64 in
   let velocity_variation := Py.int (32 * sin (IZR i * phi * 2)) in
   let velocity := Z.max 32 (Z.min 127 (velocity_base + velocity_variation)) in
   Random.ret (melody ++ [(final_note, duration, velocity)]))%rand.

(** [generate_golden_melody]. *)
Definition generate_golden_melody (scale_notes : list Z) (length : Z)
           (root_note : Z) : Random.M (list note) :=
  let fib_seq := fibonacci_sequence length in
  Random.for_ (Py.range length) (melody_step scale_notes fib_seq) [].

(** The bass note under a melody note. *)
Definition bass_of (n : note) : note :=
  let '(note, duration, velocity) := n in
  let interval := Py.int (phi * 7) mod 12 in
  let bass_note := note - 12 - interval in
  let bass_note := Z.max 21 bass_note in
  let bass_duration := duration * 2 in
  let bass_velocity :=
    Binary64.int (Binary64.mul (Binary64.of_Z velocity)
                               (Binary64.literal 7 10)) in
  (bass_note, bass_duration, bass_velocity).

(** The state of the second loop of [generate_golden_harmony]. *)
Record middle_state : Type :=
  { middle_voice : list note; phi_step : R; current_pos : R }.

(** One turn of the second loop of [generate_golden_harmony]. *)
Definition middle_step (st : middle_state) (x : Z * note)
  : result middle_state :=
  let '(i, (note, duration, velocity)) := x in
  if Rge_dec (IZR i) (current_pos st) then
    (let intervals := [4; 7] in
     let! interval :=
       Py.index intervals
                (Py.int (Py.fmod (IZR i * phi) (IZR (Py.len intervals)))) in
     let harmony_note := note + interval in
     let voice :=
       if harmony_note <=? 108
       then middle_voice st
              ++ [(harmony_note, duration, Py.int (IZR velocity * 0.8))]
       else middle_voice st in
     Ok {| middle_voice := voice;
           phi_step := phi_step st * phi_inverse;
           current_pos := current_pos st + phi_step st |})%result
  else Ok st.

(** [generate_golden_harmony]: the bass line, then the middle voice.  The
    argument [scale_notes] is not read. *)
Definition generate_golden_harmony (melody : list note)
           (scale_notes : list Z) : result (list (list note)) :=
  (let harmony_parts := [] in
   let bass_line := map bass_of melody in
   let harmony_parts := harmony_parts ++ [bass_line] in
   let! st :=
     Py.for_ (Py.enumerate melody) middle_step
             {| middle_voice := []; phi_step := phi; current_pos := 0 |} in
   let harmony_parts := harmony_parts ++ [middle_voice st] in
   Ok harmony_parts)%result.

(** One turn of the loop of [apply_golden_rhythm]. *)
Definition rhythm_step (pattern : list Z) (rhythmic_melody : list note)
           (x : Z * note) : result (list note) :=
  let '(i, (note, duration, velocity)) := x in
  (let! pattern_index := Py.mod_ i (Py.len pattern) in
   let! rhythm_factor := Py.index pattern pattern_index in
   if rhythm_factor =? 0 then
     if Py.truthy rhythmic_melody then
       let! prev := Py.index rhythmic_melody (-1) in
       let '(prev_note, prev_duration, prev_velocity) := prev in
       Py.setitem rhythmic_melody (-1)
                  (prev_note, prev_duration + duration / 2, prev_velocity)
     else Ok rhythmic_melody
   else
     let phi_rhythm_factor := (1 + 0.3 * sin (IZR i * phi))%R in
     let adjusted_duration := Py.int (IZR duration * phi_rhythm_factor) in
     let! beat := Py.mod_ i (Py.int (phi * 2)) in
     let velocity :=
       if beat =? 0 then Z.min 127 (Py.int (IZR velocity * 1.2))
       else velocity in
     Ok (rhythmic_melody ++ [(note, adjusted_duration, velocity)]))%result.

(** [apply_golden_rhythm]. *)
Definition apply_golden_rhythm (melody : list note) (pattern_name : string)
  : result (list note) :=
  (let pattern_name :=
     if negb (Py.contains rhythm_patterns pattern_name) then "straight"
     else pattern_name in
   let! pattern := Py.getitem rhythm_patterns pattern_name in
   Py.for_ (Py.enumerate melody) (rhythm_step pattern) [])%result.

(** The pairs [(l[i-1], l[i])] for [i] in [range(1, len(l))]. *)
Definition consecutive (l : list Z) : list (Z * Z) := combine l (tl l).

Definition golden_intervals : list Z :=
  map (fun i => Py.int (phi * IZR i)) (Py.range2 1 8).

Definition near_phi (ratio : R) : bool :=
  if Rlt_dec (Rabs (ratio - phi)) 0.1 then true
  else if Rlt_dec (Rabs (ratio - phi_inverse)) 0.1 then true
  else false.

(** The list [duration_ratios] of [analyze_golden_ratios]. *)
Definition duration_ratios (durations : list Z) : list R :=
  flat_map
    (fun '(prev, cur) =>
       if prev =? 0 then [] else [(IZR cur / IZR prev)%R])
    (consecutive durations).

(** [analyze_golden_ratios]. *)
Definition analyze_golden_ratios (melody : list note)
  : result (gmap string pyval) :=
  if negb (Py.truthy melody) then Ok ∅
  else
    (let notes := map pitch melody in
     let durations := map duration melody in
     let velocities := map velocity melody in
     let! hi := Py.max_ notes in
     let! lo := Py.min_ notes in
     let! avg_duration :=
       Py.truediv (IZR (Py.sum durations)) (IZR (Py.len durations)) in
     let! avg_velocity :=
       Py.truediv (IZR (Py.sum velocities)) (IZR (Py.len velocities)) in
     let analysis : gmap string pyval :=
       <["avg_velocity" := PFloat avg_velocity]>
         (<["avg_duration" := PFloat avg_duration]>
            (<["note_range" := PInt (hi - lo)]>
               (<["total_notes" := PInt (Py.len melody)]> ∅))) in
     let intervals :=
       map (fun '(prev, cur) => Z.abs (cur - prev)) (consecutive notes) in
     let! analysis :=
       if Py.truthy intervals then
         let! avg_interval :=
           Py.truediv (IZR (Py.sum intervals)) (IZR (Py.len intervals)) in
         let! max_interval := Py.max_ intervals in
         let golden_ratio_count :=
           Py.len
             (filter (fun interval => interval ∈ golden_intervals)
                     intervals) in
         let! share :=
           Py.truediv (IZR golden_ratio_count) (IZR (Py.len intervals)) in
         Ok (<["golden_ratio_percentage" := PFloat (share * 100)]>
               (<["max_interval" := PInt max_interval]>
                  (<["avg_interval" := PFloat avg_interval]> analysis)))
       else Ok analysis in
     let ratios := duration_ratios durations in
     if Py.truthy ratios then
       let phi_ratios :=
         Py.len (filter (fun ratio => near_phi ratio = true) ratios) in
       let! share :=
         Py.truediv (IZR phi_ratios) (IZR (Py.len ratios)) in
       Ok (<["phi_duration_percentage" := PFloat (share * 100)]> analysis)
     else Ok analysis)%result.

(** [_get_scale_characteristic]. *)
Definition characteristics : gmap string string :=
  list_to_map
    [ ("major", "明亮、欢快、稳定");
      ("minor", "忧郁、深沉、内省");
      ("harmonic_minor", "神秘、东方色彩");
      ("melodic_minor", "优雅、流畅");
      ("dorian", "民谣风格、略带忧郁");
      ("phrygian", "西班牙风格、异域感");
      ("lydian", "梦幻、飘渺");
      ("mixolydian", "摇滚、布鲁斯风格");
      ("pentatonic_major", "简洁、东方风格");
      ("pentatonic_minor", "蓝调、民族风格");
      ("blues", "蓝调、表现力强");
      ("whole_tone", "印象派、模糊");
      ("chromatic", "现代、无调性");
      ("japanese", "日式、禅意");
      ("arabic", "中东风格、装饰性");
      ("gypsy", "吉普赛风格、激情") ].

Definition _get_scale_characteristic (scale_name : string) : string :=
  Py.get characteristics scale_name "独特风格".

(** [get_scale_info]. *)
Definition get_scale_info (scale_name : string) : gmap string pyval :=
  match scales !! scale_name with
  | None => ∅
  | Some scale =>
      <["characteristic" := PStr (_get_scale_characteristic scale_name)]>
        (<["note_count" := PInt (Py.len scale)]>
           (<["intervals" := PList scale]>
              (<["name" := PStr scale_name]> ∅)))
  end.

Definition chord_progressions : gmap string (list Z) :=
  list_to_map
    [ ("pop", [0; 5; 6; 4]);
      ("jazz_ii_v_i", [1; 4; 0]);
      ("circle_of_fifths", [0; 4; 1; 5; 2; 6; 3]);
      ("blues_12bar", [0; 0; 0; 0; 3; 3; 0; 0; 4; 3; 0; 4]);
      ("classical", [0; 4; 0; 5]);
      ("modal_jazz", [0; 1; 2; 3]);
      ("rock", [0; 6; 3; 4]);
      ("folk", [0; 4; 5; 0]) ].

(** The scale note at a degree: [scale[degree % len(scale)]]. *)
Definition scale_at (scale : list Z) (degree : Z) : result Z :=
  (let! k := Py.mod_ degree (Py.len scale) in Py.index scale k)%result.

(** One turn of the loop of [generate_chord_progression]. *)
Definition chord_step (scale : list Z) (root_note : Z)
           (chords : list (list Z)) (degree : Z) : Random.M (list (list Z)) :=
  (let! base := Random.lift (scale_at scale degree) in
   let chord_root := root_note + base in
   let! third := Random.lift (scale_at scale (degree + 2)) in
   let! base3 := Random.lift (scale_at scale degree) in
   let chord_third := chord_root + third - base3 in
   let! fifth := Random.lift (scale_at scale (degree + 4)) in
   let! base5 := Random.lift (scale_at scale degree) in
   let chord_fifth := chord_root + fifth - base5 in
   let! u := Random.random in
   if Rlt_dec u phi_inverse then
     let! seventh := Random.lift (scale_at scale (degree + 6)) in
     let! base7 := Random.lift (scale_at scale degree) in
     let chord_seventh := chord_root + seventh - base7 in
     Random.ret
       (chords ++ [[chord_root; chord_third; chord_fifth; chord_seventh]])
   else Random.ret (chords ++ [[chord_root; chord_third; chord_fifth]]))%rand.

(** [generate_chord_progression]. *)
Definition generate_chord_progression (progression_name : string)
           (root_note : Z) (scale_name : string)
  : Random.M (list (list Z)) :=
  (let progression_name :=
     if negb (Py.contains chord_progressions progression_name) then "pop"
     else progression_name in
   let scale_name :=
     if negb (Py.contains scales scale_name) then "major" else scale_name in
   let! scale := Random.lift (Py.getitem scales scale_name) in
   let! progression :=
     Random.lift (Py.getitem chord_progressions progression_name) in
   Random.for_ progression (chord_step scale root_note) [])%rand.

End MusicTheory.

(** ** [midi_generator.py]: class [AdvancedMidiGenerator] *)

Module AdvancedMidiGenerator.

Import MusicTheory.

(** A style template. *)
Record template : Type :=
  { template_scales : list string;
    progressions : list string;
    tempo_range : Z * Z;
    instruments : list Z;
    dynamics : list string;
    rhythm : string }.

Definition classical : template :=
  {| template_scales := ["major"; "minor"; "harmonic_minor"];
     progressions := ["classical"; "circle_of_fifths"];
     tempo_range := (60, 120);
     instruments := [1; 41; 42; 43; 73];
     dynamics := ["p"; "mp"; "mf"; "f"];
     rhythm := "straight" |}.

Definition style_templates : gmap string template :=
  list_to_map
    [ ("classical", classical);
      ("jazz",
       {| template_scales := ["major"; "minor"; "dorian"; "mixolydian"];
          progressions := ["jazz_ii_v_i"; "modal_jazz"];
          tempo_range := (80, 160);
          instruments := [1; 25; 33; 65; 57];
          dynamics := ["mp"; "mf"; "f"];
          rhythm := "swing" |});
      ("blues",
       {| template_scales := ["blues"; "pentatonic_minor"];
          progressions := ["blues_12bar"];
          tempo_range := (70, 140);
          instruments := [25; 33; 65; 57];
          dynamics := ["mf"; "f"; "ff"];
          rhythm := "swing" |});
      ("pop",
       {| template_scales := ["major"; "minor"; "pentatonic_major"];
          progressions := ["pop"; "folk"];
          tempo_range := (90, 140);
          instruments := [1; 25; 33; 81];
          dynamics := ["mp"; "mf"; "f"];
          rhythm := "straight" |});
      ("ambient",
       {| template_scales := ["major"; "lydian"; "whole_tone"];
          progressions := ["modal_jazz"];
          tempo_range := (60, 90);
          instruments := [89; 90; 49; 92];
          dynamics := ["pp"; "p"; "mp"];
          rhythm := "straight" |});
      ("world",
       {| template_scales := ["pentatonic_major"; "japanese"; "arabic"; "gypsy"];
          progressions := ["modal_jazz"; "folk"];
          tempo_range := (80, 120);
          instruments := [76; 73; 49; 33];
          dynamics := ["p"; "mp"; "mf"];
          rhythm := "syncopated" |}) ].

(** The messages the generator writes to a track.  They are built by the
    MIDI library [mido], which checks their fields. *)
Inductive message : Type :=
| track_name (name : string) (time : Z)
| set_tempo (tempo : Z) (time : Z)
| key_signature (key : string) (time : Z)
| time_signature (numerator denominator clocks_per_click
                  notated_32nd_notes_per_beat time : Z)
| end_of_track (time : Z)
| program_change (channel program time : Z)
| control_change (channel control value time : Z)
| note_on (channel note velocity time : Z)
| note_off (channel note velocity time : Z).

Definition MidiTrack : Type := list message.

Record MidiFile : Type :=
  { file_ticks_per_beat : Z; tracks : list MidiTrack }.

(** The checks of the library on an int field: a value out of the range
    raises [ValueError]. *)
Definition check_int (value low high : Z) : result unit :=
  if (low <=? value) && (value <=? high) then Ok tt else Raise ValueError.

(** A channel is from 0 to 15. *)
Definition check_channel (channel : Z) : result unit :=
  check_int channel 0 15.

(** A note, a velocity, a program, a controller and its value are data
    bytes, from 0 to 127. *)
Definition check_data_byte (value : Z) : result unit :=
  check_int value 0 127.

(** The key names of the library. *)
Definition key_names : list string :=
  [ "Cb"; "Gb"; "Db"; "Ab"; "Eb"; "Bb"; "F"; "C"; "G"; "D"; "A"; "E"; "B";
    "F#"; "C#"; "Abm"; "Ebm"; "Bbm"; "Fm"; "Cm"; "Gm"; "Dm"; "Am"; "Em";
    "Bm"; "F#m"; "C#m"; "G#m"; "D#m"; "A#m" ].

(** The checks on the fields of a message.  A tempo is from 0 to 16777215;
    a key is one of the key names; the denominator of a time signature is a
    power of 2 from 1 to 2^255 and its other fields are from 0 to 255.  The
    time of a message is not checked. *)
Definition check (m : message) : result unit :=
  (match m with
   | track_name _ _ => Ok tt
   | set_tempo tempo _ => check_int tempo 0 16777215
   | key_signature key _ =>
       if bool_decide (key ∈ key_names) then Ok tt else Raise ValueError
   | time_signature numerator denominator clocks_per_click
                    notated_32nd_notes_per_beat _ =>
       let! _ := check_int numerator 0 255 in
       let! _ := check_int denominator 1 (2 ^ 255) in
       let! _ :=
         if 2 ^ Z.log2 denominator =? denominator then Ok tt
         else Raise ValueError in
       let! _ := check_int clocks_per_click 0 255 in
       check_int notated_32nd_notes_per_beat 0 255
   | end_of_track _ => Ok tt
   | program_change channel program _ =>
       let! _ := check_channel channel in
       check_data_byte program
   | control_change channel control value _ =>
       let! _ := check_channel channel in
       let! _ := check_data_byte control in
       check_data_byte value
   | note_on channel note velocity _ | note_off channel note velocity _ =>
       let! _ := check_channel channel in
       let! _ := check_data_byte note in
       check_data_byte velocity
   end)%result.

(** [Message(...)]: the message, when its fields pass the checks. *)
Definition Message (m : message) : result message :=
  (let! _ := check m in Ok m)%result.

(** [MetaMessage(...)]. *)
Definition MetaMessage (m : message) : result message :=
  (let! _ := check m in Ok m)%result.

Definition ticks_per_beat : Z := 480.

(** [bpm_to_tempo]. *)
Definition bpm_to_tempo (bpm : Z) : result Z :=
  (let! q := Py.truediv 60000000 (IZR bpm) in Ok (Py.int q))%result.

(** One turn of the loop of [_create_melody_track]. *)
Definition melody_note (st : MidiTrack * Z) (n : note)
  : result (MidiTrack * Z) :=
  let '(track, current_time) := st in
  let '(note, duration, velocity) := n in
  (let! on := Message (note_on 0 note velocity current_time) in
   let track := track ++ [on] in
   let! off := Message (note_off 0 note 0 duration) in
   let track := track ++ [off] in
   Ok (track, 0))%result.

(** [_create_melody_track]. *)
Definition _create_melody_track (melody_data : list note) (instrument : Z)
           (tempo_bpm : Z) (key : string) (time_sig : Z * Z)
  : result MidiTrack :=
  (let track := [] in
   let! m := MetaMessage (track_name "Melody" 0) in
   let track := track ++ [m] in
   let! tempo := bpm_to_tempo tempo_bpm in
   let! m := MetaMessage (set_tempo tempo 0) in
   let track := track ++ [m] in
   let! m := MetaMessage (key_signature key 0) in
   let track := track ++ [m] in
   let! m := MetaMessage (time_signature time_sig.1 time_sig.2 24 8 0) in
   let track := track ++ [m] in
   let! m := Message (program_change 0 (instrument - 1) 0) in
   let track := track ++ [m] in
   let current_time := 0 in
   let! (track, current_time) :=
     Py.for_ melody_data melody_note (track, current_time) in
   let! m := MetaMessage (end_of_track 0) in
   Ok (track ++ [m]))%result.

(** One turn of the loop of [_create_harmony_track]. *)
Definition harmony_note (channel : Z) (st : MidiTrack * Z) (n : note)
  : result (MidiTrack * Z) :=
  let '(track, current_time) := st in
  let '(note, duration, velocity) := n in
  (let harmony_velocity :=
     Binary64.int (Binary64.mul (Binary64.of_Z velocity)
                                (Binary64.literal 7 10)) in
   let! on := Message (note_on channel note harmony_velocity current_time) in
   let track := track ++ [on] in
   let! off := Message (note_off channel note 0 duration) in
   let track := track ++ [off] in
   Ok (track, 0))%result.

(** [_create_harmony_track]. *)
Definition _create_harmony_track (harmony_data : list note)
           (instrument : Z) (channel : Z) : result MidiTrack :=
  (let track := [] in
   let! m :=
     MetaMessage (track_name (String.append "Harmony" (Py.str channel)) 0) in
   let track := track ++ [m] in
   let! m := Message (program_change channel (instrument - 1) 0) in
   let track := track ++ [m] in
   let! m := Message (control_change channel 7 80 0) in
   let track := track ++ [m] in
   let current_time := 0 in
   let! (track, current_time) :=
     Py.for_ harmony_data (harmony_note channel) (track, current_time) in
   let! m := MetaMessage (end_of_track 0) in
   Ok (track ++ [m]))%result.

Definition drum_map : gmap string Z :=
  list_to_map
    [ ("kick", 36); ("snare", 38); ("hihat", 42);
      ("open_hihat", 46); ("crash", 49); ("ride", 51) ].

Definition beat_patterns : gmap string (list (string * Z * Z)) :=
  list_to_map
    [ ("straight",
       [("kick", 0, 100); ("hihat", 240, 60);
        ("snare", 480, 90); ("hihat", 720, 60)]);
      ("swing",
       [("kick", 0, 100); ("hihat", 160, 60);
        ("snare", 480, 90); ("hihat", 640, 60)]);
      ("syncopated",
       [("kick", 0, 100); ("hihat", 120, 60); ("snare", 360, 90);
        ("kick", 600, 80); ("hihat", 720, 60)]) ].

(** One hit of the inner loop of [_create_drum_track]. *)
Definition drum_hit (channel measure : Z) (st : MidiTrack * Z)
           (hit : string * Z * Z) : Random.M (MidiTrack * Z) :=
  let '(track, current_time) := st in
  let '(drum, offset, velocity) := hit in
  (let! drum_note := Random.lift (Py.getitem drum_map drum) in
   let! u := Random.random in
   if Rlt_dec u 0.1 then Random.ret (track, current_time)
   else
     let phi_factor := (sin (IZR measure * phi) * 0.2 + 1)%R in
     let adjusted_velocity := Py.int (IZR velocity * phi_factor) in
     let adjusted_velocity := Z.max 30 (Z.min 127 adjusted_velocity) in
     let note_time := current_time + offset in
     let! on :=
       Random.lift
         (Message (note_on channel drum_note adjusted_velocity
                           (note_time - current_time))) in
     let track := track ++ [on] in
     let! off := Random.lift (Message (note_off channel drum_note 0 120)) in
     let track := track ++ [off] in
     Random.ret (track, note_time + 120))%rand.

(** [_create_drum_track]. *)
Definition _create_drum_track (melody_length : Z) (rhythm_style : string)
  : Random.M MidiTrack :=
  (let track := [] in
   let! m := Random.lift (MetaMessage (track_name "Drums" 0)) in
   let track := track ++ [m] in
   let channel := 9 in
   let! straight := Random.lift (Py.getitem beat_patterns "straight") in
   let pattern := Py.get beat_patterns rhythm_style straight in
   let beats_per_measure := 4 in
   let ticks_per_measure := ticks_per_beat * beats_per_measure in
   let measures := Z.max 1 (melody_length / 8) in
   let current_time := 0 in
   let! (track, current_time) :=
     Random.for_ (Py.range measures)
       (fun st measure =>
          let! (track, current_time) :=
            Random.for_ pattern (drum_hit channel measure) st in
          let next_measure_time := (measure + 1) * ticks_per_measure in
          Random.ret
            (track,
             if next_measure_time >? current_time then next_measure_time
             else current_time))
       (track, current_time) in
   let! m := Random.lift (MetaMessage (end_of_track 0)) in
   Random.ret (track ++ [m]))%rand.

(** [create_advanced_midi], with [time_signature] at its default (4, 4). *)
Definition create_advanced_midi (melody_data : list note)
           (harmony_data : list (list note)) (style : string)
           (tempo_bpm : Z) (key : string) : Random.M MidiFile :=
  (let! default := Random.lift (Py.getitem style_templates "classical") in
   let template := Py.get style_templates style default in
   let! lead := Random.lift (Py.index (instruments template) 0) in
   let! melody_track :=
     Random.lift
       (_create_melody_track melody_data lead tempo_bpm key (4, 4)) in
   let mid_tracks := [melody_track] in
   let! mid_tracks :=
     if Py.truthy harmony_data then
       Random.lift
         (Py.for_ (Py.enumerate harmony_data)
            (fun mid_tracks '(i, harmony_part) =>
               let! instrument :=
                 if i <? Py.len (instruments template) - 1
                 then Py.index (instruments template) (i + 1)
                 else Py.index (instruments template) (-1) in
               let! harmony_track :=
                 _create_harmony_track harmony_part instrument (i + 1) in
               Ok (mid_tracks ++ [harmony_track]))%result
            mid_tracks)
     else Random.ret mid_tracks in
   let! mid_tracks :=
     if bool_decide (style ∈ ["jazz"; "blues"; "pop"])
        && (Py.len melody_data >? 16)
     then
       let! drum_track :=
         _create_drum_track (Py.len melody_data) (rhythm template) in
       Random.ret (mid_tracks ++ [drum_track])
     else Random.ret mid_tracks in
   Random.ret {| file_ticks_per_beat := ticks_per_beat;
                 tracks := mid_tracks |})%rand.

(** The number of notes asked of the melody generator. *)
Definition total_notes (duration_seconds tempo_bpm : Z) : Z :=
  let notes_per_second :=
    Binary64.mul (Binary64.div tempo_bpm 60) (Binary64.of_Z 2) in
  Binary64.int (Binary64.mul (Binary64.of_Z duration_seconds)
                             notes_per_second).

Definition key_map : gmap Z string :=
  list_to_map
    [ (60, "C"); (61, "C#"); (62, "D"); (63, "Eb"); (64, "E"); (65, "F");
      (66, "F#"); (67, "G"); (68, "Ab"); (69, "A"); (70, "Bb"); (71, "B") ].

(** The first part of [generate_complete_composition], up to the melody
    shaped by the rhythm pattern: the structure points, the scale notes
    and the melody. *)
Definition compose_melody (style : string)
           (duration_seconds tempo_bpm : Z) (scale_name : string)
           (root_note : Z) : Random.M (list Z * list Z * list note) :=
  (let total_notes := total_notes duration_seconds tempo_bpm in
   let! structure_points := golden_ratio_subdivisions total_notes in
   let! scale := Random.lift (Py.getitem scales scale_name) in
   let scale_notes := map (fun interval => root_note + interval) scale in
   let! melody := generate_golden_melody scale_notes total_notes root_note in
   let! default := Random.lift (Py.getitem style_templates "classical") in
   let template := Py.get style_templates style default in
   let! melody := Random.lift (apply_golden_rhythm melody (rhythm template)) in
   Random.ret (structure_points, scale_notes, melody))%rand.

(** [generate_complete_composition]. *)
Definition generate_complete_composition (style : string)
           (duration_seconds tempo_bpm : Z) (scale_name : string)
           (root_note : Z) : Random.M (MidiFile * gmap string pyval) :=
  (let! (structure_points, scale_notes, melody) :=
     compose_melody style duration_seconds tempo_bpm scale_name root_note in
   let! harmony_parts :=
     Random.lift (generate_golden_harmony melody scale_notes) in
   let key_note := root_note mod 12 + 60 in
   let key_string :=
     match key_map !! key_note with
     | Some key => key
     | None => "C"
     end in
   let! midi_file :=
     create_advanced_midi melody harmony_parts style tempo_bpm key_string in
   let! analysis := Random.lift (analyze_golden_ratios melody) in
   let! root_name := Random.lift (get_note_name root_note) in
   let analysis : gmap string pyval :=
     <["scale_info" := PDict (get_scale_info scale_name)]>
       (<["structure_points" := PList structure_points]>
          (<["duration" := PInt duration_seconds]>
             (<["tempo" := PInt tempo_bpm]>
                (<["root_note" := PStr root_name]>
                   (<["scale" := PStr scale_name]>
                      (<["style" := PStr style]> analysis)))))) in
   Random.ret (midi_file, analysis))%rand.

End AdvancedMidiGenerator.

(** ** Vocabulary of the statements *)

(** A source of draws that always returns 0, for running the definitions. *)
Definition zero_draws : Random.state :=
  {| Random.draws := fun _ => 0%R; Random.cursor := 0 |}.

(** The state after one draw. *)
Definition advance (s : Random.state) : Random.state :=
  {| Random.draws := Random.draws s; Random.cursor := S (Random.cursor s) |}.

(** [int] against [floor]: they agree except on a negative value that is
    not an integer, where [int] is one above. *)
Definition above_floor (x : R) : Z :=
  if Rlt_dec x 0
  then if Req_dec_T (IZR (Py.floor x)) x then 0 else 1
  else 0.

(** [max(lo, min(hi, x))]. *)
Definition clip (lo hi x : Z) : Z := Z.max lo (Z.min hi x).

(** The bounds of a melody note. *)
Definition in_range (n : MusicTheory.note) : Prop :=
  21 <= MusicTheory.pitch n <= 108 /\ 32 <= MusicTheory.velocity n <= 127.

(** The note at index [i]: a scale note moved by the octave shift and
    clipped to the piano range, with a clipped velocity. *)
Definition note_at (scale_notes : list Z) (i : Z) (n : MusicTheory.note)
  : Prop :=
  (exists base,
      In base scale_notes
      /\ MusicTheory.pitch n = clip 21 108 (base + MusicTheory.octave_shift i))
  /\ 32 <= MusicTheory.velocity n <= 127.

(** The pattern [apply_golden_rhythm] works with: the named one, or
    [straight] for a name that is not in the catalog. *)
Definition pattern_of (pattern_name : string) : list Z :=
  match MusicTheory.rhythm_patterns !! pattern_name with
  | Some pattern => pattern
  | None => [1; 0; 1; 0; 1; 0; 1; 0]
  end.

(** [pattern[i % len(pattern)] == 1]. *)
Definition on_beat (pattern : list Z) (i : Z) : bool :=
  nth (Z.to_nat (i mod Py.len pattern)) pattern 0 =? 1.

(** The velocity of an emitted note: raised on every third index. *)
Definition accent (i velocity : Z) : Z :=
  if i mod 3 =? 0 then Z.min 127 (Py.int (IZR velocity * 1.2)) else velocity.

(** The indexed input notes that fall on a 1 of the pattern. *)
Definition kept (pattern : list Z) (melody : list MusicTheory.note)
  : list (Z * MusicTheory.note) :=
  List.filter (fun x => on_beat pattern x.1) (Py.enumerate melody).

(** The entries of a rhythm pattern are 0 or 1. *)
Definition bit (b : Z) : Prop := b = 0 \/ b = 1.

(** A list of ints in descending order: no element is below the next. *)
Definition descending (l : list Z) : Prop := Sorted (fun a b => b <= a) l.

(** The notes a track plays: each [note_on] with the [note_off] that
    follows it gives back the pitch, the duration and the velocity. *)
Fixpoint track_notes (track : AdvancedMidiGenerator.MidiTrack)
  : list MusicTheory.note :=
  match track with
  | [] => []
  | AdvancedMidiGenerator.note_on _ n v _ :: rest =>
      match rest with
      | AdvancedMidiGenerator.note_off _ _ _ d :: rest' =>
          (n, d, v) :: track_notes rest'
      | _ => track_notes rest
      end
  | _ :: rest => track_notes rest
  end.

(** The note the middle voice adds for the melody note at index [i], when
    the loop takes the index: a third or a fifth above, unless that is
    above 108. *)
Definition middle_candidate (x : Z * MusicTheory.note)
  : list MusicTheory.note :=
  let '(i, (p, d, v)) := x in
  let interval :=
    nth (Z.to_nat (Py.int (Py.fmod (IZR i * MusicTheory.phi) 2))) [4; 7] 0 in
  if p + interval <=? 108
  then [(p + interval, d, Py.int (IZR v * 0.8))]
  else [].

(** A note that can be written to a track: a duration that is not negative
    and a velocity from 0 to 127. *)
Definition playable (m : MusicTheory.note) : Prop :=
  0 <= MusicTheory.duration m /\ 0 <= MusicTheory.velocity m <= 127.

(** The progression [generate_chord_progression] works with: the named
    one, or [pop] for a name that is not in the catalog. *)
Definition progression_of (progression_name : string) : list Z :=
  match MusicTheory.chord_progressions !! progression_name with
  | Some progression => progression
  | None => [0; 5; 6; 4]
  end.

(** The scale [generate_chord_progression] works with: the named one, or
    [major] for a name that is not in the catalog. *)
Definition scale_of (scale_name : string) : list Z :=
  match MusicTheory.scales !! scale_name with
  | Some scale => scale
  | None => [0; 2; 4; 5; 7; 9; 11]
  end.

(** A chord built on a draw [u]: four notes when the draw is below
    [1 / phi], three otherwise; the first note is the chord root, a scale
    note above the root note, and every note is within 11 semitones of
    the chord root. *)
Definition chord_on (root_note : Z) (u : R) (chord : list Z) : Prop :=
  length chord = (if Rlt_dec u MusicTheory.phi_inverse then 4 else 3)%nat
  /\ exists chord_root,
      head chord = Some chord_root
      /\ root_note <= chord_root <= root_note + 11
      /\ Forall (fun tone => chord_root - 11 <= tone <= chord_root + 11) chord.

(** The two messages a track gets for a note on a channel. *)
Definition note_messages (channel : Z) (n : MusicTheory.note)
  : list AdvancedMidiGenerator.message :=
  [ AdvancedMidiGenerator.note_on channel (MusicTheory.pitch n)
                                  (MusicTheory.velocity n) 0;
    AdvancedMidiGenerator.note_off channel (MusicTheory.pitch n) 0
                                   (MusicTheory.duration n) ].

(** [int(velocity * 0.7)], the product rounded to binary64 before it is
    truncated: 90 gives 62, not 63. *)
Definition soften (velocity : Z) : Z :=
  Binary64.int (Binary64.mul (Binary64.of_Z velocity) (Binary64.literal 7 10)).

(** The note the harmony track writes for a note: the velocity is
    lowered. *)
Definition softened (n : MusicTheory.note) : MusicTheory.note :=
  (MusicTheory.pitch n, MusicTheory.duration n,
   soften (MusicTheory.velocity n)).

(** A note whose messages pass the checks of the library: pitch and
    velocity are data bytes. *)
Definition writable (n : MusicTheory.note) : Prop :=
  0 <= MusicTheory.pitch n <= 127 /\ 0 <= MusicTheory.velocity n <= 127.

(** The real number a binary64 number stands for. *)
Definition value (x : Binary64.t) : R :=
  (IZR (Binary64.mant x) * powerRZ 2 (Binary64.expo x))%R.

(** The floats of the machine, to compare [Binary64] with: the conversion
    of an int from 0 to 2^53, and [int(x)]. *)
Definition machine_float (z : Z) : PrimFloat.float :=
  PrimFloat.of_uint63 (Uint63.of_Z z).

Definition machine_int (x : PrimFloat.float) : Z :=
  match FloatOps.Prim2SF x with
  | SpecFloat.S754_finite s m e =>
      let q := Z.quot (Z.pos m * 2 ^ Z.max 0 e) (2 ^ Z.max 0 (- e)) in
      if s then - q else q
  | _ => 0
  end.

(** [int(duration_seconds * (tempo_bpm / 60 * 2))] and
    [int(velocity * 0.7)] on the floats of the machine. *)
Definition machine_total_notes (duration_seconds tempo_bpm : Z) : Z :=
  let notes_per_second :=
    PrimFloat.mul (PrimFloat.div (machine_float tempo_bpm) (machine_float 60))
                  (machine_float 2) in
  machine_int (PrimFloat.mul (machine_float duration_seconds) notes_per_second).

Definition machine_soften (velocity : Z) : Z :=
  machine_int
    (PrimFloat.mul (machine_float velocity)
                   (PrimFloat.div (machine_float 7) (machine_float 10))).

(** Half the distance between 1 and the next binary64 number, [2 ^ -53]:
    the largest relative error of one operation. *)
Definition unit_roundoff : R := (/ 9007199254740992)%R.

(** The beat pattern [_create_drum_track] works with: the one of the style,
    or [straight] for a style that has none. *)
Definition beat_of (rhythm_style : string) : list (string * Z * Z) :=
  match AdvancedMidiGenerator.beat_patterns !! rhythm_style with
  | Some pattern => pattern
  | None =>
      [("kick", 0, 100); ("hihat", 240, 60); ("snare", 480, 90);
       ("hihat", 720, 60)]
  end.

(** The number of measures of the drum track. *)
Definition measures_of (melody_length : Z) : nat :=
  Z.to_nat (Z.max 1 (melody_length / 8)).

(** A message of a drum hit: on channel 9, for the kick (36), the snare
    (38) or the closed hi-hat (42); a [note_on] has a velocity from 30 to
    127 and comes at most 720 ticks after the message before it, a
    [note_off] comes 120 ticks after its [note_on]. *)
Definition drum_message (m : AdvancedMidiGenerator.message) : Prop :=
  match m with
  | AdvancedMidiGenerator.note_on channel note velocity time =>
      channel = 9 /\ In note [36; 38; 42]
      /\ 30 <= velocity <= 127 /\ 0 <= time <= 720
  | AdvancedMidiGenerator.note_off channel note velocity time =>
      channel = 9 /\ In note [36; 38; 42] /\ velocity = 0 /\ time = 120
  | _ => False
  end.

(** A hit of a beat pattern that the drum track can play. *)
Definition playable_hit (hit : string * Z * Z) : Prop :=
  (exists note,
      AdvancedMidiGenerator.drum_map !! hit.1.1 = Some note
      /\ In note [36; 38; 42])
  /\ 0 <= hit.1.2 <= 720.

(** The template a style name stands for: its own, or [classical] for a
    name that is not in the catalog. *)
Definition template_of (style : string) : AdvancedMidiGenerator.template :=
  Py.get AdvancedMidiGenerator.style_templates style
         AdvancedMidiGenerator.classical.

(** The test that adds a drum track. *)
Definition with_drums (style : string) (melody : list MusicTheory.note)
  : bool :=
  bool_decide (style ∈ ["jazz"; "blues"; "pop"]) && (Py.len melody >? 16).

(** * Properties *)

(** ** The Python operations *)

Section PyFacts.

Lemma Int_part_bounds (x : R) : (IZR (Int_part x) <= x < IZR (Int_part x) + 1)%R.
Proof. destruct (base_Int_part x) as [H1 H2]. split; lra. Qed.

Lemma Int_part_unique (x : R) (n : Z) :
  (IZR n <= x < IZR n + 1)%R -> Int_part x = n.
Proof. intros [H1 H2]. symmetry. apply Int_part_spec. split; lra. Qed.

Lemma int_nonneg (x : R) (n : Z) :
  (0 <= x)%R -> (IZR n <= x < IZR n + 1)%R -> Py.int x = n.
Proof.
  intros Hx Hn. unfold Py.int. destruct (Rle_dec 0 x) as [_ | Hc]; [| lra].
  now apply Int_part_unique.
Qed.

Lemma int_neg (x : R) (n : Z) :
  (x < 0)%R -> (IZR n - 1 < x <= IZR n)%R -> Py.int x = n.
Proof.
  intros Hx [H1 H2]. unfold Py.int. destruct (Rle_dec 0 x) as [Hc | _]; [lra |].
  rewrite (Int_part_unique (- x) (- n)); [lia |].
  rewrite opp_IZR. split; lra.
Qed.

Lemma int_floor (x : R) : Py.int x = Py.floor x + above_floor x.
Proof.
  unfold above_floor, Py.floor.
  pose proof (Int_part_bounds x) as [Hlo Hhi].
  destruct (Rlt_dec x 0) as [Hneg | Hpos].
  - destruct (Req_dec_T (IZR (Int_part x)) x) as [Heq | Hne].
    + apply int_neg; [exact Hneg |]. rewrite Z.add_0_r. lra.
    + apply int_neg; [exact Hneg |]. rewrite plus_IZR. split; lra.
  - rewrite Z.add_0_r. apply int_nonneg; [lra | split; assumption].
Qed.

Lemma fmod_range (x m : R) : (0 < m)%R -> (0 <= Py.fmod x m < m)%R.
Proof.
  intros Hm. unfold Py.fmod.
  pose proof (Int_part_bounds (x / m)) as [Hlo Hhi].
  assert (Hx : x = (x / m * m)%R) by (field; lra).
  split.
  - apply (Rmult_le_compat_r m) in Hlo; lra.
  - apply (Rmult_lt_compat_r m) in Hhi; lra.
Qed.

Lemma int_range (x : R) (k : Z) :
  (0 <= x < IZR k)%R -> 0 <= Py.int x < k.
Proof.
  intros [Hlo Hhi].
  pose proof (Int_part_bounds x) as [Hl Hh].
  rewrite (int_nonneg x (Int_part x) Hlo (conj Hl Hh)).
  split.
  - assert (Hm : (-1 < IZR (Int_part x))%R) by lra.
    apply lt_IZR in Hm. lia.
  - apply lt_IZR. lra.
Qed.

Lemma int_fmod_range (x : R) (k : Z) :
  0 < k -> 0 <= Py.int (Py.fmod x (IZR k)) < k.
Proof.
  intros Hk. apply int_range. apply fmod_range. now apply IZR_lt.
Qed.

Lemma index_ok {A} (l : list A) (i : Z) :
  0 <= i < Py.len l -> exists a, Py.index l i = Ok a /\ In a l.
Proof.
  intros [Hlo Hhi]. unfold Py.index, Py.len in *.
  destruct (i <? 0) eqn:E; [lia |].
  destruct ((0 <=? i) && (i <? Z.of_nat (length l))) eqn:E2.
  2:{ apply andb_false_iff in E2. destruct E2 as [E2 | E2]; lia. }
  destruct (nth_error l (Z.to_nat i)) as [a |] eqn:E3.
  - exists a. split; [reflexivity |]. eapply nth_error_In; eauto.
  - apply nth_error_None in E3. lia.
Qed.

Lemma mod_ok (a b : Z) :
  0 < b -> exists r, Py.mod_ a b = Ok r /\ 0 <= r < b.
Proof.
  intros Hb. unfold Py.mod_. destruct (b =? 0) eqn:E; [lia |].
  exists (a mod b). split; [reflexivity |]. now apply Z.mod_pos_bound.
Qed.

Lemma truediv_ok (a b : R) : b <> 0%R -> Py.truediv a b = Ok (a / b)%R.
Proof.
  intros Hb. unfold Py.truediv. now destruct (Req_dec_T b 0).
Qed.

Lemma fold_max_ge (l : list Z) (a : Z) : a <= fold_left Z.max l a.
Proof.
  revert a. induction l as [| b l IH]; intros a; simpl; [lia |].
  specialize (IH (Z.max a b)). lia.
Qed.

Lemma sum_from (l : list Z) (a : Z) : fold_left Z.add l a = a + Py.sum l.
Proof.
  unfold Py.sum. revert a. induction l as [| b l IH]; intros a; cbn [fold_left]; [lia |].
  rewrite (IH (a + b)), (IH (0 + b)). lia.
Qed.

Lemma sum_cons (a : Z) (l : list Z) : Py.sum (a :: l) = a + Py.sum l.
Proof. unfold Py.sum at 1. simpl. apply sum_from. Qed.

Lemma sum_app (l l' : list Z) : Py.sum (l ++ l') = Py.sum l + Py.sum l'.
Proof.
  induction l as [| a l IH]; simpl; [reflexivity |].
  rewrite !sum_cons, IH. lia.
Qed.

Lemma sum_insert_desc (x : Z) (l : list Z) :
  Py.sum (Py.insert_desc x l) = x + Py.sum l.
Proof.
  induction l as [| y l IH]; simpl; [now rewrite sum_cons |].
  destruct (y <? x); rewrite !sum_cons; [reflexivity |]. rewrite IH. lia.
Qed.

Lemma sum_sorted_reverse (l : list Z) : Py.sum (Py.sorted_reverse l) = Py.sum l.
Proof.
  induction l as [| a l IH]; simpl; [reflexivity |].
  rewrite sum_insert_desc, sum_cons, IH. reflexivity.
Qed.

Lemma len_nonzero {A} (l : list A) : l <> [] -> IZR (Py.len l) <> 0%R.
Proof.
  intros Hl. destruct l as [| a l]; [congruence |].
  unfold Py.len. apply not_0_IZR. simpl. lia.
Qed.

End PyFacts.

(** ** Binary64 arithmetic *)

Section Binary64Facts.

Import Binary64.

(** The nearest integer is within one half of the quotient. *)
Lemma nearest_even_error (n d : Z) :
  0 <= n -> 0 < d ->
  0 <= nearest_even n d /\ - d <= 2 * (nearest_even n d * d - n) <= d.
Proof.
  intros Hn Hd. unfold nearest_even.
  pose proof (Z.div_mod n d ltac:(lia)) as Hdm.
  pose proof (Z.mod_pos_bound n d Hd) as Hr.
  pose proof (Z.div_pos n d Hn Hd) as Hq.
  destruct (Z.compare_spec (2 * (n mod d)) d) as [E | E | E].
  - destruct (Z.even (n / d)); split; nia.
  - split; nia.
  - split; nia.
Qed.

Lemma IZR_pow2 (k : Z) : 0 <= k -> IZR (2 ^ k) = powerRZ 2 k.
Proof.
  intros Hk. rewrite <- (Z2Nat.id k Hk). rewrite <- pow_powerRZ.
  now rewrite <- pow_IZR.
Qed.

(** The fraction [2 ^ max(0, e) / 2 ^ max(0, -e)] is [2 ^ e]. *)
Lemma pow2_fraction (e : Z) :
  (IZR (2 ^ Z.max 0 e) / IZR (2 ^ Z.max 0 (- e)) = powerRZ 2 e)%R.
Proof.
  rewrite !IZR_pow2 by lia.
  destruct (Z_lt_le_dec e 0) as [H | H].
  - rewrite Z.max_l, Z.max_r by lia. simpl (powerRZ 2 0).
    replace e with (- (- e)) at 2 by lia.
    rewrite (powerRZ_neg' 2 (- e)). unfold Rdiv. now rewrite Rmult_1_l.
  - rewrite Z.max_r, Z.max_l by lia. simpl (powerRZ 2 0). field.
Qed.

(** The exponent chosen by [round_pos] leaves at least 53 bits. *)
Lemma round_pos_scale (n d : Z) :
  0 < n -> 0 < d ->
  2 ^ 52 * (d * 2 ^ Z.max 0 (expo (round_pos n d)))
  <= n * 2 ^ Z.max 0 (- expo (round_pos n d)).
Proof.
  intros Hn Hd. unfold round_pos. cbn [expo].
  pose proof (Z.log2_spec n Hn) as [Hn1 Hn2].
  pose proof (Z.log2_spec d Hd) as [Hd1 Hd2].
  pose proof (Z.log2_nonneg n) as Ha. pose proof (Z.log2_nonneg d) as Hb.
  set (a := Z.log2 n) in *. set (b := Z.log2 d) in *.
  set (l := if _ <? _ then _ else _).
  assert (Hl : (0 <= l -> d * 2 ^ l <= n) /\ (l <= 0 -> d <= n * 2 ^ (- l))).
  { unfold l. destruct (Z.ltb_spec (n * 2 ^ Z.max 0 (- (a - b)))
                                   (d * 2 ^ Z.max 0 (a - b))) as [T | T].
    - replace (Z.succ b) with (b + 1) in Hd2 by lia.
      split; intros H.
      + assert (E : 2 ^ a = 2 ^ (b + 1) * 2 ^ (a - b - 1)).
        { rewrite <- Z.pow_add_r by lia. f_equal. lia. }
        assert (HX : 0 < 2 ^ (a - b - 1)) by (apply Z.pow_pos_nonneg; lia).
        pose proof (proj1 (Z.mul_lt_mono_pos_r _ _ _ HX) Hd2) as Hlt. lia.
      + assert (E : 2 ^ (b + 1) = 2 ^ a * 2 ^ (- (a - b - 1))).
        { rewrite <- Z.pow_add_r by lia. f_equal. lia. }
        assert (HX : 0 < 2 ^ (- (a - b - 1))) by (apply Z.pow_pos_nonneg; lia).
        pose proof (Z.mul_le_mono_nonneg_r _ _ (2 ^ (- (a - b - 1))) ltac:(lia) Hn1)
          as Hle. lia.
    - split; intros H.
      + rewrite Z.max_r, Z.max_l, Z.pow_0_r in T by lia. lia.
      + rewrite Z.max_l, Z.max_r, Z.pow_0_r in T by lia. lia. }
  clearbody l. destruct Hl as [Hl1 Hl2].
  destruct (Z_lt_le_dec (l - 52) 0) as [He | He].
  - rewrite Z.max_l, Z.max_r by lia. rewrite Z.pow_0_r.
    destruct (Z_lt_le_dec l 0) as [Hneg | Hpos].
    + replace (- (l - 52)) with (- l + 52) by lia.
      rewrite Z.pow_add_r by lia. specialize (Hl2 ltac:(lia)).
      assert (0 < 2 ^ 52) by reflexivity. nia.
    + replace 52 with (l + - (l - 52)) at 1 by lia.
      rewrite Z.pow_add_r by lia. specialize (Hl1 Hpos).
      assert (0 < 2 ^ (- (l - 52))) by (apply Z.pow_pos_nonneg; lia). nia.
  - rewrite Z.max_r, Z.max_l by lia. rewrite Z.pow_0_r.
    replace l with (52 + (l - 52)) in Hl1 by lia.
    rewrite Z.pow_add_r in Hl1 by lia. specialize (Hl1 ltac:(lia)). nia.
Qed.

(** The value of a rounded positive fraction is within one part in 2^53 of
    the fraction. *)
Lemma round_pos_error (n d : Z) :
  0 < n -> 0 < d ->
  0 <= mant (round_pos n d)
  /\ ((1 - unit_roundoff) * (IZR n / IZR d) <= value (round_pos n d)
      <= (1 + unit_roundoff) * (IZR n / IZR d))%R.
Proof.
  intros Hn Hd. pose proof (round_pos_scale n d Hn Hd) as Hs.
  unfold value. set (x := round_pos n d) in *.
  assert (Em : mant x = nearest_even (n * 2 ^ Z.max 0 (- expo x))
                                     (d * 2 ^ Z.max 0 (expo x)))
    by reflexivity.
  set (e := expo x) in *.
  set (A := 2 ^ Z.max 0 (- e)) in *. set (B := 2 ^ Z.max 0 e) in *.
  assert (HA : 0 < A) by (apply Z.pow_pos_nonneg; lia).
  assert (HB : 0 < B) by (apply Z.pow_pos_nonneg; lia).
  destruct (nearest_even_error (n * A) (d * B)) as [Hm0 Hm]; [nia | nia |].
  rewrite <- Em in Hm0, Hm. split; [exact Hm0 |].
  pose proof (pow2_fraction e) as Hf. fold A B in Hf. rewrite <- Hf.
  set (m := mant x) in *.
  apply IZR_lt in Hn, Hd, HA, HB.
  destruct Hm as [Hm1 Hm2]. apply IZR_le in Hm1, Hm2, Hs.
  repeat rewrite ?opp_IZR, ?mult_IZR, ?minus_IZR in Hm1.
  repeat rewrite ?opp_IZR, ?mult_IZR, ?minus_IZR in Hm2.
  repeat rewrite ?mult_IZR in Hs.
  change (IZR (2 ^ 52)) with 4503599627370496%R in Hs.
  set (rn := IZR n) in *. set (rd := IZR d) in *.
  set (rA := IZR A) in *. set (rB := IZR B) in *. set (rm := IZR m) in *.
  unfold unit_roundoff.
  assert (Hd' : (0 < rd * rA)%R) by nra.
  split.
  - apply (Rmult_le_reg_r (rd * rA)); [exact Hd' |].
    replace ((1 - / 9007199254740992) * (rn / rd) * (rd * rA))%R
      with ((1 - / 9007199254740992) * (rn * rA))%R by (field; lra).
    replace (rm * (rB / rA) * (rd * rA))%R with (rm * (rd * rB))%R
      by (field; lra).
    lra.
  - apply (Rmult_le_reg_r (rd * rA)); [exact Hd' |].
    replace ((1 + / 9007199254740992) * (rn / rd) * (rd * rA))%R
      with ((1 + / 9007199254740992) * (rn * rA))%R by (field; lra).
    replace (rm * (rB / rA) * (rd * rA))%R with (rm * (rd * rB))%R
      by (field; lra).
    lra.
Qed.

Lemma value_zero : value zero = 0%R.
Proof. unfold value. simpl. lra. Qed.

(** One rounding: the sign is kept and the relative error is at most
    [2 ^ -53]. *)
Lemma round_error (n d : Z) :
  0 <= n -> 0 < d ->
  0 <= mant (round n d)
  /\ ((1 - unit_roundoff) * (IZR n / IZR d) <= value (round n d)
      <= (1 + unit_roundoff) * (IZR n / IZR d))%R.
Proof.
  intros Hn Hd. destruct n as [| p | p]; [| | lia].
  - cbn [round]. rewrite value_zero. split; [simpl; lia |].
    unfold Rdiv. rewrite Rmult_0_l, !Rmult_0_r. lra.
  - apply round_pos_error; lia.
Qed.

Lemma round_nonpos (n d : Z) : n <= 0 -> 0 < d -> mant (round n d) <= 0.
Proof.
  intros Hn Hd. destruct n as [| p | p]; [simpl; lia | lia |].
  cbn [round mant].
  pose proof (round_pos_error (- Z.neg p) d ltac:(lia) Hd) as [H _]. lia.
Qed.

(** The fraction [mul] rounds is the exact product. *)
Lemma mul_fraction (x y : t) :
  (IZR (mant x * mant y * 2 ^ Z.max 0 (expo x + expo y))
   / IZR (2 ^ Z.max 0 (- (expo x + expo y)))
   = value x * value y)%R.
Proof.
  unfold value. rewrite !mult_IZR. unfold Rdiv. rewrite Rmult_assoc.
  fold (IZR (2 ^ Z.max 0 (expo x + expo y))
        / IZR (2 ^ Z.max 0 (- (expo x + expo y))))%R.
  rewrite pow2_fraction, powerRZ_add by lra. ring.
Qed.

Lemma mul_error (x y : t) :
  0 <= mant x -> 0 <= mant y ->
  0 <= mant (mul x y)
  /\ ((1 - unit_roundoff) * (value x * value y) <= value (mul x y)
      <= (1 + unit_roundoff) * (value x * value y))%R.
Proof.
  intros Hx Hy. unfold mul. rewrite <- mul_fraction.
  apply round_error.
  - assert (0 <= 2 ^ Z.max 0 (expo x + expo y)) by (apply Z.pow_nonneg; lia).
    apply Z.mul_nonneg_nonneg; [apply Z.mul_nonneg_nonneg |]; assumption.
  - apply Z.pow_pos_nonneg; lia.
Qed.

Lemma mul_nonpos (x y : t) :
  mant x <= 0 -> 0 <= mant y -> mant (mul x y) <= 0.
Proof.
  intros Hx Hy. unfold mul. apply round_nonpos.
  - assert (0 <= 2 ^ Z.max 0 (expo x + expo y)) by (apply Z.pow_nonneg; lia).
    apply Z.mul_nonpos_nonneg; [apply Z.mul_nonpos_nonneg |]; assumption.
  - apply Z.pow_pos_nonneg; lia.
Qed.

Lemma mul_zero_r (x : t) : mul x zero = zero.
Proof. unfold mul. cbn [mant zero]. now rewrite Z.mul_0_r. Qed.

(** [int] of a float that is not negative is its floor. *)
Lemma int_bounds (x : t) :
  0 <= mant x ->
  0 <= int x /\ (IZR (int x) <= value x < IZR (int x) + 1)%R.
Proof.
  intros Hx. unfold int, value. rewrite <- pow2_fraction.
  set (A := 2 ^ Z.max 0 (expo x)). set (B := 2 ^ Z.max 0 (- expo x)).
  assert (HA : 0 < A) by (apply Z.pow_pos_nonneg; lia).
  assert (HB : 0 < B) by (apply Z.pow_pos_nonneg; lia).
  rewrite Z.quot_div_nonneg by nia.
  pose proof (Z.div_mod (mant x * A) B ltac:(lia)) as Hdm.
  pose proof (Z.mod_pos_bound (mant x * A) B HB) as [Hr0 Hr1].
  pose proof (Z.div_pos (mant x * A) B ltac:(nia) HB) as Hq.
  split; [exact Hq |].
  set (q := mant x * A / B) in *. set (r := (mant x * A) mod B) in *.
  assert (E : (IZR (mant x) * (IZR A / IZR B) = IZR q + IZR r / IZR B)%R).
  { apply IZR_lt in HB.
    replace (IZR (mant x) * (IZR A / IZR B))%R
      with (IZR (mant x * A) / IZR B)%R by (rewrite mult_IZR; field; lra).
    rewrite Hdm, plus_IZR, mult_IZR. field. lra. }
  rewrite E. apply IZR_le in Hr0. apply IZR_lt in Hr1, HB.
  assert (Hf : (0 <= IZR r / IZR B < 1)%R).
  { split.
    - apply Rmult_le_pos; [exact Hr0 |]. left. now apply Rinv_0_lt_compat.
    - apply (Rmult_lt_reg_r (IZR B)); [exact HB |].
      replace (IZR r / IZR B * IZR B)%R with (IZR r) by (field; lra). lra. }
  lra.
Qed.

Lemma int_nonpos (x : t) : mant x <= 0 -> int x <= 0.
Proof.
  intros Hx. unfold int.
  set (A := 2 ^ Z.max 0 (expo x)). set (B := 2 ^ Z.max 0 (- expo x)).
  assert (HA : 0 < A) by (apply Z.pow_pos_nonneg; lia).
  assert (HB : 0 < B) by (apply Z.pow_pos_nonneg; lia).
  replace (mant x * A) with (- (- mant x * A)) by lia.
  rewrite Z.quot_opp_l by lia.
  pose proof (Z.quot_pos (- mant x * A) B ltac:(nia) HB). lia.
Qed.

Lemma range2_elem (a b v : Z) : a <= v < b -> In v (Py.range2 a b).
Proof.
  intros Hv. unfold Py.range2. apply in_map_iff.
  exists (Z.to_nat (v - a)). split; [lia |]. apply in_seq. lia.
Qed.

(** The velocities the harmony gets from the velocities of a melody: the
    exact quotient, but for 90. *)
Lemma soften_values (v : Z) :
  0 <= v <= 127 -> soften v = if v =? 90 then 62 else 7 * v / 10.
Proof.
  intros Hv.
  assert (H : forallb (fun v => soften v =? if v =? 90 then 62 else 7 * v / 10)
                      (Py.range2 0 128) = true) by (vm_compute; reflexivity).
  rewrite forallb_forall in H. apply Z.eqb_eq, H, range2_elem. lia.
Qed.

Lemma soften_range (v : Z) : 0 <= v <= 127 -> 0 <= soften v <= 88.
Proof.
  intros Hv. rewrite (soften_values v Hv).
  destruct (v =? 90); [lia |].
  pose proof (Z.div_mod (7 * v) 10 ltac:(lia)) as Hdm.
  pose proof (Z.mod_pos_bound (7 * v) 10 ltac:(lia)) as Hr.
  lia.
Qed.

Lemma soften_melody (v : Z) : 32 <= v <= 127 -> 22 <= soften v <= 88.
Proof.
  intros Hv. rewrite (soften_values v) by lia.
  destruct (v =? 90); [lia |].
  pose proof (Z.div_mod (7 * v) 10 ltac:(lia)) as Hdm.
  pose proof (Z.mod_pos_bound (7 * v) 10 ltac:(lia)) as Hr.
  lia.
Qed.

(** The truncated product of an int and a number of tenths, on the real
    numbers. *)
Lemma int_tenths (v n : Z) (x : R) :
  0 <= v -> 0 <= n -> x = (IZR n / 10)%R -> Py.int (IZR v * x) = n * v / 10.
Proof.
  intros Hv Hn ->.
  pose proof (Z.div_mod (n * v) 10 ltac:(lia)) as Hdm.
  pose proof (Z.mod_pos_bound (n * v) 10 ltac:(lia)) as [Hr0 Hr1].
  pose proof (Z.div_pos (n * v) 10 ltac:(nia) ltac:(lia)) as Hq.
  set (q := n * v / 10) in *. set (r := (n * v) mod 10) in *.
  assert (E : (IZR v * (IZR n / 10) = IZR q + IZR r / 10)%R).
  { replace (IZR v * (IZR n / 10))%R with (IZR (n * v) / 10)%R
      by (rewrite mult_IZR; field).
    rewrite Hdm, plus_IZR, mult_IZR. simpl. field. }
  rewrite E. apply IZR_le in Hr0, Hq. apply IZR_lt in Hr1. simpl in Hr1.
  apply int_nonneg; [lra | split; lra].
Qed.

(** The factors 0.8 of the middle voice and 1.2 of the accent: on the
    velocities of the MIDI range the product truncates to the same integer
    on the real numbers and in binary64. *)
Lemma velocity_factors_exact (v : Z) :
  0 <= v <= 127 ->
  int (mul (of_Z v) (literal 8 10)) = Py.int (IZR v * 0.8)
  /\ int (mul (of_Z v) (literal 12 10)) = Py.int (IZR v * 1.2).
Proof.
  intros Hv.
  rewrite (int_tenths v 8 0.8), (int_tenths v 12 1.2)
    by (lia || (simpl; lra)).
  assert (H : forallb
                (fun v =>
                   (int (mul (of_Z v) (literal 8 10)) =? 8 * v / 10)
                   && (int (mul (of_Z v) (literal 12 10)) =? 12 * v / 10))
                (Py.range2 0 128) = true) by (vm_compute; reflexivity).
  rewrite forallb_forall in H. specialize (H v (range2_elem 0 128 v ltac:(lia))).
  apply andb_true_iff in H as [H1 H2]. split; now apply Z.eqb_eq.
Qed.

(** The quotient of [bpm_to_tempo]: for the tempos from 1 to 1000 the
    binary64 quotient truncates to the integer quotient. *)
Lemma tempo_quotient_exact (bpm : Z) :
  1 <= bpm <= 1000 -> int (div 60000000 bpm) = 60000000 / bpm.
Proof.
  intros Hb.
  assert (H : forallb (fun bpm => int (div 60000000 bpm) =? 60000000 / bpm)
                      (Py.range2 1 1001) = true) by (vm_compute; reflexivity).
  rewrite forallb_forall in H. apply Z.eqb_eq, H, range2_elem. lia.
Qed.

(** On the velocities of the MIDI range the model agrees with the floats
    of the machine. *)
Lemma soften_machine (v : Z) : 0 <= v <= 127 -> soften v = machine_soften v.
Proof.
  intros Hv.
  assert (H : forallb (fun v => soften v =? machine_soften v)
                      (Py.range2 0 128) = true) by (vm_compute; reflexivity).
  rewrite forallb_forall in H. apply Z.eqb_eq, H, range2_elem. lia.
Qed.

Import AdvancedMidiGenerator.

(** So it does on the note count, for the tempos the menu accepts at some
    of the durations it accepts. *)
Lemma total_notes_machine (d t : Z) :
  In d [5; 10; 15; 30; 60; 120; 300; 600] -> 30 <= t <= 300 ->
  total_notes d t = machine_total_notes d t.
Proof.
  intros Hd Ht.
  assert (H : forallb
                (fun d =>
                   forallb (fun t => total_notes d t =? machine_total_notes d t)
                           (Py.range2 30 301))
                [5; 10; 15; 30; 60; 120; 300; 600] = true)
    by (vm_compute; reflexivity).
  rewrite forallb_forall in H. specialize (H d Hd).
  rewrite forallb_forall in H. apply Z.eqb_eq, H, range2_elem. lia.
Qed.

Lemma total_notes_zero_tempo (d : Z) : total_notes d 0 = 0.
Proof.
  unfold total_notes.
  change (mul (div 0 60) (of_Z 2)) with zero.
  now rewrite mul_zero_r.
Qed.

Lemma total_notes_nonpositive (d t : Z) :
  d <= 0 -> 0 <= t -> total_notes d t <= 0.
Proof.
  intros Hd Ht. unfold total_notes. apply int_nonpos, mul_nonpos.
  - apply round_nonpos; lia.
  - apply mul_error.
    + unfold div. change (Z.sgn 60) with 1. change (Z.abs 60) with 60.
      apply round_error; lia.
    + apply round_error; lia.
Qed.

(** The note count is the floor of a number within six parts in 2^53 of
    the exact product: five roundings, of the two int operands, of the
    quotient and of the two products. *)
Lemma total_notes_value (d t : Z) :
  0 <= d -> 0 <= t ->
  exists v : R,
    0 <= total_notes d t
    /\ (IZR (total_notes d t) <= v < IZR (total_notes d t) + 1)%R
    /\ ((1 - 6 * unit_roundoff) * (IZR (d * t) / 30) <= v
        <= (1 + 6 * unit_roundoff) * (IZR (d * t) / 30))%R.
Proof.
  intros Hd Ht. unfold total_notes.
  assert (E1 : div t 60 = round t 60).
  { unfold div. change (Z.sgn 60) with 1. change (Z.abs 60) with 60.
    now rewrite Z.mul_1_r. }
  rewrite E1.
  destruct (round_error t 60 Ht ltac:(lia)) as [M1 [L1 U1]].
  destruct (round_error 2 1 ltac:(lia) ltac:(lia)) as [M2 [L2 U2]].
  fold (of_Z 2) in M2, L2, U2.
  destruct (mul_error _ _ M1 M2) as [M3 [L3 U3]].
  destruct (round_error d 1 Hd ltac:(lia)) as [M4 [L4 U4]].
  fold (of_Z d) in M4, L4, U4.
  destruct (mul_error _ _ M4 M3) as [M5 [L5 U5]].
  destruct (int_bounds _ M5) as [N0 [NL NU]].
  eexists. split; [exact N0 |]. split; [split; [exact NL | exact NU] |].
  set (v1 := value (round t 60)) in *. set (v2 := value (of_Z 2)) in *.
  set (v3 := value (mul (round t 60) (of_Z 2))) in *.
  set (v4 := value (of_Z d)) in *.
  set (v5 := value (mul (of_Z d) (mul (round t 60) (of_Z 2)))) in *.
  rewrite mult_IZR. apply IZR_le in Hd, Ht.
  set (D := IZR d) in *. set (T := IZR t) in *.
  change (IZR 2 / IZR 1)%R with (2 / 1)%R in L2, U2.
  change (IZR 60) with 60%R in L1, U1. change (IZR 1) with 1%R in L4, U4.
  unfold unit_roundoff in *. set (u := (/ 9007199254740992)%R) in *.
  assert (Hu : (0 < u < 1 / 1000)%R) by (unfold u; lra).
  assert (P1 : (0 <= v1)%R) by nra.
  assert (P2 : (0 <= v2)%R) by nra.
  assert (P3 : (0 <= v3)%R) by nra.
  assert (P4 : (0 <= v4)%R) by nra.
  assert (B3l : ((1 - u) * ((1 - u) * (T / 60) * ((1 - u) * 2)) <= v3)%R).
  { eapply Rle_trans; [| exact L3]. apply Rmult_le_compat_l; [lra |].
    apply Rmult_le_compat; nra. }
  assert (B3u : (v3 <= (1 + u) * ((1 + u) * (T / 60) * ((1 + u) * 2)))%R).
  { eapply Rle_trans; [exact U3 |]. apply Rmult_le_compat_l; [lra |].
    apply Rmult_le_compat; nra. }
  assert (B5l : ((1 - u) * ((1 - u) * D
                            * ((1 - u) * ((1 - u) * (T / 60) * ((1 - u) * 2))))
                 <= v5)%R).
  { eapply Rle_trans; [| exact L5]. apply Rmult_le_compat_l; [lra |].
    apply Rmult_le_compat; nra. }
  assert (B5u : (v5 <= (1 + u) * ((1 + u) * D
                            * ((1 + u) * ((1 + u) * (T / 60) * ((1 + u) * 2)))))%R).
  { eapply Rle_trans; [exact U5 |]. apply Rmult_le_compat_l; [lra |].
    apply Rmult_le_compat; nra. }
  assert (HP : (0 <= D * T / 30)%R) by nra.
  set (P := (D * T / 30)%R) in *.
  assert (C1 : ((1 - u) * ((1 - u) * D
                * ((1 - u) * ((1 - u) * (T / 60) * ((1 - u) * 2))))
               = (1 - u) * (1 - u) * (1 - u) * (1 - u) * (1 - u) * P)%R)
    by (unfold P; field).
  assert (C2 : ((1 + u) * ((1 + u) * D
                * ((1 + u) * ((1 + u) * (T / 60) * ((1 + u) * 2))))
               = (1 + u) * (1 + u) * (1 + u) * (1 + u) * (1 + u) * P)%R)
    by (unfold P; field).
  rewrite C1 in B5l. rewrite C2 in B5u.
  assert (K1 : (1 - 6 * u <= (1 - u) * (1 - u) * (1 - u) * (1 - u) * (1 - u))%R)
    by (unfold u; lra).
  assert (K2 : ((1 + u) * (1 + u) * (1 + u) * (1 + u) * (1 + u) <= 1 + 6 * u)%R)
    by (unfold u; lra).
  split; nra.
Qed.

(** The count against the exact quotient: the exact product is a multiple
    of 1/30, and the error is below 1/60 for a product below 2^48. *)
Lemma total_notes_quotient (d t : Z) :
  0 <= d -> 0 <= t -> d * t < 2 ^ 48 ->
  ((d * t) mod 30 <> 0 -> total_notes d t = d * t / 30)
  /\ d * t / 30 - 1 <= total_notes d t <= d * t / 30.
Proof.
  intros Hd Ht Hk.
  destruct (total_notes_value d t Hd Ht) as (v & N0 & [NL NU] & [VL VU]).
  set (N := total_notes d t) in *. set (k := d * t) in *.
  assert (Hk0 : 0 <= k) by (unfold k; nia).
  pose proof (Z.div_mod k 30 ltac:(lia)) as Hdm.
  pose proof (Z.mod_pos_bound k 30 ltac:(lia)) as [Hr0 Hr1].
  set (q := k / 30) in *. set (r := k mod 30) in *.
  assert (EP : (IZR k / 30 = IZR q + IZR r / 30)%R).
  { rewrite Hdm, plus_IZR, mult_IZR. simpl. field. }
  assert (Hk' : (IZR k < 281474976710656)%R).
  { apply IZR_lt in Hk. exact Hk. }
  assert (Hk0' : (0 <= IZR k)%R) by now apply IZR_le in Hk0.
  unfold unit_roundoff in *.
  assert (Herr : (IZR k / 30 - / 60 < v < IZR k / 30 + / 60)%R) by (split; lra).
  rewrite EP in Herr. destruct Herr as [EL EU].
  assert (Hr0' : (0 <= IZR r)%R) by now apply IZR_le in Hr0.
  assert (Hr1' : (IZR r <= 29)%R).
  { assert (H : r <= 29) by lia. now apply IZR_le in H. }
  split.
  - intros Hr.
    assert (Hr2 : (1 <= IZR r)%R).
    { assert (H : 1 <= r) by lia. now apply IZR_le in H. }
    assert (H1 : (IZR N < IZR q + 1)%R) by lra.
    assert (H2 : (IZR q < IZR N + 1)%R) by lra.
    rewrite <- plus_IZR in H1, H2. apply lt_IZR in H1, H2. lia.
  - assert (H1 : (IZR N < IZR q + 1)%R) by lra.
    assert (H2 : (IZR q - 1 < IZR N + 1)%R) by lra.
    rewrite <- plus_IZR in H1. rewrite <- minus_IZR, <- plus_IZR in H2.
    apply lt_IZR in H1, H2. lia.
Qed.

End Binary64Facts.

(** ** The golden ratio *)

Section GoldenFacts.

Import MusicTheory.

Lemma sqrt5_bounds : (2.236 < sqrt 5 < 2.237)%R.
Proof.
  assert (H5 : (0 <= 5)%R) by lra.
  pose proof (sqrt_pos 5) as Hpos.
  pose proof (sqrt_sqrt 5 H5) as Hsq.
  split; nra.
Qed.

Lemma phi_bounds : (1.618 < phi < 1.6185)%R.
Proof. unfold phi. pose proof sqrt5_bounds. lra. Qed.

Lemma phi_inverse_bounds : (0.6178 < phi_inverse < 0.6181)%R.
Proof.
  unfold phi_inverse. pose proof phi_bounds as [Hlo Hhi].
  assert (Hp : (0 < phi)%R) by lra.
  split.
  - apply (Rmult_lt_reg_r phi); [exact Hp |].
    replace (1 / phi * phi)%R with 1%R by (field; lra). nra.
  - apply (Rmult_lt_reg_r phi); [exact Hp |].
    replace (1 / phi * phi)%R with 1%R by (field; lra). nra.
Qed.

Lemma int_phi_2 : Py.int (phi * 2) = 3.
Proof. pose proof phi_bounds. apply int_nonneg; simpl; lra. Qed.

Lemma int_phi_7 : Py.int (phi * 7) = 11.
Proof. pose proof phi_bounds. apply int_nonneg; simpl; lra. Qed.

Lemma phi_squared : (phi ^ 2 = phi + 1)%R.
Proof.
  unfold phi. pose proof (sqrt_sqrt 5 ltac:(lra)) as Hsq.
  simpl. nra.
Qed.

(** The values the code computes from [phi]. *)
Example fibonacci_sequence_6 : fibonacci_sequence 6 = [1; 1; 2; 3; 5; 8].
Proof. reflexivity. Qed.

Example golden_durations_values : golden_durations = [296; 480; 776; 1256].
Proof.
  pose proof phi_bounds. pose proof phi_inverse_bounds.
  unfold golden_durations, base_duration. rewrite phi_squared.
  repeat f_equal; apply int_nonneg; simpl; lra.
Qed.

Example golden_intervals_values : golden_intervals = [1; 3; 4; 6; 8; 9; 11].
Proof.
  pose proof phi_bounds.
  unfold golden_intervals.
  change (Py.range2 1 8) with [1; 2; 3; 4; 5; 6; 7]. cbn [map].
  repeat f_equal; apply int_nonneg; simpl; lra.
Qed.

Example bass_interval : Py.int (phi * 7) mod 12 = 11.
Proof. now rewrite int_phi_7. Qed.

End GoldenFacts.

(** ** [golden_ratio_subdivisions] *)

Section Subdivisions.

Import MusicTheory.

(** Every call of [subdivide] returns, and what it appends sums to the
    length it was given. *)
Lemma subdivide_sum (levels : nat) :
  forall (length : Z) (subdivisions : list Z) (s : Random.state),
  exists out s',
    subdivide levels length subdivisions s = Ok (out, s')
    /\ Py.sum out = Py.sum subdivisions + length.
Proof.
  induction levels as [| levels IH]; intros length subdivisions s.
  - exists (subdivisions ++ [length]), s. split; [reflexivity |].
    rewrite sum_app, sum_cons. unfold Py.sum at 2. simpl. lia.
  - cbn [subdivide]. destruct (length <? 4).
    + exists (subdivisions ++ [length]), s. split; [reflexivity |].
      rewrite sum_app, sum_cons. unfold Py.sum at 2. simpl. lia.
    + set (major := Py.int (IZR length * phi_inverse)).
      unfold Random.bind at 1. unfold Random.random at 1.
      destruct (Rlt_dec _ 0.6).
      * unfold Random.bind.
        destruct (IH major subdivisions
                     {| Random.draws := Random.draws s;
                        Random.cursor := S (Random.cursor s) |})
          as (out1 & s1 & E1 & H1).
        rewrite E1.
        destruct (IH (length - major) out1 s1) as (out2 & s2 & E2 & H2).
        exists out2, s2. split; [exact E2 |]. lia.
      * eexists _, _. split; [reflexivity |].
        rewrite sum_app, !sum_cons. unfold Py.sum at 2. simpl. lia.
Qed.

(** C6.  For every total length (in particular every non-negative one) and
    every sequence of draws, [golden_ratio_subdivisions] returns a list of
    leaf lengths, and the leaves sum exactly to the total length.  At a
    split, which happens only for a length of 4 or more, the major part is
    the floor of [length * (1 / phi)] and the two parts add up to the
    length. *)
Theorem golden_ratio_subdivisions_sum
        (total_length : Z) (s : Random.state) :
  (exists leaves s',
      golden_ratio_subdivisions total_length s = Ok (leaves, s')
      /\ Py.sum leaves = total_length)
  /\ (forall length_ : Z,
        4 <= length_ ->
        let major := Py.int (IZR length_ * phi_inverse) in
        let minor := length_ - major in
        major = Py.floor (IZR length_ * phi_inverse)
        /\ major + minor = length_).
Proof.
  split.
  - unfold golden_ratio_subdivisions, Random.bind.
    destruct (subdivide_sum 3 total_length [] s) as (out & s' & E & H).
    rewrite E. exists (Py.sorted_reverse out), s'.
    split; [reflexivity |]. rewrite sum_sorted_reverse, H. reflexivity.
  - intros length_ Hlen major minor. split; [| unfold minor; lia].
    unfold major. rewrite int_floor. unfold above_floor.
    pose proof phi_inverse_bounds as [Hlo _].
    assert (Hl : (4 <= IZR length_)%R) by now apply IZR_le.
    destruct (Rlt_dec _ 0) as [Hneg | _]; [nra | lia].
Qed.

(** The statement at a total length of 10, split at length 10. *)
Lemma golden_ratio_subdivisions_sum_witness :
  (exists leaves s',
      golden_ratio_subdivisions 10 zero_draws = Ok (leaves, s')
      /\ Py.sum leaves = 10)
  /\ Py.int (IZR 10 * phi_inverse) = Py.floor (IZR 10 * phi_inverse)
  /\ Py.int (IZR 10 * phi_inverse) + (10 - Py.int (IZR 10 * phi_inverse)) = 10.
Proof.
  destruct (golden_ratio_subdivisions_sum 10 zero_draws) as [Hsum Hsplit].
  split; [exact Hsum |]. apply (Hsplit 10). lia.
Defined.

End Subdivisions.

(** ** Running a computation that draws *)

Section RandomFacts.

Lemma bind_lift_ok {A B} (c : result A) (a : A) (k : A -> Random.M B)
      (s : Random.state) :
  c = Ok a -> Random.bind (Random.lift c) k s = k a s.
Proof. intros ->. reflexivity. Qed.

Lemma bind_lift_raise {A B} (c : result A) (e : exn) (k : A -> Random.M B)
      (s : Random.state) :
  c = Raise e -> Random.bind (Random.lift c) k s = Raise e.
Proof. intros ->. reflexivity. Qed.

Lemma bind_random {B} (k : R -> Random.M B) (s : Random.state) :
  Random.bind Random.random k s
  = k (Random.draws s (Random.cursor s)) (advance s).
Proof. reflexivity. Qed.

Lemma bind_ok {A B} (c : Random.M A) (a : A) (k : A -> Random.M B)
      (s s' : Random.state) :
  c s = Ok (a, s') -> Random.bind c k s = k a s'.
Proof. intros E. unfold Random.bind. now rewrite E. Qed.

(** A loop over [range]: when the body returns at every index and keeps an
    invariant indexed by the number of turns done, so does the loop. *)
Lemma for_range_invariant {B} (P : B -> nat -> Prop)
      (body : B -> Z -> Random.M B) :
  (forall st n s, P st n ->
     exists st' s', body st (Z.of_nat n) s = Ok (st', s') /\ P st' (S n)) ->
  forall (turns a : nat) st s, P st a ->
    exists st' s',
      Random.for_ (map (fun k => 0 + Z.of_nat k) (seq a turns)) body st s
      = Ok (st', s')
      /\ P st' (a + turns)%nat.
Proof.
  intros Hbody. induction turns as [| turns IH]; intros a st s HP.
  - exists st, s. split; [reflexivity |]. now rewrite Nat.add_0_r.
  - destruct (Hbody st a s HP) as (st1 & s1 & E1 & HP1).
    destruct (IH (S a) st1 s1 HP1) as (st2 & s2 & E2 & HP2).
    exists st2, s2. split.
    + cbn [seq map Random.for_]. rewrite Z.add_0_l.
      rewrite (bind_ok _ _ _ _ _ E1). exact E2.
    + now rewrite <- Nat.add_succ_comm.
Qed.

End RandomFacts.

(** Run the first statement of a computation with its known result. *)
Ltac run E :=
  first [ rewrite (bind_lift_ok _ _ _ _ E)
        | rewrite (bind_lift_raise _ _ _ _ E)
        | rewrite (bind_ok _ _ _ _ _ E) ].

(** ** [generate_golden_melody] *)

Section Melody.

Import MusicTheory.

Lemma range2_length (a b : Z) : length (Py.range2 a b) = Z.to_nat (b - a).
Proof. unfold Py.range2. now rewrite length_map, length_seq. Qed.

Lemma range_length (n : Z) : length (Py.range n) = Z.to_nat n.
Proof. unfold Py.range. rewrite range2_length. f_equal. lia. Qed.

Lemma fib_loop_shape (l : list Z) :
  forall (t : list Z),
  exists t',
    fold_left
      (fun fib i =>
         fib ++ [nth (Z.to_nat (i - 1)) fib 0 + nth (Z.to_nat (i - 2)) fib 0])
      l (1 :: t) = 1 :: t'
    /\ length t' = (length t + length l)%nat.
Proof.
  induction l as [| i l IH]; intros t.
  - exists t. split; [reflexivity |]. simpl. lia.
  - cbn [fold_left].
    set (x := nth (Z.to_nat (i - 1)) (1 :: t) 0 + nth (Z.to_nat (i - 2)) (1 :: t) 0).
    change ((1 :: t) ++ [x]) with (1 :: (t ++ [x])).
    destruct (IH (t ++ [x])) as (t' & E & Hlen).
    exists t'. split; [exact E |]. rewrite Hlen, length_app. simpl. lia.
Qed.

(** For [n >= 1] the sequence has [n] terms and starts with 1. *)
Lemma fibonacci_sequence_shape (n : Z) :
  1 <= n ->
  exists t, fibonacci_sequence n = 1 :: t /\ Py.len (fibonacci_sequence n) = n.
Proof.
  intros Hn. unfold fibonacci_sequence.
  destruct (n <=? 0) eqn:E0; [lia |].
  destruct (n =? 1) eqn:E1.
  { exists []. split; [reflexivity |]. unfold Py.len. simpl. lia. }
  destruct (n =? 2) eqn:E2.
  { exists [1]. split; [reflexivity |]. unfold Py.len. simpl. lia. }
  destruct (fib_loop_shape (Py.range2 2 n) [1]) as (t' & E & Hlen).
  rewrite E. exists t'. split; [reflexivity |].
  unfold Py.len. simpl length. rewrite Hlen, range2_length. simpl. lia.
Qed.

Lemma fibonacci_sequence_empty (n : Z) : n <= 0 -> fibonacci_sequence n = [].
Proof. intros Hn. unfold fibonacci_sequence. destruct (n <=? 0) eqn:E; [reflexivity | lia]. Qed.

Section Loop.

(** The loop runs with a scale that is not empty and with a Fibonacci
    sequence that starts with 1. *)
Variables scale_notes fib_tail : list Z.
Hypothesis scale_nonempty : scale_notes <> [].

(** What one turn of the melody loop appends. *)
Lemma melody_step_ok (melody : list note) (i : Z) (s : Random.state) :
  exists base d v s',
    melody_step scale_notes (1 :: fib_tail) melody i s
    = Ok (melody ++ [(clip 21 108 (base + octave_shift i), d, clip 32 127 v)], s')
    /\ In base scale_notes.
Proof.
  unfold melody_step.
  set (fib_seq := 1 :: fib_tail).
  assert (Hlen : 0 < Py.len fib_seq) by (unfold Py.len, fib_seq; simpl; lia).
  destruct (mod_ok i _ Hlen) as (k & Ek & Hk). run Ek.
  destruct (index_ok fib_seq k Hk) as (f & Ef & _). run Ef.
  assert (Em : Py.max_ fib_seq = Ok (fold_left Z.max fib_tail 1)) by reflexivity.
  run Em.
  assert (Hmax : fold_left Z.max fib_tail 1 <> 0).
  { pose proof (fold_max_ge fib_tail 1). lia. }
  run (truediv_ok (IZR f) _ (not_0_IZR _ Hmax)).
  rewrite bind_random.
  assert (Hsl : 0 < Py.len scale_notes).
  { destruct scale_notes; [congruence |]. unfold Py.len. simpl. lia. }
  match goal with
  | |- context [Py.mod_ ?a (Py.len scale_notes)] =>
      destruct (mod_ok a _ Hsl) as (j & Ej & Hj)
  end.
  run Ej.
  destruct (index_ok scale_notes j Hj) as (base & Eb & Hb). run Eb.
  match goal with
  | |- context [Py.index golden_durations ?a] =>
      destruct (index_ok golden_durations a) as (d & Ed & _)
  end.
  { apply (int_fmod_range _ 4). lia. }
  run Ed.
  eexists base, d, _, _. split; [reflexivity | exact Hb].
Qed.

Lemma melody_loop (turns : nat) (s : Random.state) :
  exists melody s',
    Random.for_ (Py.range (Z.of_nat turns))
                (melody_step scale_notes (1 :: fib_tail)) [] s
    = Ok (melody, s')
    /\ length melody = turns
    /\ forall (k : nat) (n : note),
         melody !! k = Some n -> note_at scale_notes (Z.of_nat k) n.
Proof.
  destruct (for_range_invariant
              (fun (m : list note) (n : nat) =>
                 length m = n
                 /\ forall (k : nat) (x : note),
                      m !! k = Some x -> note_at scale_notes (Z.of_nat k) x)
              (melody_step scale_notes (1 :: fib_tail))) with
    (turns := turns) (a := 0%nat) (st := @nil note) (s := s)
    as (m' & s' & E & Hl & Hr).
  - intros st n s0 [Hn Hf].
    destruct (melody_step_ok st (Z.of_nat n) s0)
      as (base & d & v & s1 & E & Hb).
    eexists _, _. split; [exact E |]. split.
    + rewrite length_app. simpl. lia.
    + intros k x Hk. apply lookup_app_Some in Hk.
      destruct Hk as [Hk | [Hge Hk]]; [now apply Hf |].
      rewrite Hn in Hge, Hk.
      destruct (k - n)%nat as [| m] eqn:Ekn; [| now destruct m].
      simpl in Hk. injection Hk as <-.
      replace k with n by lia. split.
      * exists base. split; [exact Hb | reflexivity].
      * unfold velocity, clip. simpl. lia.
  - split; [reflexivity |]. intros k x Hk. discriminate.
  - exists m', s'. split; [| split; assumption].
    unfold Py.range, Py.range2. rewrite Z.sub_0_r, Nat2Z.id. exact E.
Qed.

End Loop.

Lemma note_at_in_range (scale_notes : list Z) (i : Z) (n : note) :
  note_at scale_notes i n -> in_range n.
Proof.
  intros [(base & _ & Hp) Hv]. split; [| exact Hv].
  rewrite Hp. unfold clip. lia.
Qed.

(** For a non-empty scale and a length of at least 1 the generator returns
    [length] notes, the one at index [k] built as [note_at] says. *)
Lemma generate_golden_melody_notes
      (scale_notes : list Z) (length_ root_note : Z) (s : Random.state) :
  scale_notes <> [] -> 1 <= length_ ->
  exists melody s',
    generate_golden_melody scale_notes length_ root_note s = Ok (melody, s')
    /\ length melody = Z.to_nat length_
    /\ forall (k : nat) (n : note),
         melody !! k = Some n -> note_at scale_notes (Z.of_nat k) n.
Proof.
  intros Hscale Hlen. unfold generate_golden_melody.
  destruct (fibonacci_sequence_shape length_ Hlen) as (t & Efib & _).
  rewrite Efib.
  destruct (melody_loop scale_notes t Hscale (Z.to_nat length_) s)
    as (melody & s' & E & Hl & Hr).
  rewrite Z2Nat.id in E by lia.
  exists melody, s'. split; [exact E |]. split; assumption.
Qed.

Lemma generate_golden_melody_empty
      (scale_notes : list Z) (length_ root_note : Z) (s : Random.state) :
  length_ <= 0 ->
  generate_golden_melody scale_notes length_ root_note s = Ok ([], s).
Proof.
  intros Hlen. unfold generate_golden_melody, Py.range, Py.range2.
  replace (Z.to_nat (length_ - 0)) with 0%nat by lia. reflexivity.
Qed.

(** C5.  For a non-empty list of scale notes, any root note and a length
    of at least 1, [generate_golden_melody] returns exactly [length]
    notes, each with pitch in [21,108] and velocity in [32,127]; for a
    length of 0 or less it returns the empty melody and raises nothing. *)
Theorem generate_golden_melody_contract
        (scale_notes : list Z) (length_ root_note : Z) (s : Random.state) :
  (scale_notes <> [] -> 1 <= length_ ->
   exists melody s',
     generate_golden_melody scale_notes length_ root_note s = Ok (melody, s')
     /\ Py.len melody = length_
     /\ Forall in_range melody)
  /\ (length_ <= 0 ->
      generate_golden_melody scale_notes length_ root_note s = Ok ([], s)).
Proof.
  split.
  - intros Hscale Hlen.
    destruct (generate_golden_melody_notes scale_notes length_ root_note s
                Hscale Hlen) as (melody & s' & E & Hl & Hr).
    exists melody, s'. split; [exact E |]. split.
    + unfold Py.len. rewrite Hl. lia.
    + apply Forall_lookup. intros k n Hk.
      exact (note_at_in_range _ _ _ (Hr k n Hk)).
  - apply generate_golden_melody_empty.
Qed.

(** The contract on a three-note scale, for the lengths 3 and 0. *)
Lemma generate_golden_melody_contract_witness :
  (exists melody s',
      generate_golden_melody [60; 62; 64] 3 60 zero_draws = Ok (melody, s')
      /\ Py.len melody = 3
      /\ Forall in_range melody)
  /\ generate_golden_melody [60; 62; 64] 0 60 zero_draws = Ok ([], zero_draws).
Proof.
  split.
  - apply (proj1 (generate_golden_melody_contract [60; 62; 64] 3 60 zero_draws));
      [discriminate | lia].
  - apply (proj2 (generate_golden_melody_contract [60; 62; 64] 0 60 zero_draws)).
    lia.
Defined.

End Melody.

(** ** The octave shift *)

Section OctaveShift.

Import MusicTheory.

Lemma PI_bounds : (3 < PI < 3.15)%R.
Proof.
  split.
  - pose proof PI2_3_2. lra.
  - pose proof (PI_2_3_7_ineq 1) as [_ H].
    unfold sum_f_R0, tg_alt, PI_2_3_7_tg, Ratan_seq in H.
    simpl in H. lra.
Qed.

(** At index 2 the octave factor lies strictly between -1 and 0. *)
Lemma octave_factor_2 : (-1 < sin (IZR 2 * phi) * 2 < 0)%R.
Proof.
  pose proof PI_bounds as [Hpl Hph].
  pose proof phi_bounds as [Hl Hh].
  set (y := (IZR 2 * phi - PI)%R).
  assert (Hy : (0 < y < 1 / 2)%R) by (unfold y; simpl; lra).
  replace (IZR 2 * phi)%R with (y + PI)%R by (unfold y; ring).
  rewrite neg_sin.
  assert (H0 : (0 < sin y)%R) by (apply sin_gt_0; lra).
  assert (H1 : (sin y < y)%R) by (apply sin_lt_x; lra).
  lra.
Qed.

(** Counterexample to C3: at index 2 the shift in the code is 0, the
    floor formula gives -12. *)
Lemma octave_shift_not_floor :
  octave_shift 2 = 0
  /\ Py.floor (sin (IZR 2 * phi) * 2) * 12 = -12
  /\ octave_shift 2 <> Py.floor (sin (IZR 2 * phi) * 2) * 12.
Proof.
  pose proof octave_factor_2 as [Hlo Hhi].
  assert (E1 : octave_shift 2 = 0).
  { unfold octave_shift. rewrite (int_neg _ 0); [reflexivity | lra |].
    simpl. lra. }
  assert (E2 : Py.floor (sin (IZR 2 * phi) * 2) * 12 = -12).
  { unfold Py.floor. rewrite (Int_part_unique _ (-1)); [reflexivity |].
    simpl. lra. }
  split; [exact E1 |]. split; [exact E2 |]. rewrite E1, E2. lia.
Qed.

(** C3, amended.  The melody generator returns, and the pitch at every
    index [k] is a scale note plus the octave shift, clipped to [21,108];
    the octave shift is 12 times the octave factor truncated toward zero:
    12 times its floor when the factor is not negative or is an integer,
    and 12 times its floor plus 12 when it is negative and not an
    integer. *)
Theorem octave_shift_truncates
        (scale_notes : list Z) (length_ root_note : Z) (s : Random.state) :
  scale_notes <> [] -> 1 <= length_ ->
  exists melody s',
    generate_golden_melody scale_notes length_ root_note s = Ok (melody, s')
    /\ forall (k : nat) (n : note),
        melody !! k = Some n ->
        exists base,
          In base scale_notes
          /\ pitch n = clip 21 108 (base + octave_shift (Z.of_nat k))
          /\ octave_shift (Z.of_nat k)
             = (Py.floor (sin (IZR (Z.of_nat k) * phi) * 2)
                + above_floor (sin (IZR (Z.of_nat k) * phi) * 2)) * 12.
Proof.
  intros Hscale Hlen.
  destruct (generate_golden_melody_notes scale_notes length_ root_note s
              Hscale Hlen) as (melody & s' & E & _ & Hr).
  exists melody, s'. split; [exact E |].
  intros k n Hk. destruct (Hr k n Hk) as [(base & Hb & Hp) _].
  exists base. split; [exact Hb |]. split; [exact Hp |].
  unfold octave_shift. now rewrite int_floor.
Qed.

(** The statement on a three-note scale and a length of 3. *)
Lemma octave_shift_truncates_witness :
  exists melody s',
    generate_golden_melody [60; 62; 64] 3 60 zero_draws = Ok (melody, s')
    /\ forall (k : nat) (n : note),
        melody !! k = Some n ->
        exists base,
          In base [60; 62; 64]
          /\ pitch n = clip 21 108 (base + octave_shift (Z.of_nat k))
          /\ octave_shift (Z.of_nat k)
             = (Py.floor (sin (IZR (Z.of_nat k) * phi) * 2)
                + above_floor (sin (IZR (Z.of_nat k) * phi) * 2)) * 12.
Proof.
  apply (octave_shift_truncates [60; 62; 64] 3 60 zero_draws);
    [discriminate | lia].
Defined.

End OctaveShift.

(** ** [apply_golden_rhythm] *)

Section Rhythm.

Import MusicTheory.

Lemma index_nth {A} (l : list A) (j : Z) (d : A) :
  0 <= j < Py.len l -> Py.index l j = Ok (nth (Z.to_nat j) l d).
Proof.
  intros Hj. destruct (index_ok l j Hj) as (a & E & _). rewrite E. f_equal.
  unfold Py.index in E. unfold Py.len in Hj.
  destruct (j <? 0) eqn:E0; [lia |].
  destruct ((0 <=? j) && (j <? Z.of_nat (length l))); [| discriminate].
  destruct (nth_error l (Z.to_nat j)) as [a' |] eqn:E1; [| discriminate].
  injection E as <-. symmetry. now apply nth_error_nth.
Qed.

Lemma index_last {A} (l : list A) :
  l <> [] ->
  exists prev,
    Py.index l (-1) = Ok prev /\ l !! (length l - 1)%nat = Some prev.
Proof.
  intros Hl. unfold Py.index. change (-1 <? 0) with true. cbv iota.
  assert (Hn : (0 < length l)%nat) by (destruct l; [congruence | simpl; lia]).
  destruct ((0 <=? -1 + Z.of_nat (length l))
            && (-1 + Z.of_nat (length l) <? Z.of_nat (length l))) eqn:E.
  2:{ apply andb_false_iff in E. destruct E; lia. }
  replace (Z.to_nat (-1 + Z.of_nat (length l))) with (length l - 1)%nat by lia.
  destruct l as [| a0 l0] eqn:El; [congruence |]. rewrite <- El in *.
  rewrite (nth_error_nth' l a0) by lia.
  exists (nth (length l - 1) l a0). split; [reflexivity |].
  destruct (nth_lookup_or_length l (length l - 1) a0) as [H | H];
    [exact H | lia].
Qed.

Lemma setitem_last {A} (l : list A) (v : A) :
  l <> [] -> Py.setitem l (-1) v = Ok (<[(length l - 1)%nat := v]> l).
Proof.
  intros Hl. unfold Py.setitem. change (-1 <? 0) with true. cbv iota.
  assert (Hn : (0 < length l)%nat) by (destruct l; [congruence | simpl; lia]).
  destruct ((0 <=? -1 + Z.of_nat (length l))
            && (-1 + Z.of_nat (length l) <? Z.of_nat (length l))) eqn:E.
  2:{ apply andb_false_iff in E. destruct E; lia. }
  replace (Z.to_nat (-1 + Z.of_nat (length l))) with (length l - 1)%nat by lia.
  reflexivity.
Qed.

(** Writing at an index a value with the same image leaves the image of the
    list unchanged. *)
Lemma map_insert_same {A B} (f : A -> B) (l : list A) (k : nat) (x y : A) :
  l !! k = Some x -> f y = f x -> map f (<[k := y]> l) = map f l.
Proof.
  revert k. induction l as [| a l IH]; intros k Hk Hf; [reflexivity |].
  destruct k as [| k]; simpl in *.
  - injection Hk as ->. now rewrite Hf.
  - f_equal. now apply IH.
Qed.

(** The patterns of the catalog. *)
Lemma rhythm_patterns_shape (name : string) (pattern : list Z) :
  rhythm_patterns !! name = Some pattern ->
  pattern <> [] /\ Forall bit pattern.
Proof.
  intros H. apply elem_of_list_to_map_2 in H.
  repeat (apply elem_of_cons in H; destruct H as [H | H];
          [injection H as _ ->; split; [discriminate |];
           repeat constructor; unfold bit; lia |]).
  now apply elem_of_nil in H.
Qed.

Lemma pattern_of_shape (name : string) :
  pattern_of name <> [] /\ Forall bit (pattern_of name).
Proof.
  unfold pattern_of. destruct (rhythm_patterns !! name) as [p |] eqn:E.
  - exact (rhythm_patterns_shape name p E).
  - split; [discriminate |]. repeat constructor; unfold bit; lia.
Qed.

Lemma apply_golden_rhythm_unfold (melody : list note) (name : string) :
  apply_golden_rhythm melody name
  = Py.for_ (Py.enumerate melody) (rhythm_step (pattern_of name)) [].
Proof.
  unfold apply_golden_rhythm, pattern_of, Py.contains, Py.getitem.
  destruct (rhythm_patterns !! name) as [p |] eqn:E; simpl.
  - now rewrite E.
  - reflexivity.
Qed.

Section Pattern.

(** The loop runs with a pattern of the catalog: not empty, made of 0s and
    1s. *)
Variable pattern : list Z.
Hypothesis pattern_nonempty : pattern <> [].
Hypothesis pattern_bits : Forall bit pattern.

(** One turn of the rhythm loop: a note on a 1 of the pattern is appended
    with its own pitch and its accented velocity; a note on a 0 changes
    nothing but the duration of the last note emitted. *)
Lemma rhythm_step_ok (acc : list note) (i : Z) (n : note) :
  exists acc',
    rhythm_step pattern acc (i, n) = Ok acc'
    /\ if on_beat pattern i
       then exists d, acc' = acc ++ [(pitch n, d, accent i (velocity n))]
       else map pitch acc' = map pitch acc
            /\ map velocity acc' = map velocity acc
            /\ removelast (map duration acc') = removelast (map duration acc).
Proof.
  destruct n as [[p d] v]. unfold rhythm_step.
  assert (Hlen : 0 < Py.len pattern).
  { destruct pattern; [congruence |]. unfold Py.len. simpl. lia. }
  unfold Py.mod_ at 1. destruct (Py.len pattern =? 0) eqn:E0; [lia |].
  cbn [Py.bind].
  pose proof (Z.mod_pos_bound i _ Hlen) as Hk.
  rewrite (index_nth pattern _ 0 Hk). cbn [Py.bind].
  unfold on_beat.
  set (b := nth (Z.to_nat (i mod Py.len pattern)) pattern 0).
  assert (Hb : bit b).
  { pose proof pattern_bits as Hbits.
    rewrite Forall_forall in Hbits. apply Hbits. apply list_elem_of_In.
    apply nth_In. unfold Py.len in Hk |- *. lia. }
  destruct Hb as [-> | ->]; cbn [Z.eqb].
  - destruct acc as [| a acc]; cbn [Py.truthy].
    + exists []. repeat split; reflexivity.
    + set (l := a :: acc).
      assert (Hl : l <> []) by discriminate.
      destruct (index_last l Hl) as ([[pp pd] pv] & Ei & Hlk).
      rewrite Ei. cbn [Py.bind]. rewrite (setitem_last l _ Hl).
      eexists. split; [reflexivity |].
      split; [| split].
      * now apply (map_insert_same pitch l _ (pp, pd, pv)).
      * now apply (map_insert_same velocity l _ (pp, pd, pv)).
      * assert (Hk1 : (length l - 1 < length l)%nat) by (unfold l; simpl; lia).
        rewrite (insert_take_drop l _ _ Hk1).
        pose proof (take_drop_middle l _ _ Hlk) as Hl2.
        rewrite drop_ge in Hl2 |- * by lia.
        set (pre := take (length l - 1) l) in *.
        rewrite <- Hl2.
        rewrite !map_app. simpl map. now rewrite !removelast_last.
  - rewrite int_phi_2. unfold Py.mod_. cbn [Z.eqb Py.bind].
    eexists. split; [reflexivity |]. exists (Py.int (IZR d * (1 + 0.3 * sin (IZR i * phi)))).
    reflexivity.
Qed.

Lemma rhythm_loop (xs : list (Z * note)) :
  forall acc : list note,
  exists out,
    Py.for_ xs (rhythm_step pattern) acc = Ok out
    /\ map pitch out
       = map pitch acc
         ++ map (fun x => pitch x.2)
                (List.filter (fun x => on_beat pattern x.1) xs)
    /\ map velocity out
       = map velocity acc
         ++ map (fun x => accent x.1 (velocity x.2))
                (List.filter (fun x => on_beat pattern x.1) xs).
Proof.
  induction xs as [| [i n] xs IH]; intros acc.
  - exists acc. cbn. now rewrite !app_nil_r.
  - destruct (rhythm_step_ok acc i n) as (acc' & E & H).
    destruct (IH acc') as (out & Eo & Hp & Hv).
    exists out. cbn [Py.for_]. rewrite E. cbn [Py.bind].
    split; [exact Eo |].
    cbn [List.filter fst]. destruct (on_beat pattern i).
    + destruct H as (d & ->). rewrite Hp, Hv, !map_app. cbn [map snd fst].
      unfold pitch at 2, velocity at 2. cbn [fst snd].
      now rewrite <- !app_assoc.
    + destruct H as (H1 & H2 & _). now rewrite Hp, Hv, H1, H2.
Qed.

End Pattern.

Lemma enumerate_length {A} (l : list A) : length (Py.enumerate l) = length l.
Proof.
  unfold Py.enumerate. rewrite length_combine, range_length.
  unfold Py.len. lia.
Qed.

Lemma filter_length_le {A} (f : A -> bool) (l : list A) :
  (length (List.filter f l) <= length l)%nat.
Proof.
  induction l as [| a l IH]; simpl; [lia |]. destruct (f a); simpl; lia.
Qed.

Lemma filter_combine_length {A} (f : Z -> bool) (idxs : list Z) :
  forall l : list A,
    length idxs = length l ->
    length (List.filter (fun x => f x.1) (combine idxs l))
    = length (List.filter f idxs).
Proof.
  induction idxs as [| i idxs IH]; intros [| a l] Hl; simpl in *;
    try reflexivity; try discriminate.
  destruct (f i); simpl; rewrite IH by lia; reflexivity.
Qed.

Lemma kept_length (pattern : list Z) (melody : list note) :
  length (kept pattern melody)
  = length (List.filter (on_beat pattern) (Py.range (Py.len melody))).
Proof.
  unfold kept, Py.enumerate. apply filter_combine_length.
  rewrite range_length. unfold Py.len. lia.
Qed.

Lemma kept_notes (pattern : list Z) (melody : list note) (x : Z * note) :
  In x (kept pattern melody) -> In x.2 melody.
Proof.
  unfold kept, Py.enumerate. intros H. apply filter_In in H as [H _].
  destruct x as [i n]. now apply in_combine_r in H.
Qed.

Lemma apply_golden_rhythm_returns (melody : list note) (name : string) :
  exists out,
    apply_golden_rhythm melody name = Ok out
    /\ map pitch out
       = map (fun x => pitch x.2) (kept (pattern_of name) melody).
Proof.
  rewrite apply_golden_rhythm_unfold.
  destruct (pattern_of_shape name) as [Hne Hbits].
  destruct (rhythm_loop _ Hne Hbits (Py.enumerate melody) [])
    as (out & E & Hp & _).
  exists out. split; assumption.
Qed.

(** The pattern [straight] on eight equal notes keeps four of them. *)
Example straight_on_eight :
  exists out,
    apply_golden_rhythm (repeat (60, 480, 80) 8) "straight" = Ok out
    /\ length out = 4%nat.
Proof.
  destruct (apply_golden_rhythm_returns (repeat (60, 480, 80) 8) "straight")
    as (out & E & Hp).
  exists out. split; [exact E |].
  apply (f_equal (@length Z)) in Hp. rewrite !length_map in Hp.
  rewrite Hp, kept_length. reflexivity.
Qed.

(** C8.  For every input melody and every pattern name, known or not,
    [apply_golden_rhythm] returns a melody that is no longer than the
    input. *)
Theorem apply_golden_rhythm_length (melody : list note) (pattern_name : string) :
  exists out,
    apply_golden_rhythm melody pattern_name = Ok out
    /\ (length out <= length melody)%nat.
Proof.
  rewrite apply_golden_rhythm_unfold.
  destruct (pattern_of_shape pattern_name) as [Hne Hbits].
  destruct (rhythm_loop _ Hne Hbits (Py.enumerate melody) [])
    as (out & E & Hp & _).
  exists out. split; [exact E |].
  apply (f_equal (@length Z)) in Hp.
  rewrite length_map in Hp. simpl in Hp. rewrite length_map in Hp.
  rewrite Hp, <- (enumerate_length melody). apply filter_length_le.
Qed.

(** C10.  [apply_golden_rhythm] never changes a pitch.  The pitches of the
    output are the pitches of the input notes at the indices [i] with
    [pattern[i mod len(pattern)] = 1], in input order, and its velocities
    are the accented velocities of the same notes; a turn of the loop at an
    index where the pattern is not 1 leaves the pitches and the velocities
    of the notes emitted so far as they are, and all durations but the
    last. *)
Theorem apply_golden_rhythm_pitches (melody : list note) (pattern_name : string) :
  (exists out,
      apply_golden_rhythm melody pattern_name = Ok out
      /\ map pitch out
         = map (fun x => pitch x.2) (kept (pattern_of pattern_name) melody)
      /\ map velocity out
         = map (fun x => accent x.1 (velocity x.2))
               (kept (pattern_of pattern_name) melody))
  /\ forall (emitted : list note) (i : Z) (n : note),
      exists emitted',
        rhythm_step (pattern_of pattern_name) emitted (i, n) = Ok emitted'
        /\ if on_beat (pattern_of pattern_name) i
           then exists d,
               emitted' = emitted ++ [(pitch n, d, accent i (velocity n))]
           else map pitch emitted' = map pitch emitted
                /\ map velocity emitted' = map velocity emitted
                /\ removelast (map duration emitted')
                   = removelast (map duration emitted).
Proof.
  destruct (pattern_of_shape pattern_name) as [Hne Hbits]. split.
  - rewrite apply_golden_rhythm_unfold.
    destruct (rhythm_loop _ Hne Hbits (Py.enumerate melody) [])
      as (out & E & Hp & Hv).
    exists out. split; [exact E |]. split; assumption.
  - intros emitted i n. now apply rhythm_step_ok.
Qed.

End Rhythm.

(** ** [generate_golden_harmony] *)

Section Harmony.

Import MusicTheory.

(** One turn of the middle-voice loop returns and adds at most one note. *)
Lemma middle_step_ok (st : middle_state) (x : Z * note) :
  exists st',
    middle_step st x = Ok st'
    /\ (length (middle_voice st') <= S (length (middle_voice st)))%nat.
Proof.
  destruct x as [i [[p d] v]]. unfold middle_step.
  destruct (Rge_dec (IZR i) (current_pos st)).
  - destruct (index_ok [4; 7]
                (Py.int (Py.fmod (IZR i * phi) (IZR (Py.len [4; 7])))))
      as (interval & E & _).
    { apply (int_fmod_range _ 2). lia. }
    rewrite E. cbn [Py.bind]. eexists. split; [reflexivity |].
    cbn [middle_voice]. destruct (p + interval <=? 108).
    + rewrite length_app. simpl. lia.
    + lia.
  - exists st. split; [reflexivity | lia].
Qed.

Lemma middle_loop (xs : list (Z * note)) :
  forall st : middle_state,
  exists st',
    Py.for_ xs middle_step st = Ok st'
    /\ (length (middle_voice st')
        <= length (middle_voice st) + length xs)%nat.
Proof.
  induction xs as [| x xs IH]; intros st.
  - exists st. split; [reflexivity | lia].
  - destruct (middle_step_ok st x) as (st1 & E1 & H1).
    destruct (IH st1) as (st2 & E2 & H2).
    exists st2. cbn [Py.for_]. rewrite E1. cbn [Py.bind].
    split; [exact E2 |]. simpl length. lia.
Qed.

(** C7.  For every melody, [generate_golden_harmony] returns exactly two
    voices, the bass first and the middle voice second; the bass has one
    note for each melody note, and the middle voice is no longer than the
    melody. *)
Theorem generate_golden_harmony_voices
        (melody : list note) (scale_notes : list Z) :
  exists bass middle,
    generate_golden_harmony melody scale_notes = Ok [bass; middle]
    /\ bass = map bass_of melody
    /\ length bass = length melody
    /\ (length middle <= length melody)%nat.
Proof.
  unfold generate_golden_harmony.
  destruct (middle_loop (Py.enumerate melody)
              {| middle_voice := []; phi_step := phi; current_pos := 0 |})
    as (st & E & H).
  rewrite E. cbn [Py.bind].
  exists (map bass_of melody), (middle_voice st).
  split; [reflexivity |]. split; [reflexivity |].
  split; [apply length_map |].
  rewrite enumerate_length in H. simpl in H. exact H.
Qed.

End Harmony.

(** ** [analyze_golden_ratios] *)

Section Analysis.

Import MusicTheory.

Lemma max_ok (a : Z) (l : list Z) : Py.max_ (a :: l) = Ok (fold_left Z.max l a).
Proof. reflexivity. Qed.

Lemma min_ok (a : Z) (l : list Z) : Py.min_ (a :: l) = Ok (fold_left Z.min l a).
Proof. reflexivity. Qed.

Lemma share_bounds (count n : Z) :
  0 <= count <= n -> 0 < n -> (0 <= IZR count / IZR n * 100 <= 100)%R.
Proof.
  intros [Hc0 Hcn] Hn.
  apply IZR_le in Hc0, Hcn. apply IZR_lt in Hn.
  set (x := (IZR count / IZR n)%R).
  assert (Hx : (x * IZR n = IZR count)%R) by (unfold x; field; lra).
  assert (H0 : (0 <= x)%R).
  { unfold x. apply Rmult_le_pos; [exact Hc0 |].
    left. now apply Rinv_0_lt_compat. }
  assert (H1 : (x <= 1)%R) by nra.
  lra.
Qed.

(** The analysis of a melody of two notes or more: it returns, counts the
    notes, and reports a share of golden intervals between 0 and 100. *)
Lemma analyze_two_or_more (n1 n2 : note) (rest : list note) :
  exists analysis g,
    analyze_golden_ratios (n1 :: n2 :: rest) = Ok analysis
    /\ analysis !! "total_notes" = Some (PInt (Py.len (n1 :: n2 :: rest)))
    /\ analysis !! "golden_ratio_percentage" = Some (PFloat g)
    /\ (0 <= g <= 100)%R.
Proof.
  unfold analyze_golden_ratios. cbn [Py.truthy negb]. cbv zeta.
  cbn [map]. rewrite max_ok, min_ok. cbn [Py.bind].
  rewrite !truediv_ok by (apply len_nonzero; discriminate).
  cbn [Py.bind].
  unfold consecutive. cbn [tl combine map Py.truthy].
  rewrite ?truediv_ok by (apply len_nonzero; discriminate).
  rewrite max_ok. cbn [Py.bind].
  set (intervals := Z.abs (pitch n2 - pitch n1) :: _).
  set (count := Py.len (filter _ intervals)).
  assert (Hg : (0 <= IZR count / IZR (Py.len intervals) * 100 <= 100)%R).
  { apply share_bounds.
    - unfold count, Py.len. split; [lia |].
      apply inj_le. apply length_filter.
    - unfold Py.len, intervals. simpl. lia. }
  destruct (duration_ratios _) as [| r rs]; cbn [Py.truthy].
  - eexists _, _. split; [reflexivity |].
    split; [| split; [| exact Hg]].
    + now rewrite !lookup_insert_ne by discriminate.
    + apply lookup_insert_eq.
  - rewrite truediv_ok by (apply len_nonzero; discriminate).
    cbn [Py.bind]. eexists _, _. split; [reflexivity |].
    split; [| split; [| exact Hg]].
    + now rewrite !lookup_insert_ne by discriminate.
    + rewrite lookup_insert_ne by discriminate. apply lookup_insert_eq.
Qed.

(** C9.  The analysis of the empty melody is the empty record, without an
    error; the analysis of the single note (60, 480, 80) has
    [total_notes = 1] and [note_range = 0], and none of [avg_interval],
    [max_interval], [golden_ratio_percentage] and
    [phi_duration_percentage]. *)
Theorem analyze_golden_ratios_small :
  analyze_golden_ratios [] = Ok ∅
  /\ exists analysis,
      analyze_golden_ratios [(60, 480, 80)] = Ok analysis
      /\ analysis !! "total_notes" = Some (PInt 1)
      /\ analysis !! "note_range" = Some (PInt 0)
      /\ analysis !! "avg_interval" = None
      /\ analysis !! "max_interval" = None
      /\ analysis !! "golden_ratio_percentage" = None
      /\ analysis !! "phi_duration_percentage" = None
      /\ dom analysis
         = {["total_notes"; "note_range"; "avg_duration"; "avg_velocity"]}.
Proof.
  split; [reflexivity |].
  unfold analyze_golden_ratios. cbn [Py.truthy negb]. cbv zeta.
  cbn [map]. rewrite max_ok, min_ok. cbn [Py.bind].
  rewrite !truediv_ok by (apply len_nonzero; discriminate).
  cbn [Py.bind].
  unfold duration_ratios, consecutive.
  cbn [tl combine map flat_map Py.truthy Py.bind].
  eexists. split; [reflexivity |].
  repeat split; reflexivity.
Qed.

End Analysis.

(** ** [generate_complete_composition] *)

Section Composition.

Import MusicTheory.
Import AdvancedMidiGenerator.

Lemma total_notes_1_50 : total_notes 1 50 = 1.
Proof. vm_compute. reflexivity. Qed.

Lemma total_notes_10_120 : total_notes 10 120 = 40.
Proof. vm_compute. reflexivity. Qed.

Lemma total_notes_30_123 : total_notes 30 123 = 122.
Proof. vm_compute. reflexivity. Qed.

Lemma round_above_floor (x : R) : Py.floor x <= Py.round x <= Py.floor x + 1.
Proof.
  unfold Py.round, Py.floor.
  destruct (Rlt_dec _ _); [lia |].
  destruct (Rlt_dec _ _); [lia |].
  destruct (Z.even _); lia.
Qed.

Lemma round_integer (q : Z) : Py.round (IZR q) = q.
Proof.
  unfold Py.round. rewrite (Int_part_unique (IZR q) q) by lra.
  destruct (Rlt_dec _ (1 / 2)) as [_ | H]; [reflexivity | lra].
Qed.

(** The exact product of the duration and the note density. *)
Lemma product_quotient (duration_seconds tempo_bpm : Z) :
  (IZR duration_seconds * (IZR tempo_bpm / 60 * 2)
   = IZR (duration_seconds * tempo_bpm) / 30)%R.
Proof. rewrite mult_IZR. field. Qed.

Lemma floor_product (duration_seconds tempo_bpm : Z) :
  Py.floor (IZR duration_seconds * (IZR tempo_bpm / 60 * 2))
  = duration_seconds * tempo_bpm / 30.
Proof.
  rewrite product_quotient. unfold Py.floor.
  set (k := duration_seconds * tempo_bpm).
  pose proof (Z.div_mod k 30 ltac:(lia)) as Hdm.
  pose proof (Z.mod_pos_bound k 30 ltac:(lia)) as [Hr0 Hr1].
  apply Int_part_unique.
  set (q := k / 30) in *. set (r := k mod 30) in *.
  assert (E : (IZR k / 30 = IZR q + IZR r / 30)%R).
  { rewrite Hdm, plus_IZR, mult_IZR. simpl. field. }
  rewrite E. apply IZR_le in Hr0. apply IZR_lt in Hr1. simpl in Hr1. lra.
Qed.

(** Counterexample to C1.  One second at 50 beats per minute asks for 1
    note, and the product 1 * 50/60 * 2 rounds to 2.  Thirty seconds at 123
    beats per minute ask for 122 notes, and the product is 123: the
    binary64 product is below 123 and is truncated. *)
Lemma total_notes_not_rounded :
  total_notes 1 50 = 1
  /\ Py.round (IZR 1 * IZR 50 / 60 * 2) = 2
  /\ total_notes 1 50 <> Py.round (IZR 1 * IZR 50 / 60 * 2)
  /\ total_notes 30 123 = 122
  /\ Py.round (IZR 30 * IZR 123 / 60 * 2) = 123.
Proof.
  assert (E2 : Py.round (IZR 1 * IZR 50 / 60 * 2) = 2).
  { unfold Py.round.
    rewrite (Int_part_unique _ 1) by (simpl; lra).
    destruct (Rlt_dec _ (1 / 2)) as [H | _]; [simpl in H; lra |].
    destruct (Rlt_dec (1 / 2) _) as [_ | H]; [reflexivity | simpl in H; lra]. }
  assert (E3 : Py.round (IZR 30 * IZR 123 / 60 * 2) = 123).
  { replace (IZR 30 * IZR 123 / 60 * 2)%R with (IZR 123) by (simpl; lra).
    apply round_integer. }
  rewrite total_notes_1_50, total_notes_30_123, E2, E3. repeat split; lia.
Qed.

Lemma scales_nonempty (name : string) (scale : list Z) :
  scales !! name = Some scale -> scale <> [].
Proof.
  intros H. apply elem_of_list_to_map_2 in H.
  repeat (apply elem_of_cons in H; destruct H as [H | H];
          [injection H as _ ->; discriminate |]).
  now apply elem_of_nil in H.
Qed.

Lemma classical_template :
  Py.getitem style_templates "classical" = Ok classical.
Proof. reflexivity. Qed.

(** The generator returns for every scale of the catalog and every
    length. *)
Lemma generate_golden_melody_returns
      (scale_notes : list Z) (length_ root_note : Z) (s : Random.state) :
  scale_notes <> [] ->
  exists melody s',
    generate_golden_melody scale_notes length_ root_note s = Ok (melody, s')
    /\ length melody = Z.to_nat length_
    /\ forall (k : nat) (n : note),
         melody !! k = Some n -> note_at scale_notes (Z.of_nat k) n.
Proof.
  intros Hscale. destruct (Z_le_gt_dec length_ 0) as [Hle | Hgt].
  - exists [], s. split; [now apply generate_golden_melody_empty |].
    split; [simpl; lia |]. intros k n Hk. discriminate.
  - apply generate_golden_melody_notes; [exact Hscale | lia].
Qed.

(** The stages of [compose_melody] for a scale of the catalog. *)
Lemma compose_melody_stages (style : string) (duration_seconds tempo_bpm : Z)
      (scale_name : string) (root_note : Z) (s : Random.state)
      (scale : list Z) :
  scales !! scale_name = Some scale ->
  let scale_notes := map (fun interval => root_note + interval) scale in
  let count := total_notes duration_seconds tempo_bpm in
  let pattern_name := rhythm (Py.get style_templates style classical) in
  exists structure_points s1 raw s2 melody,
    golden_ratio_subdivisions count s = Ok (structure_points, s1)
    /\ generate_golden_melody scale_notes count root_note s1 = Ok (raw, s2)
    /\ length raw = Z.to_nat count
    /\ (forall (k : nat) (n : note),
          raw !! k = Some n -> note_at scale_notes (Z.of_nat k) n)
    /\ apply_golden_rhythm raw pattern_name = Ok melody
    /\ map pitch melody
       = map (fun x => pitch x.2) (kept (pattern_of pattern_name) raw)
    /\ compose_melody style duration_seconds tempo_bpm scale_name root_note s
       = Ok (structure_points, scale_notes, melody, s2).
Proof.
  intros Hscale scale_notes count pattern_name.
  assert (Hne : scale_notes <> []).
  { pose proof (scales_nonempty _ _ Hscale) as Hs. unfold scale_notes.
    destruct scale; [congruence | discriminate]. }
  assert (Hsub : exists sp s1, golden_ratio_subdivisions count s = Ok (sp, s1)).
  { unfold golden_ratio_subdivisions.
    destruct (subdivide_sum 3 count [] s) as (out & s1 & E & _).
    exists (Py.sorted_reverse out), s1.
    now rewrite (bind_ok _ _ _ _ _ E). }
  destruct Hsub as (sp & s1 & Esub).
  destruct (generate_golden_melody_returns scale_notes count root_note s1 Hne)
    as (raw & s2 & Eraw & Hlen & Hnotes).
  destruct (apply_golden_rhythm_returns raw pattern_name) as (melody & Er & Hp).
  exists sp, s1, raw, s2, melody.
  repeat (split; [assumption |]).
  unfold compose_melody. fold count.
  rewrite (bind_ok _ _ _ _ _ Esub).
  assert (Eg : Py.getitem scales scale_name = Ok scale).
  { unfold Py.getitem. now rewrite Hscale. }
  rewrite (bind_lift_ok _ _ _ _ Eg). fold scale_notes.
  rewrite (bind_ok _ _ _ _ _ Eraw).
  rewrite (bind_lift_ok _ _ _ _ classical_template).
  fold pattern_name.
  rewrite (bind_lift_ok _ _ _ _ Er). reflexivity.
Qed.

(** C1, amended.  For every scale of the catalog, the length handed to the
    melody generator is [int(duration_seconds * (tempo_bpm / 60 * 2))]: the
    product is computed in binary64 and truncated, not rounded to the
    nearest integer.  For a duration and a tempo that are not negative (and
    a product below 2^48) the count is the floor of the exact product or
    one below it, one below only where the exact product is an integer; so
    it is the rounded exact product or one below it. *)
Theorem total_notes_truncates
        (style : string) (duration_seconds tempo_bpm : Z)
        (scale_name : string) (root_note : Z) (s : Random.state)
        (scale : list Z) :
  scales !! scale_name = Some scale ->
  let count := total_notes duration_seconds tempo_bpm in
  let product := (IZR duration_seconds * (IZR tempo_bpm / 60 * 2))%R in
  let scale_notes := map (fun interval => root_note + interval) scale in
  (exists structure_points s1 raw s2 melody,
      golden_ratio_subdivisions count s = Ok (structure_points, s1)
      /\ generate_golden_melody scale_notes count root_note s1 = Ok (raw, s2)
      /\ length raw = Z.to_nat count
      /\ apply_golden_rhythm raw (rhythm (template_of style)) = Ok melody
      /\ compose_melody style duration_seconds tempo_bpm scale_name root_note s
         = Ok (structure_points, scale_notes, melody, s2))
  /\ (0 <= duration_seconds -> 0 <= tempo_bpm ->
      duration_seconds * tempo_bpm < 2 ^ 48 ->
      Py.floor product - 1 <= count <= Py.floor product
      /\ ((duration_seconds * tempo_bpm) mod 30 <> 0 -> count = Py.floor product)
      /\ Py.round product - 1 <= count <= Py.round product).
Proof.
  intros Hscale count product scale_notes. split.
  - destruct (compose_melody_stages style duration_seconds tempo_bpm
                scale_name root_note s scale Hscale)
      as (sp & s1 & raw & s2 & melody & Esub & Eraw & Hlen & _ & Er & _ & Ec).
    exists sp, s1, raw, s2, melody. repeat split; assumption.
  - intros Hd Ht Hk.
    destruct (total_notes_quotient duration_seconds tempo_bpm Hd Ht Hk)
      as [Hexact Hnear].
    fold count in Hexact, Hnear.
    pose proof (floor_product duration_seconds tempo_bpm) as Hf.
    fold product in Hf. rewrite Hf.
    split; [exact Hnear |]. split; [exact Hexact |].
    destruct (Z.eq_dec ((duration_seconds * tempo_bpm) mod 30) 0) as [E | E].
    + assert (Ep : product = IZR (duration_seconds * tempo_bpm / 30)).
      { unfold product. rewrite product_quotient.
        pose proof (Z.div_mod (duration_seconds * tempo_bpm) 30 ltac:(lia))
          as Hdm.
        rewrite E, Z.add_0_r in Hdm. rewrite Hdm at 1.
        rewrite mult_IZR. simpl. field. }
      rewrite Ep, round_integer. exact Hnear.
    + pose proof (round_above_floor product) as Hr. rewrite Hf in Hr.
      specialize (Hexact E). lia.
Qed.

(** The statement for thirty seconds at 123 beats per minute on the scale
    [major]: the count is 122, one below the exact product. *)
Lemma total_notes_truncates_witness :
  Py.floor (IZR 30 * (IZR 123 / 60 * 2)) - 1
  <= total_notes 30 123
  <= Py.floor (IZR 30 * (IZR 123 / 60 * 2))
  /\ ((30 * 123) mod 30 <> 0 ->
      total_notes 30 123 = Py.floor (IZR 30 * (IZR 123 / 60 * 2)))
  /\ Py.round (IZR 30 * (IZR 123 / 60 * 2)) - 1
     <= total_notes 30 123
     <= Py.round (IZR 30 * (IZR 123 / 60 * 2)).
Proof.
  apply (proj2 (total_notes_truncates "classical" 30 123 "major" 60 zero_draws
                  [0; 2; 4; 5; 7; 9; 11] eq_refl)); lia.
Defined.

(** C2.  For a scale name that is not a key of the catalog,
    [generate_complete_composition] raises [KeyError]: there is no fall
    back to a default scale. *)
Theorem unknown_scale_raises (style : string) (duration_seconds tempo_bpm : Z)
        (scale_name : string) (root_note : Z) (s : Random.state) :
  scales !! scale_name = None ->
  generate_complete_composition style duration_seconds tempo_bpm
                                scale_name root_note s
  = Raise (KeyError scale_name).
Proof.
  intros Hscale. unfold generate_complete_composition, compose_melody.
  unfold Random.bind at 1. unfold Random.bind at 1.
  unfold golden_ratio_subdivisions.
  destruct (subdivide_sum 3 (total_notes duration_seconds tempo_bpm) [] s)
    as (out & s1 & E & _).
  rewrite (bind_ok _ _ _ _ _ E). unfold Random.ret.
  assert (Eg : Py.getitem scales scale_name = Raise (KeyError scale_name)).
  { unfold Py.getitem. now rewrite Hscale. }
  now rewrite (bind_lift_raise _ _ _ _ Eg).
Qed.

(** The name [aeolian] is not in the catalog. *)
Lemma unknown_scale_raises_witness :
  generate_complete_composition "classical" 10 120 "aeolian" 60 zero_draws
  = Raise (KeyError "aeolian").
Proof.
  apply (unknown_scale_raises "classical" 10 120 "aeolian" 60 zero_draws).
  reflexivity.
Defined.

End Composition.

(** * Further properties of the code *)

(** ** [fibonacci_sequence] and [golden_ratio_subdivisions] *)

Section GoldenMathMore.

Import MusicTheory.

(** The loop of [fibonacci_sequence] keeps the recurrence: entered with
    [2 + a] terms that satisfy it, it leaves with [2 + a + turns] terms
    that do. *)
Lemma fib_loop_recurrence (turns : nat) :
  forall (a : nat) (fib : list Z),
    length fib = (2 + a)%nat ->
    (forall k : nat, (2 <= k < length fib)%nat ->
       nth k fib 0 = nth (k - 1) fib 0 + nth (k - 2) fib 0) ->
    let out :=
      fold_left
        (fun fib i =>
           fib ++ [nth (Z.to_nat (i - 1)) fib 0 + nth (Z.to_nat (i - 2)) fib 0])
        (map (fun k => 2 + Z.of_nat k) (seq a turns)) fib in
    length out = (2 + a + turns)%nat
    /\ (forall k : nat, (2 <= k < length out)%nat ->
          nth k out 0 = nth (k - 1) out 0 + nth (k - 2) out 0)
    /\ nth 0 out 0 = nth 0 fib 0 /\ nth 1 out 0 = nth 1 fib 0.
Proof.
  induction turns as [| turns IH]; intros a fib Hlen Hrec; cbn [seq map fold_left].
  - repeat split; [lia | exact Hrec].
  - set (x := nth (Z.to_nat (2 + Z.of_nat a - 1)) fib 0
              + nth (Z.to_nat (2 + Z.of_nat a - 2)) fib 0).
    destruct (IH (S a) (fib ++ [x])) as (H1 & H2 & H3 & H4).
    + rewrite length_app. simpl. lia.
    + intros k Hk. rewrite length_app in Hk. simpl in Hk.
      destruct (Nat.eq_dec k (length fib)) as [-> | Hne].
      * rewrite nth_middle.
        rewrite !app_nth1 by lia. unfold x. f_equal; f_equal; lia.
      * rewrite !app_nth1 by lia. apply Hrec. lia.
    + split; [lia |]. split; [exact H2 |].
      rewrite H3, H4. rewrite !app_nth1 by lia. split; reflexivity.
Qed.

(** X1.  [fibonacci_sequence(n)] is empty for [n <= 0]; for [n >= 1] it has
    [n] terms, the first two (when present) are 1, and every later term is
    the sum of the two before it. *)
Theorem fibonacci_sequence_recurrence (n : Z) :
  (n <= 0 -> fibonacci_sequence n = [])
  /\ (1 <= n ->
      Py.len (fibonacci_sequence n) = n
      /\ (forall k : nat, (Z.of_nat k < n) -> (k < 2)%nat ->
            nth k (fibonacci_sequence n) 0 = 1)
      /\ (forall k : nat, (2 <= k)%nat -> Z.of_nat k < n ->
            nth k (fibonacci_sequence n) 0
            = nth (k - 1) (fibonacci_sequence n) 0
              + nth (k - 2) (fibonacci_sequence n) 0)).
Proof.
  split; [apply fibonacci_sequence_empty |].
  intros Hn. unfold fibonacci_sequence.
  destruct (n <=? 0) eqn:E0; [lia |].
  destruct (n =? 1) eqn:E1.
  { split; [unfold Py.len; simpl; lia |]. split.
    - intros [| k] Hk Hk2; [reflexivity | lia].
    - intros k Hk Hkn. lia. }
  destruct (n =? 2) eqn:E2.
  { split; [unfold Py.len; simpl; lia |]. split.
    - intros [| [| k]] Hk Hk2; [reflexivity | reflexivity | lia].
    - intros k Hk Hkn. lia. }
  unfold Py.range2.
  destruct (fib_loop_recurrence (Z.to_nat (n - 2)) 0 [1; 1])
    as (H1 & H2 & H3 & H4).
  { reflexivity. }
  { intros k Hk. simpl in Hk. lia. }
  split; [unfold Py.len; rewrite H1; lia |]. split.
  - intros [| [| k]] Hk Hk2; [exact H3 | exact H4 | lia].
  - intros k Hk Hkn. apply H2. rewrite H1. lia.
Qed.

(** The recurrence at [n = 6], index 5. *)
Lemma fibonacci_sequence_recurrence_witness :
  nth 5 (fibonacci_sequence 6) 0
  = nth 4 (fibonacci_sequence 6) 0 + nth 3 (fibonacci_sequence 6) 0.
Proof.
  destruct (fibonacci_sequence_recurrence 6) as [_ H].
  destruct H as (_ & _ & H); [lia |]. apply (H 5%nat); lia.
Defined.

Lemma insert_desc_perm (x : Z) (l : list Z) :
  Permutation (Py.insert_desc x l) (x :: l).
Proof.
  induction l as [| y l IH]; simpl; [reflexivity |].
  destruct (y <? x); [reflexivity |].
  rewrite IH. apply perm_swap.
Qed.

Lemma sorted_reverse_perm (l : list Z) : Permutation (Py.sorted_reverse l) l.
Proof.
  induction l as [| a l IH]; simpl; [reflexivity |].
  rewrite insert_desc_perm. now constructor.
Qed.

Lemma insert_desc_descending (x : Z) (l : list Z) :
  descending l -> descending (Py.insert_desc x l).
Proof.
  unfold descending. induction l as [| y l IH]; intros Hs; simpl.
  - repeat constructor.
  - destruct (y <? x) eqn:E.
    + constructor; [exact Hs |]. constructor. lia.
    + apply Sorted_inv in Hs as [Hs Hhd].
      constructor; [now apply IH |].
      destruct l as [| z l]; simpl.
      * constructor. lia.
      * destruct (z <? x) eqn:E'.
        -- constructor. lia.
        -- constructor. now apply HdRel_inv in Hhd.
Qed.

Lemma sorted_reverse_descending (l : list Z) : descending (Py.sorted_reverse l).
Proof.
  induction l as [| a l IH]; simpl.
  - constructor.
  - now apply insert_desc_descending.
Qed.

(** What [subdivide] appends: between 1 and [2 ^ levels] leaves, all
    positive when the length is, after at most [2 ^ levels - 1] draws. *)
Lemma subdivide_leaves (levels : nat) :
  forall (length_ : Z) (subdivisions : list Z) (s : Random.state),
  exists leaves s',
    subdivide levels length_ subdivisions s = Ok (subdivisions ++ leaves, s')
    /\ (1 <= length leaves <= 2 ^ levels)%nat
    /\ (1 <= length_ -> Forall (fun x => 1 <= x) leaves)
    /\ Random.draws s' = Random.draws s
    /\ (Random.cursor s <= Random.cursor s'
        <= Random.cursor s + (2 ^ levels - 1))%nat.
Proof.
  induction levels as [| levels IH]; intros length_ subdivisions s.
  - exists [length_], s. split; [reflexivity |]. simpl.
    split; [lia |]. split; [| split; [reflexivity | lia]].
    intros H. now repeat constructor.
  - cbn [subdivide]. destruct (length_ <? 4) eqn:E4.
    + exists [length_], s. split; [reflexivity |].
      pose proof (Nat.pow_nonzero 2 (S levels) ltac:(lia)).
      simpl length. split; [lia |]. split; [| split; [reflexivity | lia]].
      intros H'. now repeat constructor.
    + set (major := Py.int (IZR length_ * phi_inverse)).
      assert (Hparts : 2 <= major /\ 2 <= length_ - major).
      { pose proof phi_inverse_bounds as [Hlo Hhi].
        assert (Hl : (4 <= IZR length_)%R) by (apply IZR_le; lia).
        assert (Hm : major = Int_part (IZR length_ * phi_inverse)).
        { apply int_nonneg; [nra | apply Int_part_bounds]. }
        pose proof (Int_part_bounds (IZR length_ * phi_inverse)) as [Hb1 Hb2].
        rewrite <- Hm in Hb1, Hb2. split.
        - assert (H1 : (1 < IZR major)%R) by nra.
          apply lt_IZR in H1. lia.
        - assert (H1 : (IZR major + 1 < IZR length_)%R) by nra.
          rewrite <- plus_IZR in H1. apply lt_IZR in H1. lia. }
      unfold Random.bind at 1. unfold Random.random at 1.
      pose proof (Nat.pow_nonzero 2 levels ltac:(lia)) as Hpow.
      assert (Hpow2 : (2 ^ S levels = 2 * 2 ^ levels)%nat) by (simpl; lia).
      destruct (Rlt_dec _ 0.6).
      * destruct (IH major subdivisions
                     {| Random.draws := Random.draws s;
                        Random.cursor := S (Random.cursor s) |})
          as (l1 & s1 & E1 & Hc1 & Hp1 & Hd1 & Hk1).
        rewrite (bind_ok _ _ _ _ _ E1).
        destruct (IH (length_ - major) (subdivisions ++ l1) s1)
          as (l2 & s2 & E2 & Hc2 & Hp2 & Hd2 & Hk2).
        exists (l1 ++ l2), s2. rewrite app_assoc. split; [exact E2 |].
        rewrite length_app. simpl in Hd1, Hk1. split; [lia |].
        split; [| split; [congruence | lia]].
        intros _. apply Forall_app. split; [apply Hp1 | apply Hp2]; lia.
      * eexists [major; length_ - major], _. split; [reflexivity |].
        simpl length. simpl Random.cursor. simpl Random.draws.
        split; [lia |]. split; [| split; [reflexivity | lia]].
        intros _. repeat constructor; lia.
Qed.

(** X2.  For every total length and every sequence of draws,
    [golden_ratio_subdivisions] returns between 1 and 8 leaves, in
    descending order, after reading at most 7 draws. *)
Theorem golden_ratio_subdivisions_shape (total_length : Z) (s : Random.state) :
  exists leaves s',
    golden_ratio_subdivisions total_length s = Ok (leaves, s')
    /\ (1 <= length leaves <= 8)%nat
    /\ descending leaves
    /\ Random.draws s' = Random.draws s
    /\ (Random.cursor s <= Random.cursor s' <= Random.cursor s + 7)%nat.
Proof.
  unfold golden_ratio_subdivisions.
  destruct (subdivide_leaves 3 total_length [] s)
    as (leaves & s' & E & Hc & _ & Hd & Hk).
  rewrite (bind_ok _ _ _ _ _ E). simpl app.
  exists (Py.sorted_reverse leaves), s'. split; [reflexivity |].
  rewrite (Permutation_length (sorted_reverse_perm leaves)).
  simpl in Hc, Hk. split; [lia |].
  split; [apply sorted_reverse_descending |]. split; [exact Hd | lia].
Qed.

(** X3.  For a positive total length every leaf is positive; a total
    length below 4 is returned as the single leaf, and no draw is read. *)
Theorem golden_ratio_subdivisions_leaves (total_length : Z) (s : Random.state) :
  (1 <= total_length ->
   exists leaves s',
     golden_ratio_subdivisions total_length s = Ok (leaves, s')
     /\ Forall (fun x => 1 <= x) leaves)
  /\ (total_length < 4 ->
      golden_ratio_subdivisions total_length s = Ok ([total_length], s)).
Proof.
  split.
  - intros Hpos. unfold golden_ratio_subdivisions.
    destruct (subdivide_leaves 3 total_length [] s)
      as (leaves & s' & E & _ & Hp & _).
    rewrite (bind_ok _ _ _ _ _ E). simpl app.
    exists (Py.sorted_reverse leaves), s'. split; [reflexivity |].
    rewrite Forall_forall. intros x Hx.
    rewrite (sorted_reverse_perm leaves) in Hx.
    specialize (Hp Hpos). rewrite Forall_forall in Hp. now apply Hp.
  - intros Hsmall. unfold golden_ratio_subdivisions. cbn [subdivide].
    destruct (total_length <? 4) eqn:E; [reflexivity | lia].
Qed.

(** The statement at the total lengths 40 and 3. *)
Lemma golden_ratio_subdivisions_leaves_witness :
  (exists leaves s',
      golden_ratio_subdivisions 40 zero_draws = Ok (leaves, s')
      /\ Forall (fun x => 1 <= x) leaves)
  /\ golden_ratio_subdivisions 3 zero_draws = Ok ([3], zero_draws).
Proof.
  split.
  - apply (proj1 (golden_ratio_subdivisions_leaves 40 zero_draws)). lia.
  - apply (proj2 (golden_ratio_subdivisions_leaves 3 zero_draws)). lia.
Defined.

End GoldenMathMore.

(** ** More on [generate_golden_melody] *)

Section MelodyMore.

Import MusicTheory.

(** One turn of the melody loop in full: one draw is read, and the
    duration is one of the four golden durations. *)
Lemma melody_step_result (scale_notes fib_tail : list Z)
      (melody : list note) (i : Z) (s : Random.state) :
  scale_notes <> [] ->
  exists n,
    melody_step scale_notes (1 :: fib_tail) melody i s
    = Ok (melody ++ [n], advance s)
    /\ In (duration n) golden_durations.
Proof.
  intros Hscale. unfold melody_step.
  set (fib_seq := 1 :: fib_tail).
  assert (Hlen : 0 < Py.len fib_seq) by (unfold Py.len, fib_seq; simpl; lia).
  destruct (mod_ok i _ Hlen) as (k & Ek & Hk). run Ek.
  destruct (index_ok fib_seq k Hk) as (f & Ef & _). run Ef.
  assert (Em : Py.max_ fib_seq = Ok (fold_left Z.max fib_tail 1)) by reflexivity.
  run Em.
  assert (Hmax : fold_left Z.max fib_tail 1 <> 0).
  { pose proof (fold_max_ge fib_tail 1). lia. }
  run (truediv_ok (IZR f) _ (not_0_IZR _ Hmax)).
  rewrite bind_random.
  assert (Hsl : 0 < Py.len scale_notes).
  { destruct scale_notes; [congruence |]. unfold Py.len. simpl. lia. }
  match goal with
  | |- context [Py.mod_ ?a (Py.len scale_notes)] =>
      destruct (mod_ok a _ Hsl) as (j & Ej & Hj)
  end.
  run Ej.
  destruct (index_ok scale_notes j Hj) as (base & Eb & Hb). run Eb.
  match goal with
  | |- context [Py.index golden_durations ?a] =>
      destruct (index_ok golden_durations a) as (d & Ed & Hd)
  end.
  { apply (int_fmod_range _ 4). lia. }
  run Ed.
  eexists. split; [reflexivity | exact Hd].
Qed.

Lemma melody_loop_result (scale_notes fib_tail : list Z) (turns : nat) :
  scale_notes <> [] ->
  forall (a : nat) (acc : list note) (s : Random.state),
    Forall (fun n => In (duration n) golden_durations) acc ->
    exists melody,
      Random.for_ (map (fun k => 0 + Z.of_nat k) (seq a turns))
                  (melody_step scale_notes (1 :: fib_tail)) acc s
      = Ok (melody,
            {| Random.draws := Random.draws s;
               Random.cursor := (Random.cursor s + turns)%nat |})
      /\ Forall (fun n => In (duration n) golden_durations) melody.
Proof.
  intros Hscale. induction turns as [| turns IH]; intros a acc s Hacc.
  - exists acc. split; [| exact Hacc]. cbn. destruct s. simpl.
    now rewrite Nat.add_0_r.
  - destruct (melody_step_result scale_notes fib_tail acc
                (0 + Z.of_nat a) s Hscale) as (x & Ex & Hx).
    destruct (IH (S a) (acc ++ [x]) (advance s)) as (melody & E & Hm).
    { apply Forall_app. split; [exact Hacc |].
      constructor; [exact Hx | constructor]. }
    exists melody. split; [| exact Hm].
    cbn [seq map Random.for_]. rewrite (bind_ok _ _ _ _ _ Ex), E.
    simpl. do 3 f_equal. lia.
Qed.

(** X4.  For a non-empty scale and a length of at least 1,
    [generate_golden_melody] reads exactly [length] draws, one for each
    note, and every duration it emits is one of the four golden durations
    296, 480, 776 and 1256. *)
Theorem generate_golden_melody_durations
        (scale_notes : list Z) (length_ root_note : Z) (s : Random.state) :
  scale_notes <> [] -> 1 <= length_ ->
  exists melody,
    generate_golden_melody scale_notes length_ root_note s
    = Ok (melody,
          {| Random.draws := Random.draws s;
             Random.cursor := (Random.cursor s + Z.to_nat length_)%nat |})
    /\ Forall (fun n => In (duration n) [296; 480; 776; 1256]) melody.
Proof.
  intros Hscale Hlen. unfold generate_golden_melody.
  destruct (fibonacci_sequence_shape length_ Hlen) as (t & Efib & _).
  rewrite Efib.
  destruct (melody_loop_result scale_notes t (Z.to_nat length_) Hscale
              0%nat [] s) as (melody & E & Hd); [constructor |].
  exists melody. split.
  - unfold Py.range, Py.range2. rewrite Z.sub_0_r. exact E.
  - now rewrite <- golden_durations_values.
Qed.

(** The statement on a three-note scale and a length of 3. *)
Lemma generate_golden_melody_durations_witness :
  exists melody,
    generate_golden_melody [60; 62; 64] 3 60 zero_draws
    = Ok (melody,
          {| Random.draws := Random.draws zero_draws;
             Random.cursor := (Random.cursor zero_draws + Z.to_nat 3)%nat |})
    /\ Forall (fun n => In (duration n) [296; 480; 776; 1256]) melody.
Proof.
  apply (generate_golden_melody_durations [60; 62; 64] 3 60 zero_draws);
    [discriminate | lia].
Defined.

(** X5.  With an empty list of scale notes and a length of at least 1,
    [generate_golden_melody] raises [ZeroDivisionError], at the first note:
    the note index is reduced modulo the length of the scale. *)
Theorem generate_golden_melody_empty_scale
        (length_ root_note : Z) (s : Random.state) :
  1 <= length_ ->
  generate_golden_melody [] length_ root_note s = Raise ZeroDivisionError.
Proof.
  intros Hlen. unfold generate_golden_melody.
  destruct (fibonacci_sequence_shape length_ Hlen) as (t & Efib & _).
  rewrite Efib. unfold Py.range, Py.range2. rewrite Z.sub_0_r.
  destruct (Z.to_nat length_) as [| m] eqn:Em; [lia |].
  cbn [seq map Random.for_]. unfold Random.bind at 1. unfold melody_step.
  set (fib_seq := 1 :: t).
  assert (Hl : 0 < Py.len fib_seq) by (unfold Py.len, fib_seq; simpl; lia).
  destruct (mod_ok (0 + Z.of_nat 0) _ Hl) as (k & Ek & Hk). run Ek.
  destruct (index_ok fib_seq k Hk) as (f & Ef & _). run Ef.
  assert (Emx : Py.max_ fib_seq = Ok (fold_left Z.max t 1)) by reflexivity.
  run Emx.
  assert (Hmax : fold_left Z.max t 1 <> 0).
  { pose proof (fold_max_ge t 1). lia. }
  run (truediv_ok (IZR f) _ (not_0_IZR _ Hmax)).
  rewrite bind_random. reflexivity.
Qed.

(** The statement at a length of 4. *)
Lemma generate_golden_melody_empty_scale_witness :
  generate_golden_melody [] 4 60 zero_draws = Raise ZeroDivisionError.
Proof.
  apply (generate_golden_melody_empty_scale 4 60 zero_draws). lia.
Defined.

End MelodyMore.

(** ** More on [generate_golden_harmony] *)

Section HarmonyMore.

Import MusicTheory.

Lemma int_between (x : R) (a b : Z) :
  0 <= a -> (IZR a <= x < IZR b + 1)%R -> a <= Py.int x <= b.
Proof.
  intros Ha [Hlo Hhi].
  assert (H0 : (0 <= x)%R) by (apply IZR_le in Ha; lra).
  pose proof (Int_part_bounds x) as [Hl Hh].
  rewrite (int_nonneg x (Int_part x) H0 (conj Hl Hh)). split.
  - assert (Hm : (IZR a < IZR (Int_part x) + 1)%R) by lra.
    rewrite <- plus_IZR in Hm. apply lt_IZR in Hm. lia.
  - assert (Hm : (IZR (Int_part x) < IZR b + 1)%R) by lra.
    rewrite <- plus_IZR in Hm. apply lt_IZR in Hm. lia.
Qed.

Lemma phi_inverse_eq : phi_inverse = (phi - 1)%R.
Proof.
  unfold phi_inverse. pose proof phi_bounds. pose proof phi_squared as Hsq.
  simpl in Hsq. apply (Rmult_eq_reg_r phi); [| lra].
  replace (1 / phi * phi)%R with 1%R by (field; lra). nra.
Qed.

(** The loop takes the index when it has reached the cursor. *)
Lemma middle_take (st : middle_state) (i : Z) (n : note) :
  (current_pos st <= IZR i)%R ->
  middle_step st (i, n)
  = Ok {| middle_voice := middle_voice st ++ middle_candidate (i, n);
          phi_step := phi_step st * phi_inverse;
          current_pos := current_pos st + phi_step st |}.
Proof.
  intros Hpos. destruct n as [[p d] v]. unfold middle_step, middle_candidate.
  destruct (Rge_dec (IZR i) (current_pos st)) as [_ | Hc]; [| lra].
  rewrite (index_nth [4; 7] _ 0) by (apply (int_fmod_range _ 2); lia).
  cbn [Py.bind]. change (IZR (Py.len [4; 7])) with 2%R.
  destruct (_ <=? 108); [reflexivity |]. now rewrite app_nil_r.
Qed.

Lemma middle_skip (st : middle_state) (i : Z) (n : note) :
  (IZR i < current_pos st)%R -> middle_step st (i, n) = Ok st.
Proof.
  intros Hpos. destruct n as [[p d] v]. unfold middle_step.
  destruct (Rge_dec (IZR i) (current_pos st)) as [Hc | _]; [lra | reflexivity].
Qed.

(** From index 2 on the step is at most 1 and the cursor is never ahead
    of the index, so every index is taken. *)
Lemma middle_tail (l : list note) :
  forall (a : nat) (st : middle_state),
    (0 < phi_step st <= 1)%R ->
    (current_pos st <= IZR (Z.of_nat a))%R ->
    exists st',
      Py.for_ (combine (map (fun k => 0 + Z.of_nat k) (seq a (length l))) l)
              middle_step st
      = Ok st'
      /\ middle_voice st'
         = middle_voice st
           ++ flat_map middle_candidate
                (combine (map (fun k => 0 + Z.of_nat k) (seq a (length l))) l).
Proof.
  pose proof phi_inverse_bounds as [Hlo Hhi].
  induction l as [| n l IH]; intros a st Hstep Hpos.
  - exists st. split; [reflexivity |]. simpl. now rewrite app_nil_r.
  - cbn [length seq map combine Py.for_ flat_map]. rewrite Z.add_0_l.
    rewrite (middle_take st _ n Hpos). cbn [Py.bind].
    destruct (IH (S a)
                {| middle_voice := middle_voice st ++ middle_candidate (Z.of_nat a, n);
                   phi_step := phi_step st * phi_inverse;
                   current_pos := current_pos st + phi_step st |})
      as (st' & E & Hv).
    + cbn [phi_step]. split; nra.
    + cbn [current_pos]. rewrite Nat2Z.inj_succ, succ_IZR. lra.
    + exists st'. split; [exact E |]. rewrite Hv. cbn [middle_voice].
      now rewrite <- app_assoc.
Qed.

(** X6.  The middle voice of [generate_golden_harmony] is not sparse: the
    loop takes every melody index except index 1.  The voice is made of
    the candidates of all melody notes but the second, in order, each a
    third or a fifth above its melody note and left out only when that is
    above 108. *)
Theorem generate_golden_harmony_middle
        (melody : list note) (scale_notes : list Z) :
  generate_golden_harmony melody scale_notes
  = Ok [ map bass_of melody;
         flat_map middle_candidate
                  (List.filter (fun x => negb (x.1 =? 1))
                               (Py.enumerate melody)) ].
Proof.
  unfold generate_golden_harmony.
  destruct melody as [| n0 [| n1 rest]]; [reflexivity | |].
  - change (Py.enumerate [n0]) with [(0, n0)]. cbn [Py.for_].
    rewrite middle_take by (simpl; lra). cbn [Py.bind middle_voice].
    cbn [List.filter fst Z.eqb negb flat_map]. now rewrite app_nil_r.
  - assert (Ee : Py.enumerate (n0 :: n1 :: rest)
                 = (0, n0) :: (1, n1)
                     :: combine (map (fun k => 0 + Z.of_nat k)
                                     (seq 2 (length rest))) rest).
    { unfold Py.enumerate, Py.range, Py.range2, Py.len.
      rewrite Z.sub_0_r, Nat2Z.id. reflexivity. }
    rewrite Ee. cbn [Py.for_].
    rewrite middle_take by (simpl; lra). cbn [Py.bind].
    pose proof phi_bounds as [Hpl Hph].
    rewrite middle_skip by (cbn [current_pos phi_step]; simpl; lra).
    cbn [Py.bind current_pos phi_step middle_voice].
    match goal with
    | |- context [Py.for_ _ middle_step ?st] =>
        destruct (middle_tail rest 2 st) as (st' & E & Hv)
    end.
    + cbn [phi_step]. rewrite phi_inverse_eq. pose proof phi_squared as Hsq.
      simpl in Hsq.
      replace (phi * (phi - 1))%R with (phi * (phi * 1) - phi)%R by ring.
      rewrite Hsq. lra.
    + cbn [current_pos]. change (IZR (Z.of_nat 2)) with 2%R. lra.
    + rewrite E. cbn [Py.bind]. rewrite Hv. cbn [middle_voice app].
      assert (Hall : forall (l : list note) (b : nat), (2 <= b)%nat ->
                List.filter (fun x : Z * note => negb (x.1 =? 1))
                  (combine (map (fun k => 0 + Z.of_nat k) (seq b (length l))) l)
                = combine (map (fun k => 0 + Z.of_nat k) (seq b (length l))) l).
      { induction l as [| x l IH]; intros b Hb; [reflexivity |].
        cbn [length seq map combine List.filter fst].
        destruct (0 + Z.of_nat b =? 1) eqn:Eb; [lia |].
        cbn [negb]. f_equal. apply IH. lia. }
      cbn [List.filter fst].
      change (negb (0 =? 1)) with true. change (negb (1 =? 1)) with false.
      cbv iota. rewrite Hall by lia. reflexivity.
Qed.

Lemma bass_of_eq (p d v : Z) :
  bass_of (p, d, v) = (Z.max 21 (p - 23), d * 2, soften v).
Proof.
  unfold bass_of. rewrite int_phi_7.
  change (11 mod 12) with 11. do 2 f_equal. lia.
Qed.

Lemma middle_candidate_bounds (i : Z) (n : note) :
  in_range n ->
  Forall (fun m => 25 <= pitch m <= 108 /\ 25 <= velocity m <= 101
                   /\ duration m = duration n
                   /\ (pitch m = pitch n + 4 \/ pitch m = pitch n + 7))
         (middle_candidate (i, n)).
Proof.
  destruct n as [[p d] v]. unfold in_range, pitch, velocity, duration.
  cbn [fst snd]. intros [Hp Hv]. unfold middle_candidate.
  set (j := Py.int _).
  assert (Hi : nth (Z.to_nat j) [4; 7] 0 = 4 \/ nth (Z.to_nat j) [4; 7] 0 = 7).
  { pose proof (int_fmod_range (IZR i * phi) 2 ltac:(lia)) as Hj.
    change (IZR 2) with 2%R in Hj. fold j in Hj.
    assert (Hc : j = 0 \/ j = 1) by lia.
    destruct Hc as [-> | ->]; [now left | now right]. }
  destruct (_ <=? 108) eqn:E; [| constructor].
  constructor; [| constructor]. cbn [fst snd].
  apply Z.leb_le in E. destruct Hv as [Hv1 Hv2].
  apply IZR_le in Hv1, Hv2.
  split; [lia |]. split; [| split; [reflexivity | lia]].
  apply int_between; [lia |]. simpl. lra.
Qed.

Lemma middle_loop_bounds (xs : list (Z * note)) :
  Forall (fun x => in_range x.2) xs ->
  forall st : middle_state,
    Forall (fun m => 25 <= pitch m <= 108 /\ 25 <= velocity m <= 101)
           (middle_voice st) ->
    exists st',
      Py.for_ xs middle_step st = Ok st'
      /\ Forall (fun m => 25 <= pitch m <= 108 /\ 25 <= velocity m <= 101)
                (middle_voice st').
Proof.
  induction xs as [| [i n] xs IH]; intros Hxs st Hst.
  - exists st. split; [reflexivity | exact Hst].
  - apply Forall_cons in Hxs as [Hn Hxs]. cbn [snd] in Hn. cbn [Py.for_].
    destruct (Rle_dec (current_pos st) (IZR i)) as [Hle | Hgt].
    + rewrite (middle_take st i n Hle). cbn [Py.bind].
      apply IH; [exact Hxs |]. cbn [middle_voice].
      apply Forall_app. split; [exact Hst |].
      eapply Forall_impl; [apply (middle_candidate_bounds i n Hn) |].
      intros m (H1 & H2 & _). split; assumption.
    + rewrite (middle_skip st i n) by lra. cbn [Py.bind]. now apply IH.
Qed.

(** The voices of a melody within the bounds of the generator. *)
Lemma generate_golden_harmony_in_range
      (melody : list note) (scale_notes : list Z) :
  Forall in_range melody ->
  exists middle,
    generate_golden_harmony melody scale_notes
    = Ok [map bass_of melody; middle]
    /\ Forall (fun m => 25 <= pitch m <= 108 /\ 25 <= velocity m <= 101)
              middle.
Proof.
  intros Hm. unfold generate_golden_harmony.
  destruct (middle_loop_bounds (Py.enumerate melody)) with
    (st := {| middle_voice := []; phi_step := phi; current_pos := 0 |})
    as (st & E & Hv).
  { apply Forall_forall. intros [i n] Hx. apply list_elem_of_In in Hx.
    unfold Py.enumerate in Hx. apply in_combine_r in Hx. cbn [snd].
    rewrite Forall_forall in Hm. apply Hm. now apply list_elem_of_In. }
  { constructor. }
  rewrite E. cbn [Py.bind]. exists (middle_voice st).
  split; [reflexivity | exact Hv].
Qed.

(** X7.  For a melody whose notes have pitch in [21,108] and velocity in
    [32,127], [generate_golden_harmony] gives a bass line with pitch in
    [21,85], velocity in [22,88] and twice the melody durations, and a
    middle voice with pitch in [25,108] and velocity in [25,101]. *)
Theorem generate_golden_harmony_bounds
        (melody : list note) (scale_notes : list Z) :
  Forall in_range melody ->
  exists bass middle,
    generate_golden_harmony melody scale_notes = Ok [bass; middle]
    /\ Forall (fun m => 21 <= pitch m <= 85 /\ 22 <= velocity m <= 88) bass
    /\ map duration bass = map (fun n => duration n * 2) melody
    /\ Forall (fun m => 25 <= pitch m <= 108 /\ 25 <= velocity m <= 101)
              middle.
Proof.
  intros Hm. unfold generate_golden_harmony.
  destruct (middle_loop_bounds (Py.enumerate melody)) with
    (st := {| middle_voice := []; phi_step := phi; current_pos := 0 |})
    as (st & E & Hv).
  { apply Forall_forall. intros [i n] Hx. apply list_elem_of_In in Hx.
    unfold Py.enumerate in Hx. apply in_combine_r in Hx. cbn [snd].
    rewrite Forall_forall in Hm. apply Hm. now apply list_elem_of_In. }
  { constructor. }
  rewrite E. cbn [Py.bind]. exists (map bass_of melody), (middle_voice st).
  split; [reflexivity |]. split; [| split; [| exact Hv]].
  - apply Forall_map. eapply Forall_impl; [exact Hm |].
    intros [[p d] v] [Hp Hvel]. unfold pitch, velocity in *. cbn [fst snd] in *.
    rewrite bass_of_eq. cbn [fst snd]. split; [lia |].
    now apply soften_melody.
  - rewrite map_map. apply map_ext. intros [[p d] v].
    now rewrite bass_of_eq.
Qed.

(** The statement on a one-note melody. *)
Lemma generate_golden_harmony_bounds_witness :
  exists bass middle,
    generate_golden_harmony [(60, 480, 80)] [60; 62; 64] = Ok [bass; middle]
    /\ Forall (fun m => 21 <= pitch m <= 85 /\ 22 <= velocity m <= 88) bass
    /\ map duration bass = map (fun n => duration n * 2) [(60, 480, 80)]
    /\ Forall (fun m => 25 <= pitch m <= 108 /\ 25 <= velocity m <= 101)
              middle.
Proof.
  apply (generate_golden_harmony_bounds [(60, 480, 80)] [60; 62; 64]).
  repeat constructor; unfold pitch, velocity; simpl; lia.
Defined.

(** X24.  The velocity of a bass note is [int(velocity * 0.7)] with the
    product rounded to binary64: for a melody velocity from 0 to 127 it is
    the integer quotient of [7 * velocity] by 10, but for the velocity 90,
    where the product is below 63 and the bass velocity is 62. *)
Theorem bass_velocity_values (p d v : Z) :
  0 <= v <= 127 ->
  velocity (bass_of (p, d, v)) = if v =? 90 then 62 else 7 * v / 10.
Proof.
  intros Hv. rewrite bass_of_eq. unfold velocity. cbn [snd].
  now apply soften_values.
Qed.

(** The statement for the velocities 90 and 80. *)
Lemma bass_velocity_values_witness :
  velocity (bass_of (60, 480, 90)) = 62 /\ velocity (bass_of (60, 480, 80)) = 56.
Proof.
  split.
  - apply (bass_velocity_values 60 480 90). lia.
  - apply (bass_velocity_values 60 480 80). lia.
Defined.

End HarmonyMore.

(** ** More on [apply_golden_rhythm] *)

Section RhythmMore.

Import MusicTheory.

(** Every pattern the shaper can work with starts with a 1. *)
Lemma pattern_of_head (name : string) : on_beat (pattern_of name) 0 = true.
Proof.
  unfold pattern_of. destruct (rhythm_patterns !! name) as [p |] eqn:E;
    [| reflexivity].
  apply elem_of_list_to_map_2 in E.
  repeat (apply elem_of_cons in E; destruct E as [E | E];
          [injection E as _ ->; reflexivity |]).
  now apply elem_of_nil in E.
Qed.

Lemma enumerate_cons {A} (a : A) (l : list A) :
  Py.enumerate (a :: l)
  = (0, a) :: combine (map (fun k => 0 + Z.of_nat k) (seq 1 (length l))) l.
Proof.
  unfold Py.enumerate, Py.range, Py.range2, Py.len.
  rewrite Z.sub_0_r, Nat2Z.id. reflexivity.
Qed.

(** X8.  A melody that is not empty is never shaped to nothing: for every
    pattern name the output starts with a note that has the pitch of the
    first input note and its velocity raised by the accent of index 0,
    [min(127, int(velocity * 1.2))]. *)
Theorem apply_golden_rhythm_first
        (n : note) (rest : list note) (pattern_name : string) :
  exists first out,
    apply_golden_rhythm (n :: rest) pattern_name = Ok (first :: out)
    /\ pitch first = pitch n
    /\ velocity first = Z.min 127 (Py.int (IZR (velocity n) * 1.2)).
Proof.
  rewrite apply_golden_rhythm_unfold.
  destruct (pattern_of_shape pattern_name) as [Hne Hbits].
  destruct (rhythm_loop _ Hne Hbits (Py.enumerate (n :: rest)) [])
    as (out & E & Hp & Hv).
  rewrite enumerate_cons in Hp, Hv. cbn [List.filter fst] in Hp, Hv.
  rewrite pattern_of_head in Hp, Hv. cbn [map app fst snd] in Hp, Hv.
  destruct out as [| first out]; [discriminate |].
  exists first, out. split; [exact E |].
  cbn [map] in Hp, Hv. injection Hp as Hp _. injection Hv as Hv _.
  split; [exact Hp |]. rewrite Hv. reflexivity.
Qed.

Section Pattern.

Variable pattern : list Z.
Hypothesis pattern_nonempty : pattern <> [].
Hypothesis pattern_bits : Forall bit pattern.

Lemma rhythm_step_playable (acc : list note) (i : Z) (n : note) :
  Forall playable acc -> playable n ->
  exists acc',
    rhythm_step pattern acc (i, n) = Ok acc' /\ Forall playable acc'.
Proof.
  intros Hacc Hn. destruct n as [[p d] v]. unfold rhythm_step.
  destruct Hn as [Hd Hv]. unfold duration, velocity in Hd, Hv.
  cbn [fst snd] in Hd, Hv.
  assert (Hlen : 0 < Py.len pattern).
  { destruct pattern; [congruence |]. unfold Py.len. simpl. lia. }
  unfold Py.mod_ at 1. destruct (Py.len pattern =? 0) eqn:E0; [lia |].
  cbn [Py.bind].
  pose proof (Z.mod_pos_bound i _ Hlen) as Hk.
  rewrite (index_nth pattern _ 0 Hk). cbn [Py.bind].
  destruct (nth _ pattern 0 =? 0).
  - destruct acc as [| a acc]; cbn [Py.truthy].
    + exists []. split; [reflexivity | constructor].
    + set (l := a :: acc) in *.
      assert (Hl : l <> []) by discriminate.
      destruct (index_last l Hl) as ([[pp pd] pv] & Ei & Hlk).
      rewrite Ei. cbn [Py.bind]. rewrite (setitem_last l _ Hl).
      eexists. split; [reflexivity |].
      apply Forall_insert; [exact Hacc |].
      rewrite Forall_lookup in Hacc. specialize (Hacc _ _ Hlk).
      destruct Hacc as [Hpd Hpv]. unfold playable, duration, velocity in *.
      cbn [fst snd] in *. split; [| exact Hpv].
      pose proof (Z.div_pos d 2 Hd ltac:(lia)). lia.
  - rewrite int_phi_2. unfold Py.mod_. cbn [Z.eqb Py.bind].
    eexists. split; [reflexivity |].
    apply Forall_app. split; [exact Hacc |]. constructor; [| constructor].
    unfold playable, duration, velocity. cbn [fst snd]. split.
    + pose proof (SIN_bound (IZR i * phi)) as [Hs1 Hs2].
      apply IZR_le in Hd.
      apply (int_between _ 0 (Py.int (IZR d * (1 + 0.3 * sin (IZR i * phi)))));
        [lia |].
      split; [simpl; nra |].
      rewrite (int_nonneg _ (Int_part (IZR d * (1 + 0.3 * sin (IZR i * phi)))))
        by (try apply Int_part_bounds; nra).
      apply Int_part_bounds.
    + destruct (i mod 3 =? 0); [| exact Hv].
      destruct Hv as [Hv1 Hv2]. apply IZR_le in Hv1.
      assert (0 <= Py.int (IZR v * 1.2)).
      { apply (int_between _ 0 (Py.int (IZR v * 1.2))); [lia |].
        split; [simpl; lra |].
        rewrite (int_nonneg _ (Int_part (IZR v * 1.2)))
          by (try apply Int_part_bounds; simpl in *; lra).
        apply Int_part_bounds. }
      lia.
Qed.

Lemma rhythm_loop_playable (xs : list (Z * note)) :
  Forall (fun x => playable x.2) xs ->
  forall acc : list note,
    Forall playable acc ->
    exists out,
      Py.for_ xs (rhythm_step pattern) acc = Ok out /\ Forall playable out.
Proof.
  induction xs as [| [i n] xs IH]; intros Hxs acc Hacc.
  - exists acc. split; [reflexivity | exact Hacc].
  - apply Forall_cons in Hxs as [Hn Hxs]. cbn [snd] in Hn.
    destruct (rhythm_step_playable acc i n Hacc Hn) as (acc' & E & Hacc').
    cbn [Py.for_]. rewrite E. cbn [Py.bind]. now apply IH.
Qed.

Lemma rhythm_step_in_range (acc : list note) (i : Z) (n : note) :
  Forall in_range acc -> in_range n ->
  exists acc',
    rhythm_step pattern acc (i, n) = Ok acc' /\ Forall in_range acc'.
Proof.
  intros Hacc Hn. destruct n as [[p d] v]. unfold rhythm_step.
  destruct Hn as [Hp Hv]. unfold pitch, velocity in Hp, Hv.
  cbn [fst snd] in Hp, Hv.
  assert (Hlen : 0 < Py.len pattern).
  { destruct pattern; [congruence |]. unfold Py.len. simpl. lia. }
  unfold Py.mod_ at 1. destruct (Py.len pattern =? 0) eqn:E0; [lia |].
  cbn [Py.bind].
  pose proof (Z.mod_pos_bound i _ Hlen) as Hk.
  rewrite (index_nth pattern _ 0 Hk). cbn [Py.bind].
  destruct (nth _ pattern 0 =? 0).
  - destruct acc as [| a acc]; cbn [Py.truthy].
    + exists []. split; [reflexivity | constructor].
    + set (l := a :: acc) in *.
      assert (Hl : l <> []) by discriminate.
      destruct (index_last l Hl) as ([[pp pd] pv] & Ei & Hlk).
      rewrite Ei. cbn [Py.bind]. rewrite (setitem_last l _ Hl).
      eexists. split; [reflexivity |].
      apply Forall_insert; [exact Hacc |].
      rewrite Forall_lookup in Hacc. exact (Hacc _ _ Hlk).
  - rewrite int_phi_2. unfold Py.mod_. cbn [Z.eqb Py.bind].
    eexists. split; [reflexivity |].
    apply Forall_app. split; [exact Hacc |]. constructor; [| constructor].
    unfold in_range, pitch, velocity. cbn [fst snd]. split; [exact Hp |].
    destruct (i mod 3 =? 0); [| exact Hv].
    destruct Hv as [Hv1 Hv2]. pose proof (IZR_le _ _ Hv1) as Hr.
    assert (v <= Py.int (IZR v * 1.2)).
    { apply (int_between _ v (Py.int (IZR v * 1.2))); [lia |].
      split; [simpl in *; lra |].
      rewrite (int_nonneg _ (Int_part (IZR v * 1.2)))
        by (try apply Int_part_bounds; simpl in *; lra).
      apply Int_part_bounds. }
    lia.
Qed.

Lemma rhythm_loop_in_range (xs : list (Z * note)) :
  Forall (fun x => in_range x.2) xs ->
  forall acc : list note,
    Forall in_range acc ->
    exists out,
      Py.for_ xs (rhythm_step pattern) acc = Ok out /\ Forall in_range out.
Proof.
  induction xs as [| [i n] xs IH]; intros Hxs acc Hacc.
  - exists acc. split; [reflexivity | exact Hacc].
  - apply Forall_cons in Hxs as [Hn Hxs]. cbn [snd] in Hn.
    destruct (rhythm_step_in_range acc i n Hacc Hn) as (acc' & E & Hacc').
    cbn [Py.for_]. rewrite E. cbn [Py.bind]. now apply IH.
Qed.

End Pattern.

(** The shaper keeps the notes of a melody within the bounds of the
    generator. *)
Lemma apply_golden_rhythm_in_range (melody : list note) (pattern_name : string) :
  Forall in_range melody ->
  exists out,
    apply_golden_rhythm melody pattern_name = Ok out /\ Forall in_range out.
Proof.
  intros Hm. rewrite apply_golden_rhythm_unfold.
  destruct (pattern_of_shape pattern_name) as [Hne Hbits].
  apply (rhythm_loop_in_range _ Hne Hbits); [| constructor].
  apply Forall_forall. intros [i n] Hx. apply list_elem_of_In in Hx.
  unfold Py.enumerate in Hx. apply in_combine_r in Hx. cbn [snd].
  rewrite Forall_forall in Hm. apply Hm. now apply list_elem_of_In.
Qed.

(** X9.  The shaper keeps notes playable: when every input note has a
    duration that is not negative and a velocity from 0 to 127, so has
    every output note, for every pattern name. *)
Theorem apply_golden_rhythm_playable
        (melody : list note) (pattern_name : string) :
  Forall playable melody ->
  exists out,
    apply_golden_rhythm melody pattern_name = Ok out /\ Forall playable out.
Proof.
  intros Hm. rewrite apply_golden_rhythm_unfold.
  destruct (pattern_of_shape pattern_name) as [Hne Hbits].
  apply (rhythm_loop_playable _ Hne Hbits); [| constructor].
  apply Forall_forall. intros [i n] Hx. apply list_elem_of_In in Hx.
  unfold Py.enumerate in Hx. apply in_combine_r in Hx. cbn [snd].
  rewrite Forall_forall in Hm. apply Hm. now apply list_elem_of_In.
Qed.

(** The statement on two equal notes and the pattern [swing]. *)
Lemma apply_golden_rhythm_playable_witness :
  exists out,
    apply_golden_rhythm [(60, 480, 80); (60, 480, 80)] "swing" = Ok out
    /\ Forall playable out.
Proof.
  apply (apply_golden_rhythm_playable [(60, 480, 80); (60, 480, 80)] "swing").
  repeat constructor; unfold duration, velocity; simpl; lia.
Defined.

End RhythmMore.

(** ** The catalogs, [get_scale_info] and [get_note_name] *)

Section Catalogs.

Import MusicTheory.

(** X10.  Every scale of the catalog starts at offset 0, is strictly
    increasing, stays within one octave (offsets from 0 to 11) and has
    between 5 and 12 notes. *)
Theorem scales_well_formed (name : string) (scale : list Z) :
  scales !! name = Some scale ->
  head scale = Some 0
  /\ Sorted Z.lt scale
  /\ Forall (fun offset => 0 <= offset <= 11) scale
  /\ (5 <= length scale <= 12)%nat.
Proof.
  intros H. apply elem_of_list_to_map_2 in H.
  change (Py.range 12) with [0; 1; 2; 3; 4; 5; 6; 7; 8; 9; 10; 11] in H.
  repeat (apply elem_of_cons in H; destruct H as [H | H];
          [injection H as _ ->; cbn;
           split; [reflexivity |];
           split; [repeat constructor |];
           split; [repeat constructor; lia | lia] |]).
  now apply elem_of_nil in H.
Qed.

(** The statement for the scale [blues]. *)
Lemma scales_well_formed_witness :
  head [0; 3; 5; 6; 7; 10] = Some 0
  /\ Sorted Z.lt [0; 3; 5; 6; 7; 10]
  /\ Forall (fun offset => 0 <= offset <= 11) [0; 3; 5; 6; 7; 10]
  /\ (5 <= length [0; 3; 5; 6; 7; 10] <= 12)%nat.
Proof.
  apply (scales_well_formed "blues" [0; 3; 5; 6; 7; 10]). reflexivity.
Defined.

(** X11.  [get_scale_info] returns the empty record for a name that is not
    in the catalog.  For a name of the catalog it returns the name, the
    offsets of the catalog, their number, and a description of the scale;
    every scale of the catalog has a description of its own, so the
    default description is never returned. *)
Theorem get_scale_info_lookup (name : string) :
  (scales !! name = None -> get_scale_info name = ∅)
  /\ (forall scale,
        scales !! name = Some scale ->
        exists description,
          characteristics !! name = Some description
          /\ _get_scale_characteristic name = description
          /\ get_scale_info name !! "name" = Some (PStr name)
          /\ get_scale_info name !! "intervals" = Some (PList scale)
          /\ get_scale_info name !! "note_count" = Some (PInt (Py.len scale))
          /\ get_scale_info name !! "characteristic" = Some (PStr description)
          /\ dom (get_scale_info name)
             = {["name"; "intervals"; "note_count"; "characteristic"]}).
Proof.
  split.
  - intros H. unfold get_scale_info. now rewrite H.
  - intros scale H.
    assert (Hc : exists description, characteristics !! name = Some description).
    { assert (Hd : name ∈ dom characteristics).
      { replace (dom characteristics) with (dom scales) by reflexivity.
        apply elem_of_dom. now exists scale. }
      apply elem_of_dom in Hd as [c Hc]. now exists c. }
    destruct Hc as [c Hc]. exists c.
    assert (Hg : _get_scale_characteristic name = c).
    { unfold _get_scale_characteristic, Py.get. now rewrite Hc. }
    split; [exact Hc |]. split; [exact Hg |].
    unfold get_scale_info. rewrite H, Hg.
    repeat split; reflexivity.
Qed.

(** The statement for the unknown name [aeolian] and for [japanese]. *)
Lemma get_scale_info_lookup_witness :
  get_scale_info "aeolian" = ∅
  /\ exists description,
      characteristics !! "japanese" = Some description
      /\ _get_scale_characteristic "japanese" = description
      /\ get_scale_info "japanese" !! "name" = Some (PStr "japanese")
      /\ get_scale_info "japanese" !! "intervals" = Some (PList [0; 1; 5; 7; 8])
      /\ get_scale_info "japanese" !! "note_count"
         = Some (PInt (Py.len [0; 1; 5; 7; 8]))
      /\ get_scale_info "japanese" !! "characteristic"
         = Some (PStr description)
      /\ dom (get_scale_info "japanese")
         = {["name"; "intervals"; "note_count"; "characteristic"]}.
Proof.
  split.
  - apply (proj1 (get_scale_info_lookup "aeolian")). reflexivity.
  - apply (proj2 (get_scale_info_lookup "japanese")). reflexivity.
Defined.

(** X12.  [get_note_name] never raises, for a negative note number either:
    the name is the entry of [note_names] at [midi_note % 12], which is
    always in range, followed by the octave [midi_note // 12 - 1]. *)
Theorem get_note_name_total (midi_note : Z) :
  exists name,
    Py.index note_names (midi_note mod 12) = Ok name
    /\ In name note_names
    /\ get_note_name midi_note
       = Ok (String.append name (Py.str (midi_note / 12 - 1)))
    /\ get_note_name (midi_note + 12)
       = Ok (String.append name (Py.str (midi_note / 12))).
Proof.
  destruct (index_ok note_names (midi_note mod 12)) as (name & E & Hin).
  { unfold Py.len. simpl. apply Z.mod_pos_bound. lia. }
  exists name. split; [exact E |]. split; [exact Hin |].
  unfold get_note_name. split.
  - now rewrite E.
  - replace ((midi_note + 12) mod 12) with (midi_note mod 12).
    2:{ rewrite <- (Z.mul_1_l 12) at 2. now rewrite Z.mod_add. }
    rewrite E. cbn [Py.bind]. do 3 f_equal.
    rewrite <- (Z.mul_1_l 12) at 1. rewrite Z.div_add by lia. lia.
Qed.

End Catalogs.

(** ** [generate_chord_progression] *)

Section Chords.

Import MusicTheory.

Lemma scale_at_ok (scale : list Z) (degree : Z) :
  scale <> [] ->
  exists offset, scale_at scale degree = Ok offset /\ In offset scale.
Proof.
  intros Hs. unfold scale_at.
  assert (Hlen : 0 < Py.len scale).
  { destruct scale; [congruence |]. unfold Py.len. simpl. lia. }
  destruct (mod_ok degree _ Hlen) as (k & Ek & Hk). rewrite Ek. cbn [Py.bind].
  exact (index_ok scale k Hk).
Qed.

Section Scale.

(** The loop runs with a scale of the catalog: not empty, offsets from 0
    to 11. *)
Variable scale : list Z.
Variable root_note : Z.
Hypothesis scale_nonempty : scale <> [].
Hypothesis scale_octave : Forall (fun offset => 0 <= offset <= 11) scale.

Lemma chord_step_ok (chords : list (list Z)) (degree : Z) (s : Random.state) :
  exists chord,
    chord_step scale root_note chords degree s
    = Ok (chords ++ [chord], advance s)
    /\ chord_on root_note (Random.draws s (Random.cursor s)) chord.
Proof.
  unfold chord_step.
  pose proof scale_octave as Hoct. rewrite Forall_forall in Hoct.
  destruct (scale_at_ok scale degree scale_nonempty) as (b & Eb & Hb).
  destruct (scale_at_ok scale (degree + 2) scale_nonempty) as (t & Et & Ht).
  destruct (scale_at_ok scale (degree + 4) scale_nonempty) as (f & Ef & Hf).
  destruct (scale_at_ok scale (degree + 6) scale_nonempty) as (v & Ev & Hv).
  apply list_elem_of_In, Hoct in Hb, Ht, Hf, Hv.
  run Eb. run Et. run Eb. run Ef. run Eb. rewrite bind_random.
  unfold chord_on.
  destruct (Rlt_dec _ phi_inverse).
  - run Ev. run Eb. eexists. split; [reflexivity |].
    split; [reflexivity |]. exists (root_note + b).
    split; [reflexivity |]. split; [lia |].
    repeat constructor; lia.
  - eexists. split; [reflexivity |].
    split; [reflexivity |]. exists (root_note + b).
    split; [reflexivity |]. split; [lia |].
    repeat constructor; lia.
Qed.

Lemma chord_loop (progression : list Z) :
  forall (chords : list (list Z)) (s : Random.state),
  exists out,
    Random.for_ progression (chord_step scale root_note) chords s
    = Ok (chords ++ out,
          {| Random.draws := Random.draws s;
             Random.cursor := (Random.cursor s + length progression)%nat |})
    /\ length out = length progression
    /\ forall (k : nat) (chord : list Z),
        out !! k = Some chord ->
        chord_on root_note (Random.draws s (Random.cursor s + k)%nat) chord.
Proof.
  induction progression as [| degree progression IH]; intros chords s.
  - exists []. rewrite app_nil_r. split.
    + cbn. destruct s. simpl. now rewrite Nat.add_0_r.
    + split; [reflexivity |]. intros k chord Hk. discriminate.
  - destruct (chord_step_ok chords degree s) as (chord & E & Hc).
    destruct (IH (chords ++ [chord]) (advance s)) as (out & Eo & Hl & Ho).
    exists (chord :: out). split; [| split].
    + cbn [Random.for_]. rewrite (bind_ok _ _ _ _ _ E), Eo.
      rewrite <- app_assoc. simpl. do 3 f_equal. lia.
    + simpl. now rewrite Hl.
    + intros [| k] c Hk.
      * simpl in Hk. injection Hk as <-. now rewrite Nat.add_0_r.
      * simpl in Hk. apply Ho in Hk. simpl in Hk.
        now rewrite <- Nat.add_succ_comm.
Qed.

End Scale.

Lemma scale_of_shape (name : string) :
  scale_of name <> [] /\ Forall (fun offset => 0 <= offset <= 11) (scale_of name).
Proof.
  unfold scale_of. destruct (scales !! name) as [scale |] eqn:E.
  - apply elem_of_list_to_map_2 in E.
    change (Py.range 12) with [0; 1; 2; 3; 4; 5; 6; 7; 8; 9; 10; 11] in E.
    repeat (apply elem_of_cons in E; destruct E as [E | E];
            [injection E as _ ->; split;
             [discriminate | repeat constructor; lia] |]).
    now apply elem_of_nil in E.
  - split; [discriminate | repeat constructor; lia].
Qed.

Lemma generate_chord_progression_unfold
      (progression_name : string) (root_note : Z) (scale_name : string) :
  generate_chord_progression progression_name root_note scale_name
  = Random.for_ (progression_of progression_name)
                (chord_step (scale_of scale_name) root_note) [].
Proof.
  unfold generate_chord_progression, progression_of, scale_of,
    Py.contains, Py.getitem.
  destruct (scales !! scale_name) as [scale |] eqn:Es;
    destruct (chord_progressions !! progression_name) as [prog |] eqn:Ep;
    cbn [negb]; rewrite ?Es, ?Ep; reflexivity.
Qed.

(** X13.  [generate_chord_progression] never raises: a progression name
    that is not in the catalog is replaced by [pop], a scale name that is
    not in the catalog by [major].  It returns one chord for each degree of
    the progression and reads one draw for each chord.  The chord at
    position [k] has four notes when its draw is below [1 / phi] and three
    otherwise; it starts with its chord root, which lies from 0 to 11
    semitones above the root note, and all its notes are within 11
    semitones of the chord root. *)
Theorem generate_chord_progression_chords
        (progression_name : string) (root_note : Z) (scale_name : string)
        (s : Random.state) :
  exists chords,
    generate_chord_progression progression_name root_note scale_name s
    = Ok (chords,
          {| Random.draws := Random.draws s;
             Random.cursor :=
               (Random.cursor s + length (progression_of progression_name))%nat |})
    /\ length chords = length (progression_of progression_name)
    /\ forall (k : nat) (chord : list Z),
        chords !! k = Some chord ->
        chord_on root_note (Random.draws s (Random.cursor s + k)%nat) chord.
Proof.
  rewrite generate_chord_progression_unfold.
  destruct (scale_of_shape scale_name) as [Hne Hoct].
  destruct (chord_loop (scale_of scale_name) root_note Hne Hoct
                       (progression_of progression_name) [] s)
    as (out & E & Hl & Ho).
  exists out. split; [exact E |]. split; assumption.
Qed.

End Chords.

(** ** The tracks of the file *)

Section Tracks.

Import MusicTheory.
Import AdvancedMidiGenerator.

Lemma bpm_to_tempo_zero : bpm_to_tempo 0 = Raise ZeroDivisionError.
Proof.
  unfold bpm_to_tempo, Py.truediv.
  destruct (Req_dec_T (IZR 0) 0) as [_ | H]; [reflexivity | now elim H].
Qed.

Lemma bpm_to_tempo_positive (bpm : Z) :
  0 < bpm -> bpm_to_tempo bpm = Ok (60000000 / bpm).
Proof.
  intros Hpos. unfold bpm_to_tempo.
  rewrite truediv_ok by (apply not_0_IZR; lia). cbn [Py.bind]. f_equal.
  pose proof (Z.div_mod 60000000 bpm ltac:(lia)) as Hdm.
  pose proof (Z.mod_pos_bound 60000000 bpm Hpos) as Hr.
  pose proof (Z.div_pos 60000000 bpm ltac:(lia) Hpos) as Hq.
  set (q := 60000000 / bpm) in *. set (r := 60000000 mod bpm) in *.
  assert (Hb : (0 < IZR bpm)%R) by now apply IZR_lt.
  assert (Hx : (60000000 / IZR bpm
                = IZR q + IZR r / IZR bpm)%R).
  { replace 60000000%R with (IZR 60000000) by reflexivity.
    rewrite Hdm, plus_IZR, mult_IZR. field. lra. }
  assert (Hf : (0 <= IZR r / IZR bpm < 1)%R).
  { destruct Hr as [Hr0 Hr1]. apply IZR_le in Hr0. apply IZR_lt in Hr1.
    split.
    - apply Rmult_le_pos; [exact Hr0 |]. left. now apply Rinv_0_lt_compat.
    - apply (Rmult_lt_reg_r (IZR bpm)); [exact Hb |].
      replace (IZR r / IZR bpm * IZR bpm)%R with (IZR r) by (field; lra).
      lra. }
  apply IZR_le in Hq.
  apply int_nonneg; rewrite Hx; [lra | split; lra].
Qed.

(** A negative tempo down to -60000000 gives a negative number of
    microseconds. *)
Lemma bpm_to_tempo_negative (bpm : Z) :
  -60000000 <= bpm < 0 -> exists q, bpm_to_tempo bpm = Ok q /\ q < 0.
Proof.
  intros [Hlo Hhi]. unfold bpm_to_tempo.
  rewrite truediv_ok by (apply not_0_IZR; lia). cbn [Py.bind].
  eexists. split; [reflexivity |].
  apply IZR_le in Hlo. apply IZR_lt in Hhi.
  set (b := IZR bpm) in *.
  assert (Hx : (60000000 / b <= -1)%R).
  { replace (60000000 / b)%R with (- (60000000 / - b))%R by (field; lra).
    assert (1 <= 60000000 / - b)%R; [| lra].
    apply (Rmult_le_reg_r (- b)); [lra |].
    replace (60000000 / - b * - b)%R with 60000000%R by (field; lra). lra. }
  unfold Py.int. destruct (Rle_dec 0 (60000000 / b)) as [Hc | _]; [lra |].
  pose proof (Int_part_bounds (- (60000000 / b))) as [_ Hu].
  assert (H : (IZR 0 < IZR (Int_part (- (60000000 / b))))%R) by lra.
  apply lt_IZR in H. lia.
Qed.

(** X14.  [bpm_to_tempo] raises [ZeroDivisionError] for 0 beats per
    minute; for a positive number of beats per minute it returns the
    integer quotient of 60000000 by it, so 120 gives 500000. *)
Theorem bpm_to_tempo_quotient (bpm : Z) :
  (bpm = 0 -> bpm_to_tempo bpm = Raise ZeroDivisionError)
  /\ (0 < bpm -> bpm_to_tempo bpm = Ok (60000000 / bpm)).
Proof.
  split.
  - intros ->. apply bpm_to_tempo_zero.
  - apply bpm_to_tempo_positive.
Qed.

(** The statement at 0 and at 120 beats per minute. *)
Lemma bpm_to_tempo_quotient_witness :
  bpm_to_tempo 0 = Raise ZeroDivisionError /\ bpm_to_tempo 120 = Ok 500000.
Proof.
  split.
  - apply (proj1 (bpm_to_tempo_quotient 0)). reflexivity.
  - apply (proj2 (bpm_to_tempo_quotient 120)). reflexivity.
Defined.

(** The checks of the library on an int field. *)
Lemma check_int_ok (value low high : Z) :
  low <= value <= high -> check_int value low high = Ok tt.
Proof.
  intros H. unfold check_int.
  destruct (Z.leb_spec low value), (Z.leb_spec value high);
    reflexivity || lia.
Qed.

Lemma check_int_raise (value low high : Z) :
  value < low \/ high < value -> check_int value low high = Raise ValueError.
Proof.
  intros H. unfold check_int.
  destruct (Z.leb_spec low value), (Z.leb_spec value high);
    reflexivity || lia.
Qed.

Lemma check_int_cases (value low high : Z) :
  (low <= value <= high /\ check_int value low high = Ok tt)
  \/ (~ low <= value <= high /\ check_int value low high = Raise ValueError).
Proof.
  destruct (Z_le_dec low value) as [H1 | H1];
    [destruct (Z_le_dec value high) as [H2 | H2] |].
  - left. split; [lia | apply check_int_ok; lia].
  - right. split; [lia | apply check_int_raise; lia].
  - right. split; [lia | apply check_int_raise; lia].
Qed.

(** The messages of a note pass the checks exactly when the channel is a
    channel and the pitch and the velocity are data bytes. *)
Lemma Message_note_on_ok (channel p v t : Z) :
  0 <= channel <= 15 -> 0 <= p <= 127 -> 0 <= v <= 127 ->
  Message (note_on channel p v t) = Ok (note_on channel p v t).
Proof.
  intros Hc Hp Hv. unfold Message, check, check_channel, check_data_byte.
  now rewrite !check_int_ok.
Qed.

Lemma Message_note_off_ok (channel p t : Z) :
  0 <= channel <= 15 -> 0 <= p <= 127 ->
  Message (note_off channel p 0 t) = Ok (note_off channel p 0 t).
Proof.
  intros Hc Hp. unfold Message, check, check_channel, check_data_byte.
  now rewrite !check_int_ok by lia.
Qed.

Lemma Message_note_on_raise (channel p v t : Z) :
  ~ (0 <= channel <= 15 /\ 0 <= p <= 127 /\ 0 <= v <= 127) ->
  Message (note_on channel p v t) = Raise ValueError.
Proof.
  intros H. unfold Message, check, check_channel, check_data_byte.
  destruct (check_int_cases channel 0 15) as [[Hc ->] | [_ ->]];
    [| reflexivity].
  destruct (check_int_cases p 0 127) as [[Hp ->] | [_ ->]]; [| reflexivity].
  destruct (check_int_cases v 0 127) as [[Hv ->] | [_ ->]]; [| reflexivity].
  tauto.
Qed.

Lemma Message_program_change_ok (channel program t : Z) :
  0 <= channel <= 15 -> 0 <= program <= 127 ->
  Message (program_change channel program t)
  = Ok (program_change channel program t).
Proof.
  intros Hc Hp. unfold Message, check, check_channel, check_data_byte.
  now rewrite !check_int_ok.
Qed.

Lemma Message_program_change_raise (channel program t : Z) :
  ~ 0 <= channel <= 15 ->
  Message (program_change channel program t) = Raise ValueError.
Proof.
  intros Hc. unfold Message, check, check_channel.
  now rewrite check_int_raise by lia.
Qed.

Lemma MetaMessage_set_tempo_ok (tempo t : Z) :
  0 <= tempo <= 16777215 ->
  MetaMessage (set_tempo tempo t) = Ok (set_tempo tempo t).
Proof.
  intros H. unfold MetaMessage, check. now rewrite check_int_ok.
Qed.

Lemma MetaMessage_set_tempo_raise (tempo t : Z) :
  tempo < 0 \/ 16777215 < tempo ->
  MetaMessage (set_tempo tempo t) = Raise ValueError.
Proof.
  intros H. unfold MetaMessage, check. now rewrite check_int_raise.
Qed.

Lemma MetaMessage_key_signature_ok (key : string) (t : Z) :
  In key key_names ->
  MetaMessage (key_signature key t) = Ok (key_signature key t).
Proof.
  intros H. unfold MetaMessage, check.
  rewrite bool_decide_eq_true_2; [reflexivity |]. now apply list_elem_of_In.
Qed.

(** One note of the melody: two messages, or [ValueError]. *)
Lemma melody_note_ok (track : MidiTrack) (current_time : Z) (n : note) :
  writable n ->
  melody_note (track, current_time) n
  = Ok (track ++ [note_on 0 (pitch n) (velocity n) current_time;
                  note_off 0 (pitch n) 0 (duration n)], 0).
Proof.
  destruct n as [[p d] v]. intros [Hp Hv].
  unfold pitch, velocity, duration in *. cbn [fst snd] in *.
  unfold melody_note.
  rewrite Message_note_on_ok, Message_note_off_ok by lia.
  cbn [Py.bind]. now rewrite <- app_assoc.
Qed.

Lemma melody_note_raise (st : MidiTrack * Z) (n : note) :
  ~ writable n -> melody_note st n = Raise ValueError.
Proof.
  destruct st as [track current_time]. destruct n as [[p d] v]. intros H.
  unfold melody_note. rewrite Message_note_on_raise; [reflexivity |].
  intros (_ & Hp & Hv). apply H. split; assumption.
Qed.

Lemma writable_dec (n : note) : {writable n} + {~ writable n}.
Proof.
  unfold writable.
  destruct (Z_le_dec 0 (pitch n)), (Z_le_dec (pitch n) 127),
    (Z_le_dec 0 (velocity n)), (Z_le_dec (velocity n) 127);
    (left; lia) || (right; lia).
Qed.

Lemma melody_notes_ok (melody : list note) :
  Forall writable melody ->
  forall track : MidiTrack,
    Py.for_ melody melody_note (track, 0)
    = Ok (track ++ flat_map (note_messages 0) melody, 0).
Proof.
  induction 1 as [| n melody Hn _ IH]; intros track.
  - simpl. now rewrite app_nil_r.
  - cbn [Py.for_ flat_map]. rewrite (melody_note_ok _ _ _ Hn). cbn [Py.bind].
    rewrite IH, <- app_assoc. reflexivity.
Qed.

Lemma melody_notes_raise (melody : list note) :
  ~ Forall writable melody ->
  forall st : MidiTrack * Z, Py.for_ melody melody_note st = Raise ValueError.
Proof.
  induction melody as [| n melody IH]; intros H st.
  - elim H. constructor.
  - cbn [Py.for_]. destruct (writable_dec n) as [Hn | Hn].
    + destruct st as [track current_time].
      rewrite (melody_note_ok _ _ _ Hn). cbn [Py.bind]. apply IH.
      intros Hm. apply H. now constructor.
    + now rewrite (melody_note_raise _ _ Hn).
Qed.

Lemma track_notes_messages (channel : Z) (notes : list note) (tail : MidiTrack) :
  track_notes (flat_map (note_messages channel) notes ++ tail)
  = notes ++ track_notes tail.
Proof.
  induction notes as [| [[p d] v] notes IH]; [reflexivity |].
  cbn [flat_map note_messages app track_notes pitch duration velocity fst snd].
  now rewrite IH.
Qed.

(** The melody track up to its notes. *)
Lemma melody_track_unfold (melody_data : list note) (instrument tempo_bpm : Z)
      (key : string) :
  4 <= tempo_bpm -> In key key_names -> 1 <= instrument <= 128 ->
  _create_melody_track melody_data instrument tempo_bpm key (4, 4)
  = (let! (track, current_time) :=
       Py.for_ melody_data melody_note
         ([track_name "Melody" 0; set_tempo (60000000 / tempo_bpm) 0;
           key_signature key 0; time_signature 4 4 24 8 0;
           program_change 0 (instrument - 1) 0], 0) in
     Ok (track ++ [end_of_track 0]))%result.
Proof.
  intros Htempo Hkey Hinstr. unfold _create_melody_track.
  change (MetaMessage (track_name "Melody" 0))
    with (Ok (track_name "Melody" 0)).
  cbn [Py.bind]. rewrite bpm_to_tempo_positive by lia. cbn [Py.bind].
  rewrite MetaMessage_set_tempo_ok.
  2:{ split; [apply Z.div_pos; lia |].
      transitivity (60000000 / 4); [apply Z.div_le_compat_l; lia |].
      change (60000000 / 4) with 15000000. lia. }
  cbn [Py.bind]. rewrite (MetaMessage_key_signature_ok _ _ Hkey).
  cbn [Py.bind fst snd].
  change (MetaMessage (time_signature 4 4 24 8 0))
    with (Ok (time_signature 4 4 24 8 0)).
  cbn [Py.bind]. rewrite Message_program_change_ok by lia.
  cbn [Py.bind app]. reflexivity.
Qed.

Lemma melody_track_returns (melody_data : list note) (instrument tempo_bpm : Z)
      (key : string) :
  4 <= tempo_bpm -> In key key_names -> 1 <= instrument <= 128 ->
  Forall writable melody_data ->
  exists track,
    _create_melody_track melody_data instrument tempo_bpm key (4, 4) = Ok track
    /\ track_notes track = melody_data
    /\ length track = (2 * length melody_data + 6)%nat
    /\ last track = Some (end_of_track 0).
Proof.
  intros Htempo Hkey Hinstr Hm.
  rewrite (melody_track_unfold _ _ _ _ Htempo Hkey Hinstr).
  rewrite (melody_notes_ok _ Hm). cbn [Py.bind].
  eexists. split; [reflexivity |]. split; [| split].
  - cbn [app track_notes].
    rewrite track_notes_messages. cbn [track_notes]. now rewrite app_nil_r.
  - rewrite !length_app. cbn [length].
    assert (Hl : forall l : list note,
               length (flat_map (note_messages 0) l) = (2 * length l)%nat).
    { induction l as [| n l IH]; [reflexivity |].
      cbn [flat_map]. rewrite length_app, IH. simpl. lia. }
    rewrite Hl. lia.
  - apply last_snoc.
Qed.

Lemma melody_track_zero (melody_data : list note) (instrument : Z)
      (key : string) (time_sig : Z * Z) :
  _create_melody_track melody_data instrument 0 key time_sig
  = Raise ZeroDivisionError.
Proof.
  unfold _create_melody_track.
  change (MetaMessage (track_name "Melody" 0))
    with (Ok (track_name "Melody" 0)).
  cbn [Py.bind]. now rewrite bpm_to_tempo_zero.
Qed.

(** A tempo from 1 to 3, or a negative one down to -60000000, gives a
    number of microseconds that the tempo message does not take. *)
Lemma melody_track_slow (melody_data : list note) (instrument tempo_bpm : Z)
      (key : string) (time_sig : Z * Z) :
  tempo_bpm <> 0 -> -60000000 <= tempo_bpm <= 3 ->
  _create_melody_track melody_data instrument tempo_bpm key time_sig
  = Raise ValueError.
Proof.
  intros Hne Hrange. unfold _create_melody_track.
  change (MetaMessage (track_name "Melody" 0))
    with (Ok (track_name "Melody" 0)).
  cbn [Py.bind].
  destruct (Z_lt_le_dec tempo_bpm 0) as [Hneg | Hpos].
  - destruct (bpm_to_tempo_negative tempo_bpm ltac:(lia)) as (q & -> & Hq).
    cbn [Py.bind]. now rewrite MetaMessage_set_tempo_raise by lia.
  - rewrite bpm_to_tempo_positive by lia. cbn [Py.bind].
    rewrite MetaMessage_set_tempo_raise; [reflexivity |]. right.
    assert (Hc : tempo_bpm = 1 \/ tempo_bpm = 2 \/ tempo_bpm = 3) by lia.
    destruct Hc as [-> | [-> | ->]]; reflexivity.
Qed.

(** X15.  [_create_melody_track] raises [ZeroDivisionError] for a tempo of
    0, and [ValueError] for a tempo from 1 to 3 or a negative one (down to
    -60000000): the tempo message takes 0 to 16777215 microseconds.  For a
    tempo of 4 or more, a key name of the library, the time signature 4/4
    and an instrument from 1 to 128, it returns exactly when every note
    has a pitch and a velocity from 0 to 127, and raises [ValueError]
    otherwise.  The track it returns has five setup messages, two messages
    for each note and the end-of-track mark, and the melody can be read
    back from it: pitch and velocity from each [note_on], the duration from
    the time of the [note_off] that follows it. *)
Theorem create_melody_track_round_trip
        (melody_data : list note) (instrument tempo_bpm : Z) (key : string) :
  (tempo_bpm = 0 ->
   _create_melody_track melody_data instrument tempo_bpm key (4, 4)
   = Raise ZeroDivisionError)
  /\ (tempo_bpm <> 0 -> -60000000 <= tempo_bpm <= 3 ->
      _create_melody_track melody_data instrument tempo_bpm key (4, 4)
      = Raise ValueError)
  /\ (4 <= tempo_bpm -> In key key_names -> 1 <= instrument <= 128 ->
      (Forall writable melody_data ->
       exists track,
         _create_melody_track melody_data instrument tempo_bpm key (4, 4)
         = Ok track
         /\ track_notes track = melody_data
         /\ length track = (2 * length melody_data + 6)%nat
         /\ last track = Some (end_of_track 0))
      /\ (~ Forall writable melody_data ->
          _create_melody_track melody_data instrument tempo_bpm key (4, 4)
          = Raise ValueError)).
Proof.
  split; [| split].
  - intros ->. apply melody_track_zero.
  - apply melody_track_slow.
  - intros Htempo Hkey Hinstr. split.
    + now apply melody_track_returns.
    + intros Hm. rewrite (melody_track_unfold _ _ _ _ Htempo Hkey Hinstr).
      now rewrite (melody_notes_raise _ Hm).
Qed.

(** The statement for one note at the tempos 0, 3 and 120, and for a note
    with the velocity 128. *)
Lemma create_melody_track_round_trip_witness :
  _create_melody_track [(60, 480, 80)] 1 0 "C" (4, 4) = Raise ZeroDivisionError
  /\ _create_melody_track [(60, 480, 80)] 1 3 "C" (4, 4) = Raise ValueError
  /\ (exists track,
        _create_melody_track [(60, 480, 80)] 1 120 "C" (4, 4) = Ok track
        /\ track_notes track = [(60, 480, 80)]
        /\ length track = (2 * length [(60, 480, 80)] + 6)%nat
        /\ last track = Some (end_of_track 0))
  /\ _create_melody_track [(60, 480, 128)] 1 120 "C" (4, 4) = Raise ValueError.
Proof.
  split; [| split; [| split]].
  - apply (proj1 (create_melody_track_round_trip [(60, 480, 80)] 1 0 "C")).
    reflexivity.
  - apply (proj1 (proj2 (create_melody_track_round_trip
                           [(60, 480, 80)] 1 3 "C"))); lia.
  - apply (proj2 (proj2 (create_melody_track_round_trip
                           [(60, 480, 80)] 1 120 "C"))).
    + lia.
    + simpl. tauto.
    + lia.
    + repeat constructor; unfold pitch, velocity; simpl; lia.
  - apply (proj2 (proj2 (create_melody_track_round_trip
                           [(60, 480, 128)] 1 120 "C"))).
    + lia.
    + simpl. tauto.
    + lia.
    + intros H. apply Forall_cons in H as [[_ H] _].
      unfold velocity in H. simpl in H. lia.
Defined.

(** One note of a harmony voice. *)
Lemma harmony_note_ok (channel : Z) (track : MidiTrack) (current_time : Z)
      (n : note) :
  0 <= channel <= 15 -> writable n ->
  harmony_note channel (track, current_time) n
  = Ok (track ++ [note_on channel (pitch n) (soften (velocity n)) current_time;
                  note_off channel (pitch n) 0 (duration n)], 0).
Proof.
  destruct n as [[p d] v]. intros Hc [Hp Hv].
  unfold pitch, velocity, duration in *. cbn [fst snd] in *.
  unfold harmony_note. cbv zeta. fold (soften v).
  pose proof (soften_range v Hv) as Hs.
  rewrite Message_note_on_ok, Message_note_off_ok by lia.
  cbn [Py.bind]. now rewrite <- app_assoc.
Qed.

Lemma harmony_notes_ok (channel : Z) (harmony_data : list note) :
  0 <= channel <= 15 -> Forall writable harmony_data ->
  forall track : MidiTrack,
    Py.for_ harmony_data (harmony_note channel) (track, 0)
    = Ok (track ++ flat_map (note_messages channel) (map softened harmony_data),
          0).
Proof.
  intros Hc. induction 1 as [| n harmony_data Hn _ IH]; intros track.
  - simpl. now rewrite app_nil_r.
  - cbn [Py.for_ map flat_map]. rewrite (harmony_note_ok _ _ _ _ Hc Hn).
    cbn [Py.bind]. rewrite IH, <- app_assoc. reflexivity.
Qed.

Lemma harmony_track_read (data : list note) (instrument channel : Z) :
  0 <= channel <= 15 -> 1 <= instrument <= 128 -> Forall writable data ->
  exists track,
    _create_harmony_track data instrument channel = Ok track
    /\ track_notes track = map softened data.
Proof.
  intros Hc Hinstr Hd. unfold _create_harmony_track.
  change (MetaMessage (track_name ?name 0)) with (Ok (track_name name 0)).
  cbn [Py.bind]. rewrite Message_program_change_ok by lia. cbn [Py.bind].
  assert (Ev : Message (control_change channel 7 80 0)
               = Ok (control_change channel 7 80 0)).
  { unfold Message, check, check_channel, check_data_byte.
    now rewrite !check_int_ok by lia. }
  rewrite Ev. cbn [Py.bind app]. rewrite (harmony_notes_ok _ _ Hc Hd).
  cbn [Py.bind]. eexists. split; [reflexivity |].
  cbn [app track_notes].
  rewrite track_notes_messages. cbn [track_notes]. now rewrite app_nil_r.
Qed.

Lemma harmony_track_channel (data : list note) (instrument channel : Z) :
  ~ 0 <= channel <= 15 ->
  _create_harmony_track data instrument channel = Raise ValueError.
Proof.
  intros Hc. unfold _create_harmony_track.
  change (MetaMessage (track_name ?name 0)) with (Ok (track_name name 0)).
  cbn [Py.bind]. now rewrite Message_program_change_raise.
Qed.

(** The notes of a melody within the bounds of the generator, and their
    bass notes, pass the checks of the library. *)
Lemma in_range_writable (n : note) : in_range n -> writable n.
Proof. unfold in_range, writable. lia. Qed.

Lemma bass_writable (n : note) : in_range n -> writable (bass_of n).
Proof.
  destruct n as [[p d] v]. unfold in_range, writable, pitch, velocity.
  cbn [fst snd]. intros [Hp Hv]. rewrite bass_of_eq. cbn [fst snd].
  pose proof (soften_melody v Hv). lia.
Qed.

(** X16.  [_create_harmony_track] raises [ValueError] for a channel that is
    not from 0 to 15.  For a channel from 0 to 15, an instrument from 1 to
    128 and notes with pitch and velocity from 0 to 127 it returns, and the
    notes read back from the track are the notes given to it with the
    velocity lowered to [int(velocity * 0.7)].  The bass line already has
    its velocity lowered by [generate_golden_harmony], so the file plays
    the bass of a melody note at [int(int(velocity * 0.7) * 0.7)], 23
    semitones below it (not below 21) and twice as long. *)
Theorem create_harmony_track_notes
        (harmony_data melody : list note) (instrument channel : Z) :
  (~ 0 <= channel <= 15 ->
   _create_harmony_track harmony_data instrument channel = Raise ValueError)
  /\ (0 <= channel <= 15 -> 1 <= instrument <= 128 ->
      (Forall writable harmony_data ->
       exists track,
         _create_harmony_track harmony_data instrument channel = Ok track
         /\ track_notes track = map softened harmony_data)
      /\ (Forall in_range melody ->
          exists track,
            _create_harmony_track (map bass_of melody) instrument channel
            = Ok track
            /\ track_notes track
               = map (fun n =>
                        (Z.max 21 (pitch n - 23),
                         duration n * 2,
                         soften (soften (velocity n))))
                     melody)).
Proof.
  split; [apply harmony_track_channel |].
  intros Hc Hinstr. split; [now apply harmony_track_read |].
  intros Hm.
  destruct (harmony_track_read (map bass_of melody) instrument channel Hc Hinstr)
    as (track & E & Hread).
  { apply Forall_map. eapply Forall_impl; [exact Hm |]. apply bass_writable. }
  exists track. split; [exact E |].
  rewrite Hread, map_map. apply map_ext.
  intros [[p d] v]. rewrite bass_of_eq. reflexivity.
Qed.

(** The statement for a seventeenth channel, and for the bass of a melody
    note with the velocity 90 on the channel 1: the track plays it at 43. *)
Lemma create_harmony_track_notes_witness :
  _create_harmony_track [(37, 960, 62)] 41 16 = Raise ValueError
  /\ (exists track,
        _create_harmony_track [(37, 960, 62)] 41 1 = Ok track
        /\ track_notes track = map softened [(37, 960, 62)])
  /\ (exists track,
        _create_harmony_track (map bass_of [(60, 480, 90)]) 41 1 = Ok track
        /\ track_notes track
           = map (fun n =>
                    (Z.max 21 (pitch n - 23),
                     duration n * 2,
                     soften (soften (velocity n))))
                 [(60, 480, 90)]).
Proof.
  split; [| split].
  - apply (proj1 (create_harmony_track_notes
                    [(37, 960, 62)] [(60, 480, 90)] 41 16)). lia.
  - apply (proj2 (create_harmony_track_notes
                    [(37, 960, 62)] [(60, 480, 90)] 41 1)); try lia.
    repeat constructor; unfold pitch, velocity; simpl; lia.
  - apply (proj2 (create_harmony_track_notes
                    [(37, 960, 62)] [(60, 480, 90)] 41 1)); try lia.
    repeat constructor; unfold pitch, velocity; simpl; lia.
Defined.

End Tracks.

(** ** [_create_drum_track] *)

Section Drums.

Import MusicTheory.
Import AdvancedMidiGenerator.

Lemma beat_of_playable (rhythm_style : string) :
  Forall playable_hit (beat_of rhythm_style).
Proof.
  assert (Hs : Forall playable_hit
                 [("kick", 0, 100); ("hihat", 240, 60); ("snare", 480, 90);
                  ("hihat", 720, 60)]).
  { repeat constructor; try (eexists; split; [reflexivity | simpl; tauto]);
      simpl; lia. }
  unfold beat_of. destruct (beat_patterns !! rhythm_style) as [p |] eqn:E;
    [| exact Hs].
  apply elem_of_list_to_map_2 in E.
  repeat (apply elem_of_cons in E; destruct E as [E | E];
          [injection E as _ ->;
           repeat constructor;
           try (eexists; split; [reflexivity | simpl; tauto]);
           simpl; lia |]).
  now apply elem_of_nil in E.
Qed.

(** One hit: one draw is read, and nothing or one pair of messages is
    written. *)
Lemma drum_hit_ok (measure : Z) (track : MidiTrack) (current_time : Z)
      (hit : string * Z * Z) (s : Random.state) :
  playable_hit hit ->
  exists new current_time',
    drum_hit 9 measure (track, current_time) hit s
    = Ok (track ++ new, current_time', advance s)
    /\ Forall drum_message new
    /\ (length new <= 2)%nat.
Proof.
  destruct hit as [[drum offset] velocity].
  intros [(note & Hnote & Hin) Hoff]. cbn [fst snd] in Hnote, Hoff.
  unfold drum_hit.
  assert (Eg : Py.getitem drum_map drum = Ok note).
  { unfold Py.getitem. now rewrite Hnote. }
  run Eg. rewrite bind_random.
  destruct (Rlt_dec _ 0.1).
  - exists [], current_time. rewrite app_nil_r.
    split; [reflexivity |]. split; [constructor | simpl; lia].
  - assert (Hn : 0 <= note <= 127) by (simpl in Hin; lia).
    rewrite Message_note_on_ok, Message_note_off_ok by lia.
    rewrite !(bind_lift_ok _ _ _ _ eq_refl).
    eexists [_; _], _. split; [now rewrite <- app_assoc |].
    split; [| simpl; lia].
    constructor; [| constructor; [| constructor]]; cbn [drum_message].
    + repeat split; try assumption; lia.
    + repeat split; assumption.
Qed.

Lemma drum_measure_ok (measure : Z) (pattern : list (string * Z * Z)) :
  Forall playable_hit pattern ->
  forall (track : MidiTrack) (current_time : Z) (s : Random.state),
  exists new current_time',
    Random.for_ pattern (drum_hit 9 measure) (track, current_time) s
    = Ok (track ++ new, current_time',
          {| Random.draws := Random.draws s;
             Random.cursor := (Random.cursor s + length pattern)%nat |})
    /\ Forall drum_message new
    /\ (length new <= 2 * length pattern)%nat.
Proof.
  induction pattern as [| hit pattern IH]; intros Hp track current_time s.
  - exists [], current_time. rewrite app_nil_r. split; [| split].
    + cbn. destruct s. simpl. now rewrite Nat.add_0_r.
    + constructor.
    + simpl. lia.
  - apply Forall_cons in Hp as [Hhit Hp].
    destruct (drum_hit_ok measure track current_time hit s Hhit)
      as (n1 & t1 & E1 & H1 & L1).
    destruct (IH Hp (track ++ n1) t1 (advance s)) as (n2 & t2 & E2 & H2 & L2).
    exists (n1 ++ n2), t2. split; [| split].
    + cbn [Random.for_]. rewrite (bind_ok _ _ _ _ _ E1).
      etransitivity; [exact E2 |].
      rewrite <- app_assoc. simpl. do 3 f_equal. lia.
    + now apply Forall_app.
    + rewrite length_app. simpl. lia.
Qed.

Lemma drum_measures_ok (pattern : list (string * Z * Z)) (measures : list Z) :
  Forall playable_hit pattern ->
  forall (track : MidiTrack) (current_time : Z) (s : Random.state),
  exists new current_time',
    Random.for_ measures
      (fun st measure =>
         Random.bind (Random.for_ pattern (drum_hit 9 measure) st)
           (fun '(track, current_time) =>
              Random.ret
                (track,
                 if (measure + 1) * (ticks_per_beat * 4) >? current_time
                 then (measure + 1) * (ticks_per_beat * 4)
                 else current_time)))
      (track, current_time) s
    = Ok (track ++ new, current_time',
          {| Random.draws := Random.draws s;
             Random.cursor :=
               (Random.cursor s + length measures * length pattern)%nat |})
    /\ Forall drum_message new
    /\ (length new <= 2 * (length measures * length pattern))%nat.
Proof.
  intros Hp. induction measures as [| measure measures IH];
    intros track current_time s.
  - exists [], current_time. rewrite app_nil_r. split; [| split].
    + cbn. destruct s. simpl. now rewrite Nat.add_0_r.
    + constructor.
    + simpl. lia.
  - destruct (drum_measure_ok measure pattern Hp track current_time s)
      as (n1 & t1 & E1 & H1 & L1).
    cbn [Random.for_]. unfold Random.bind at 1. unfold Random.bind at 1.
    rewrite E1. unfold Random.ret at 1.
    match goal with
    | |- context [Random.for_ measures _ (_, ?t) ?s1] =>
        destruct (IH (track ++ n1) t s1) as (n2 & t2 & E2 & H2 & L2)
    end.
    exists (n1 ++ n2), t2. split; [| split].
    + etransitivity; [exact E2 |].
      rewrite <- app_assoc. simpl. do 3 f_equal. lia.
    + now apply Forall_app.
    + rewrite length_app. simpl. lia.
Qed.

(** X17.  [_create_drum_track] never raises, whatever the style name: a
    style without a beat pattern gets [straight].  It plays
    [max(1, melody_length // 8)] measures and reads one draw for each hit
    of each measure.  Between the track name and the end-of-track mark
    the track holds only drum messages on channel 9, for the kick, the
    snare or the closed hi-hat, with every velocity from 30 to 127, and at
    most one pair of messages for each hit. *)
Theorem create_drum_track_messages
        (melody_length : Z) (rhythm_style : string) (s : Random.state) :
  exists body,
    _create_drum_track melody_length rhythm_style s
    = Ok (track_name "Drums" 0 :: body ++ [end_of_track 0],
          {| Random.draws := Random.draws s;
             Random.cursor :=
               (Random.cursor s
                + measures_of melody_length * length (beat_of rhythm_style))%nat |})
    /\ Forall drum_message body
    /\ (length body
        <= 2 * (measures_of melody_length * length (beat_of rhythm_style)))%nat.
Proof.
  unfold _create_drum_track.
  rewrite (bind_lift_ok _ _ _ _
             (eq_refl : MetaMessage (track_name "Drums" 0) = Ok _)).
  rewrite (bind_lift_ok _ _ _ _ (eq_refl : Py.getitem beat_patterns "straight" = Ok _)).
  change (Py.get beat_patterns rhythm_style _) with (beat_of rhythm_style).
  destruct (drum_measures_ok (beat_of rhythm_style)
              (Py.range (Z.max 1 (melody_length / 8)))
              (beat_of_playable rhythm_style)
              [track_name "Drums" 0] 0 s)
    as (body & t & E & Hb & Hl).
  rewrite range_length in E, Hl. fold (measures_of melody_length) in E, Hl.
  exists body. split; [| split; assumption].
  cbn [app]. erewrite bind_ok; [| exact E]. reflexivity.
Qed.

End Drums.

(** ** [create_advanced_midi] *)

Section MidiFile.

Import MusicTheory.
Import AdvancedMidiGenerator.

(** Every style template names at least four instruments. *)
Lemma template_instruments (style : string) :
  (4 <= length (instruments (template_of style)))%nat.
Proof.
  unfold template_of, Py.get.
  destruct (style_templates !! style) as [t |] eqn:E; [| simpl; lia].
  apply elem_of_list_to_map_2 in E.
  repeat (apply elem_of_cons in E; destruct E as [E | E];
          [injection E as _ ->; simpl; lia |]).
  now apply elem_of_nil in E.
Qed.

(** The instruments of every style template are from 1 to 128. *)
Lemma template_programs (style : string) :
  Forall (fun i => 1 <= i <= 128) (instruments (template_of style)).
Proof.
  unfold template_of, Py.get.
  destruct (style_templates !! style) as [t |] eqn:E;
    [| repeat constructor; lia].
  apply elem_of_list_to_map_2 in E.
  repeat (apply elem_of_cons in E; destruct E as [E | E];
          [injection E as _ ->; repeat constructor; lia |]).
  now apply elem_of_nil in E.
Qed.

(** The loop over the harmony voices: one track for each voice. *)
Lemma harmony_tracks_ok (instrs : list Z) (xs : list (Z * list note)) :
  instrs <> [] ->
  Forall (fun i => 1 <= i <= 128) instrs ->
  Forall (fun x => 0 <= x.1 <= 14 /\ Forall writable x.2) xs ->
  forall mid_tracks : list MidiTrack,
  exists new,
    Py.for_ xs
      (fun mid_tracks '(i, harmony_part) =>
         (let! instrument :=
            if i <? Py.len instrs - 1
            then Py.index instrs (i + 1)
            else Py.index instrs (-1) in
          let! harmony_track :=
            _create_harmony_track harmony_part instrument (i + 1) in
          Ok (mid_tracks ++ [harmony_track]))%result)
      mid_tracks
    = Ok (mid_tracks ++ new)
    /\ length new = length xs
    /\ map track_notes new = map (fun x => map softened x.2) xs.
Proof.
  intros Hne Hinstrs. induction xs as [| [i part] xs IH]; intros Hxs mid_tracks.
  - exists []. rewrite app_nil_r. repeat split.
  - apply Forall_cons in Hxs as [[Hi Hpart] Hxs]. cbn [fst snd] in Hi, Hpart.
    cbn [Py.for_].
    assert (Ei : exists instrument,
               (if i <? Py.len instrs - 1
                then Py.index instrs (i + 1)
                else Py.index instrs (-1)) = Ok instrument
               /\ 1 <= instrument <= 128).
    { rewrite Forall_forall in Hinstrs.
      destruct (i <? Py.len instrs - 1) eqn:E.
      - destruct (index_ok instrs (i + 1)) as (a & Ea & Hin); [lia |].
        exists a. split; [exact Ea |]. apply Hinstrs. now apply list_elem_of_In.
      - destruct (index_last instrs Hne) as (a & Ea & Hlk).
        exists a. split; [exact Ea |]. apply Hinstrs.
        now apply list_elem_of_lookup_2 in Hlk. }
    destruct Ei as (instrument & Ei & Hinstr). rewrite Ei. cbn [Py.bind].
    destruct (harmony_track_read part instrument (i + 1) ltac:(lia) Hinstr Hpart)
      as (track & Et & Hread).
    rewrite Et. cbn [Py.bind].
    destruct (IH Hxs (mid_tracks ++ [track])) as (new & E & Hl & Hn).
    exists (track :: new). split; [| split].
    + etransitivity; [exact E |]. now rewrite <- app_assoc.
    + simpl. now rewrite Hl.
    + cbn [map snd]. rewrite Hn, Hread. reflexivity.
Qed.

Lemma drum_track_returns (melody_length : Z) (rhythm_style : string)
      (s : Random.state) :
  exists track s',
    _create_drum_track melody_length rhythm_style s = Ok (track, s').
Proof.
  unfold _create_drum_track.
  rewrite (bind_lift_ok _ _ _ _
             (eq_refl : MetaMessage (track_name "Drums" 0) = Ok _)).
  rewrite (bind_lift_ok _ _ _ _ (eq_refl : Py.getitem beat_patterns "straight" = Ok _)).
  change (Py.get beat_patterns rhythm_style _) with (beat_of rhythm_style).
  destruct (drum_measures_ok (beat_of rhythm_style)
              (Py.range (Z.max 1 (melody_length / 8)))
              (beat_of_playable rhythm_style)
              [track_name "Drums" 0] 0 s)
    as (body & t & E & _).
  eexists _, _. cbn [app]. erewrite bind_ok; [| exact E]. reflexivity.
Qed.

Lemma enumerate_bounds {A} (l : list A) :
  Forall (fun x => 0 <= x.1 < Py.len l) (Py.enumerate l).
Proof.
  apply Forall_forall. intros [i a] Hx. apply list_elem_of_In in Hx.
  unfold Py.enumerate in Hx. apply in_combine_l in Hx.
  unfold Py.range, Py.range2 in Hx. apply in_map_iff in Hx as (k & <- & Hk).
  apply in_seq in Hk. simpl. lia.
Qed.

Lemma create_advanced_midi_unfold
      (melody_data : list note) (harmony_data : list (list note))
      (style : string) (tempo_bpm : Z) (key : string) (s : Random.state) :
  exists lead,
    Py.index (instruments (template_of style)) 0 = Ok lead
    /\ (tempo_bpm = 0 ->
        create_advanced_midi melody_data harmony_data style tempo_bpm key s
        = Raise ZeroDivisionError)
    /\ (tempo_bpm <> 0 -> -60000000 <= tempo_bpm <= 3 ->
        create_advanced_midi melody_data harmony_data style tempo_bpm key s
        = Raise ValueError)
    /\ (4 <= tempo_bpm -> In key key_names ->
        Forall writable melody_data ->
        Forall (Forall writable) harmony_data ->
        (length harmony_data <= 15)%nat ->
        exists melody_track harmony_tracks drum_tracks s',
          _create_melody_track melody_data lead tempo_bpm key (4, 4)
          = Ok melody_track
          /\ track_notes melody_track = melody_data
          /\ map track_notes harmony_tracks
             = map (map softened) harmony_data
          /\ length drum_tracks
             = (if with_drums style melody_data then 1 else 0)%nat
          /\ (with_drums style melody_data = false -> s' = s)
          /\ create_advanced_midi melody_data harmony_data style tempo_bpm
                                  key s
             = Ok ({| file_ticks_per_beat := 480;
                      tracks := melody_track :: harmony_tracks ++ drum_tracks |},
                   s')).
Proof.
  pose proof (template_instruments style) as Hinstr.
  pose proof (template_programs style) as Hprog.
  destruct (index_ok (instruments (template_of style)) 0) as (lead & El & Hin).
  { unfold Py.len. lia. }
  assert (Hlead : 1 <= lead <= 128).
  { rewrite Forall_forall in Hprog. apply Hprog. now apply list_elem_of_In. }
  exists lead. split; [exact El |].
  unfold create_advanced_midi.
  rewrite (bind_lift_ok _ _ _ _ classical_template).
  fold (template_of style). rewrite (bind_lift_ok _ _ _ _ El).
  split; [| split].
  - intros ->.
    now rewrite (bind_lift_raise _ _ _ _
                   (melody_track_zero melody_data lead key (4, 4))).
  - intros Hne Hslow.
    now rewrite (bind_lift_raise _ _ _ _
                   (melody_track_slow melody_data lead tempo_bpm key (4, 4)
                      Hne Hslow)).
  - intros Htempo Hkey Hm Hh Hvoices.
    destruct (melody_track_returns melody_data lead tempo_bpm key
                Htempo Hkey Hlead Hm)
      as (melody_track & Em & Hread & _).
    rewrite (bind_lift_ok _ _ _ _ Em).
    assert (Hh' : exists harmony_tracks,
               (if Py.truthy harmony_data
                then
                  Random.lift
                    (Py.for_ (Py.enumerate harmony_data)
                       (fun mid_tracks '(i, harmony_part) =>
                          (let! instrument :=
                             if i <? Py.len (instruments (template_of style)) - 1
                             then Py.index (instruments (template_of style)) (i + 1)
                             else Py.index (instruments (template_of style)) (-1) in
                           let! harmony_track :=
                             _create_harmony_track harmony_part instrument
                                                   (i + 1) in
                           Ok (mid_tracks ++ [harmony_track]))%result)
                       [melody_track])
                else Random.ret [melody_track]) s
               = Ok (melody_track :: harmony_tracks, s)
               /\ map track_notes harmony_tracks
                  = map (map softened) harmony_data).
    { destruct harmony_data as [| part parts] eqn:Eh; cbn [Py.truthy].
      - exists []. split; reflexivity.
      - rewrite <- Eh. rewrite <- Eh in Hh, Hvoices.
        destruct (harmony_tracks_ok (instruments (template_of style))
                    (Py.enumerate harmony_data))
          with (mid_tracks := [melody_track]) as (new & E & Hl & Hn).
        { destruct (instruments (template_of style)); [simpl in Hinstr; lia |].
          discriminate. }
        { exact Hprog. }
        { pose proof (enumerate_bounds harmony_data) as Hb.
          rewrite Forall_forall in Hb. apply Forall_forall.
          intros [i part'] Hx. specialize (Hb _ Hx). cbn [fst snd] in *.
          split; [unfold Py.len in Hb; lia |].
          apply (proj1 (Forall_forall _ _) Hh).
          apply list_elem_of_In in Hx. unfold Py.enumerate in Hx.
          apply in_combine_r in Hx. now apply list_elem_of_In. }
        exists new. split.
        + unfold Random.lift.
          match goal with
          | |- match ?c with _ => _ end = _ =>
              replace c with (Ok ([melody_track] ++ new)) by (symmetry; exact E)
          end.
          reflexivity.
        + rewrite Hn. unfold Py.enumerate.
          assert (Hs : forall (idxs : list Z) (l : list (list note)),
                     length idxs = length l ->
                     map (fun x : Z * list note => map softened x.2)
                         (combine idxs l)
                     = map (map softened) l).
          { induction idxs as [| i idxs IH]; intros [| a l] Hlen;
              simpl in *; try reflexivity; try discriminate.
            f_equal. apply IH. lia. }
          apply Hs. rewrite range_length. unfold Py.len. lia. }
    destruct Hh' as (harmony_tracks & Eh & Hn).
    erewrite bind_ok; [| exact Eh].
    fold (with_drums style melody_data).
    destruct (with_drums style melody_data).
    + destruct (drum_track_returns (Py.len melody_data)
                  (rhythm (template_of style)) s) as (drum & s' & Ed).
      exists melody_track, harmony_tracks, [drum], s'.
      rewrite (bind_ok _ _ _ _ _ (bind_ok _ _ _ _ _ Ed)).
      repeat split; assumption || reflexivity || discriminate.
    + exists melody_track, harmony_tracks, [], s.
      rewrite app_nil_r. repeat split; assumption || reflexivity.
Qed.

(** X18.  [create_advanced_midi] raises [ZeroDivisionError] for a tempo of
    0, and [ValueError] for a tempo from 1 to 3 or a negative one (down to
    -60000000).  For a tempo of 4 or more, a key name of the library, at
    most 15 harmony voices and notes with pitch and velocity from 0 to 127
    it returns, for every style name (a name that is not in the catalog
    gets the classical template): the file has the melody track first, then
    one track for each harmony voice, then a drum track when the style is
    jazz, blues or pop and the melody has more than 16 notes.  The melody
    can be read back from the first track, and each harmony voice from its
    track with the velocities lowered to [int(velocity * 0.7)]. *)
Theorem create_advanced_midi_tracks
        (melody_data : list note) (harmony_data : list (list note))
        (style : string) (tempo_bpm : Z) (key : string) (s : Random.state) :
  (tempo_bpm = 0 ->
   create_advanced_midi melody_data harmony_data style tempo_bpm key s
   = Raise ZeroDivisionError)
  /\ (tempo_bpm <> 0 -> -60000000 <= tempo_bpm <= 3 ->
      create_advanced_midi melody_data harmony_data style tempo_bpm key s
      = Raise ValueError)
  /\ (4 <= tempo_bpm -> In key key_names ->
      Forall writable melody_data ->
      Forall (Forall writable) harmony_data ->
      (length harmony_data <= 15)%nat ->
      exists melody_track harmony_tracks drum_tracks s',
        create_advanced_midi melody_data harmony_data style tempo_bpm key s
        = Ok ({| file_ticks_per_beat := 480;
                 tracks := melody_track :: harmony_tracks ++ drum_tracks |},
              s')
        /\ track_notes melody_track = melody_data
        /\ map track_notes harmony_tracks = map (map softened) harmony_data
        /\ length drum_tracks
           = (if with_drums style melody_data then 1 else 0)%nat).
Proof.
  destruct (create_advanced_midi_unfold melody_data harmony_data style
              tempo_bpm key s) as (lead & _ & Hzero & Hslow & Hok).
  split; [exact Hzero |]. split; [exact Hslow |].
  intros Htempo Hkey Hm Hh Hvoices.
  destruct (Hok Htempo Hkey Hm Hh Hvoices)
    as (mt & ht & dt & s' & _ & Hr & Hhr & Hd & _ & E).
  exists mt, ht, dt, s'. repeat split; assumption.
Qed.

(** The statement for a one-note melody at the tempos 0, 3 and 120. *)
Lemma create_advanced_midi_tracks_witness :
  create_advanced_midi [(60, 480, 80)] [[(37, 960, 56)]] "jazz" 0 "C" zero_draws
  = Raise ZeroDivisionError
  /\ create_advanced_midi [(60, 480, 80)] [[(37, 960, 56)]] "jazz" 3 "C"
                          zero_draws
     = Raise ValueError
  /\ exists melody_track harmony_tracks drum_tracks s',
      create_advanced_midi [(60, 480, 80)] [[(37, 960, 56)]] "jazz" 120 "C"
                           zero_draws
      = Ok ({| file_ticks_per_beat := 480;
               tracks := melody_track :: harmony_tracks ++ drum_tracks |},
            s')
      /\ track_notes melody_track = [(60, 480, 80)]
      /\ map track_notes harmony_tracks
         = map (map softened) [[(37, 960, 56)]]
      /\ length drum_tracks
         = if with_drums "jazz" [(60, 480, 80)] then 1%nat else 0%nat.
Proof.
  split; [| split].
  - apply (proj1 (create_advanced_midi_tracks
                    [(60, 480, 80)] [[(37, 960, 56)]] "jazz" 0 "C" zero_draws)).
    reflexivity.
  - apply (proj1 (proj2 (create_advanced_midi_tracks
                           [(60, 480, 80)] [[(37, 960, 56)]] "jazz" 3 "C"
                           zero_draws))); lia.
  - apply (proj2 (proj2 (create_advanced_midi_tracks
                           [(60, 480, 80)] [[(37, 960, 56)]] "jazz" 120 "C"
                           zero_draws))).
    + lia.
    + simpl. tauto.
    + repeat constructor; unfold pitch, velocity; simpl; lia.
    + repeat constructor; unfold pitch, velocity; simpl; lia.
    + simpl. lia.
Defined.

End MidiFile.

(** ** More on [analyze_golden_ratios] *)

Section AnalysisMore.

Import MusicTheory.

Lemma fold_min_le (l : list Z) (a : Z) : fold_left Z.min l a <= a.
Proof.
  revert a. induction l as [| b l IH]; intros a; simpl; [lia |].
  specialize (IH (Z.min a b)). lia.
Qed.

Lemma filter_share {A} (P : A -> Prop) `{forall x, Decision (P x)}
      (l : list A) :
  l <> [] ->
  (0 <= IZR (Py.len (filter P l)) / IZR (Py.len l) * 100 <= 100)%R.
Proof.
  intros Hl. apply share_bounds.
  - unfold Py.len. split; [lia |]. apply inj_le. apply length_filter.
  - unfold Py.len. destruct l; [congruence | simpl; lia].
Qed.

(** X19.  For every melody that is not empty, [analyze_golden_ratios]
    returns a record with [total_notes] equal to the number of notes and a
    [note_range] that is not negative.  The interval fields are present
    exactly when the melody has two notes or more, and the two
    percentages, when present, lie between 0 and 100. *)
Theorem analyze_golden_ratios_record (melody : list note) :
  melody <> [] ->
  exists analysis,
    analyze_golden_ratios melody = Ok analysis
    /\ analysis !! "total_notes" = Some (PInt (Py.len melody))
    /\ (exists r, analysis !! "note_range" = Some (PInt r) /\ 0 <= r)
    /\ (is_Some (analysis !! "avg_interval") <-> (2 <= length melody)%nat)
    /\ (is_Some (analysis !! "golden_ratio_percentage")
        <-> (2 <= length melody)%nat)
    /\ (forall g, analysis !! "golden_ratio_percentage" = Some (PFloat g) ->
                  (0 <= g <= 100)%R)
    /\ (forall g, analysis !! "phi_duration_percentage" = Some (PFloat g) ->
                  (0 <= g <= 100)%R).
Proof.
  intros Hne. destruct melody as [| n1 rest]; [congruence |]. clear Hne.
  unfold analyze_golden_ratios. cbn [Py.truthy negb]. cbv zeta.
  cbn [map]. rewrite max_ok, min_ok. cbn [Py.bind].
  rewrite !truediv_ok by (apply len_nonzero; discriminate).
  cbn [Py.bind].
  assert (Hrange : 0 <= fold_left Z.max (map pitch rest) (pitch n1)
                        - fold_left Z.min (map pitch rest) (pitch n1)).
  { pose proof (fold_max_ge (map pitch rest) (pitch n1)).
    pose proof (fold_min_le (map pitch rest) (pitch n1)). lia. }
  destruct rest as [| n2 rest].
  - unfold duration_ratios, consecutive.
    cbn [map tl combine flat_map Py.truthy Py.bind].
    eexists. split; [reflexivity |].
    split; [reflexivity |].
    split; [eexists; split; [reflexivity | exact Hrange] |].
    split; [split; [intros [x Hx]; discriminate | simpl; lia] |].
    split; [split; [intros [x Hx]; discriminate | simpl; lia] |].
    split; intros g Hg; discriminate.
  - unfold consecutive. cbn [tl combine map Py.truthy].
    rewrite ?truediv_ok by (apply len_nonzero; discriminate).
    rewrite max_ok. cbn [Py.bind].
    set (intervals := Z.abs (pitch n2 - pitch n1) :: _).
    pose proof (filter_share (fun interval => interval ∈ golden_intervals)
                             intervals ltac:(discriminate)) as Hg.
    destruct (duration_ratios _) as [| r rs] eqn:Er; cbn [Py.truthy].
    + eexists. split; [reflexivity |].
      split; [now rewrite !lookup_insert_ne by discriminate |].
      split; [eexists; split;
              [now rewrite !lookup_insert_ne by discriminate | exact Hrange] |].
      split; [split; [intros _; simpl; lia |
                      intros _; rewrite !lookup_insert_ne by discriminate;
                      rewrite lookup_insert_eq; eauto] |].
      split; [split; [intros _; simpl; lia |
                      intros _; rewrite lookup_insert_eq; eauto] |].
      split; intros g Hl.
      * rewrite lookup_insert_eq in Hl. injection Hl as <-. exact Hg.
      * rewrite !lookup_insert_ne in Hl by discriminate. discriminate.
    + rewrite truediv_ok by (apply len_nonzero; discriminate).
      cbn [Py.bind].
      pose proof (filter_share (fun ratio => near_phi ratio = true)
                               (r :: rs) ltac:(discriminate)) as Hphi.
      eexists. split; [reflexivity |].
      split; [now rewrite !lookup_insert_ne by discriminate |].
      split; [eexists; split;
              [now rewrite !lookup_insert_ne by discriminate | exact Hrange] |].
      split; [split; [intros _; simpl; lia |
                      intros _; rewrite !lookup_insert_ne by discriminate;
                      rewrite lookup_insert_eq; eauto] |].
      split; [split; [intros _; simpl; lia |
                      intros _; rewrite lookup_insert_ne by discriminate;
                      rewrite lookup_insert_eq; eauto] |].
      split; intros g Hl.
      * rewrite lookup_insert_ne in Hl by discriminate.
        rewrite lookup_insert_eq in Hl. injection Hl as <-. exact Hg.
      * rewrite lookup_insert_eq in Hl. injection Hl as <-. exact Hphi.
Qed.

(** The statement on a melody of two notes. *)
Lemma analyze_golden_ratios_record_witness :
  exists analysis,
    analyze_golden_ratios [(60, 480, 80); (64, 776, 90)] = Ok analysis
    /\ analysis !! "total_notes"
       = Some (PInt (Py.len [(60, 480, 80); (64, 776, 90)]))
    /\ (exists r, analysis !! "note_range" = Some (PInt r) /\ 0 <= r)
    /\ (is_Some (analysis !! "avg_interval")
        <-> (2 <= length [(60, 480, 80); (64, 776, 90)])%nat)
    /\ (is_Some (analysis !! "golden_ratio_percentage")
        <-> (2 <= length [(60, 480, 80); (64, 776, 90)])%nat)
    /\ (forall g, analysis !! "golden_ratio_percentage" = Some (PFloat g) ->
                  (0 <= g <= 100)%R)
    /\ (forall g, analysis !! "phi_duration_percentage" = Some (PFloat g) ->
                  (0 <= g <= 100)%R).
Proof.
  apply (analyze_golden_ratios_record [(60, 480, 80); (64, 776, 90)]).
  discriminate.
Defined.

End AnalysisMore.

(** ** More on [generate_complete_composition] *)

Section CompositionMore.

Import MusicTheory.
Import AdvancedMidiGenerator.

(** The analysis returns for every melody, and counts the notes of one that
    is not empty. *)
Lemma analyze_total (melody : list note) :
  exists analysis,
    analyze_golden_ratios melody = Ok analysis
    /\ analysis !! "total_notes"
       = (if Py.truthy melody then Some (PInt (Py.len melody)) else None).
Proof.
  destruct melody as [| n1 [| n2 rest]].
  - exists ∅. split; reflexivity.
  - unfold analyze_golden_ratios. cbn [Py.truthy negb]. cbv zeta.
    cbn [map]. rewrite max_ok, min_ok. cbn [Py.bind].
    rewrite !truediv_ok by (apply len_nonzero; discriminate).
    cbn [Py.bind]. unfold duration_ratios, consecutive.
    cbn [tl combine map flat_map Py.truthy Py.bind].
    eexists. split; reflexivity.
  - destruct (analyze_two_or_more n1 n2 rest) as (a & g & E & Ht & _).
    exists a. split; [exact E | exact Ht].
Qed.

Lemma kept_length_le (pattern : list Z) (melody : list note) :
  (length (kept pattern melody) <= length melody)%nat.
Proof.
  unfold kept. rewrite <- (enumerate_length melody). apply filter_length_le.
Qed.

(** The key handed to the melody track is a key name of the library. *)
Lemma key_string_valid (root_note : Z) :
  In match key_map !! (root_note mod 12 + 60) with
     | Some key => key
     | None => "C"
     end key_names.
Proof.
  destruct (key_map !! (root_note mod 12 + 60)) as [key |] eqn:E;
    [| simpl; tauto].
  apply elem_of_list_to_map_2 in E.
  repeat (apply elem_of_cons in E; destruct E as [E | E];
          [injection E as _ ->; simpl; tauto |]).
  now apply elem_of_nil in E.
Qed.

(** The stages of [generate_complete_composition] after the melody: the
    shaped melody and its harmony voices pass the checks of the library. *)
Lemma composition_stages (style : string) (duration_seconds tempo_bpm : Z)
      (scale_name : string) (root_note : Z) (s : Random.state)
      (scale : list Z) :
  scales !! scale_name = Some scale ->
  exists structure_points scale_notes melody s1 middle analysis0 root_name,
    compose_melody style duration_seconds tempo_bpm scale_name root_note s
    = Ok (structure_points, scale_notes, melody, s1)
    /\ Py.sum structure_points = total_notes duration_seconds tempo_bpm
    /\ (length melody <= Z.to_nat (total_notes duration_seconds tempo_bpm))%nat
    /\ analyze_golden_ratios melody = Ok analysis0
    /\ analysis0 !! "total_notes"
       = (if Py.truthy melody then Some (PInt (Py.len melody)) else None)
    /\ get_note_name root_note = Ok root_name
    /\ generate_golden_harmony melody scale_notes
       = Ok [map bass_of melody; middle]
    /\ Forall in_range melody
    /\ Forall (Forall writable) [map bass_of melody; middle]
    /\ generate_complete_composition style duration_seconds tempo_bpm
                                     scale_name root_note s
       = Random.bind
           (create_advanced_midi melody [map bass_of melody; middle] style
              tempo_bpm
              match key_map !! (root_note mod 12 + 60) with
              | Some key => key
              | None => "C"
              end)
           (fun midi_file =>
              Random.ret
                (midi_file,
                 <["scale_info" := PDict (get_scale_info scale_name)]>
                   (<["structure_points" := PList structure_points]>
                      (<["duration" := PInt duration_seconds]>
                         (<["tempo" := PInt tempo_bpm]>
                            (<["root_note" := PStr root_name]>
                               (<["scale" := PStr scale_name]>
                                  (<["style" := PStr style]> analysis0))))))))
           s1.
Proof.
  intros Hscale.
  destruct (compose_melody_stages style duration_seconds tempo_bpm scale_name
              root_note s scale Hscale)
    as (sp & s0 & raw & s1 & melody & Esub & _ & Hlen & Hnotes & Er & Hp & Ec).
  assert (Hraw : Forall in_range raw).
  { apply Forall_lookup. intros k n Hk. apply Hnotes in Hk.
    now apply note_at_in_range in Hk. }
  assert (Hin : Forall in_range melody).
  { destruct (apply_golden_rhythm_in_range raw
                (rhythm (Py.get style_templates style classical)) Hraw)
      as (out & Eo & Ho).
    rewrite Er in Eo. now injection Eo as <-. }
  destruct (generate_golden_harmony_in_range melody
              (map (fun interval => root_note + interval) scale) Hin)
    as (middle & Eh & Hmid).
  destruct (analyze_total melody) as (a0 & Ea & Ht).
  assert (En : exists root_name, get_note_name root_note = Ok root_name).
  { unfold get_note_name.
    destruct (index_ok note_names (root_note mod 12)) as (nm & E & _).
    { unfold Py.len. simpl. apply Z.mod_pos_bound. lia. }
    rewrite E. cbn [Py.bind]. eauto. }
  destruct En as (root_name & En).
  exists sp, (map (fun interval => root_note + interval) scale), melody, s1,
    middle, a0, root_name.
  split; [exact Ec |]. split; [| split; [| split; [exact Ea |
                                     split; [exact Ht | split; [exact En |
                                     split; [exact Eh |
                                     split; [exact Hin | split]]]]]]].
  - unfold golden_ratio_subdivisions in Esub.
    destruct (subdivide_sum 3 (total_notes duration_seconds tempo_bpm) [] s)
      as (out & s' & E & Hsum).
    rewrite (bind_ok _ _ _ _ _ E) in Esub. injection Esub as <- _.
    rewrite sum_sorted_reverse, Hsum. reflexivity.
  - apply (f_equal (@length Z)) in Hp. rewrite !length_map in Hp.
    rewrite Hp, <- Hlen. apply kept_length_le.
  - constructor; [| constructor; [| constructor]].
    + apply Forall_map. eapply Forall_impl; [exact Hin |]. apply bass_writable.
    + eapply Forall_impl; [exact Hmid |].
      intros m [H1 H2]. unfold writable. lia.
  - unfold generate_complete_composition.
    rewrite (bind_ok _ _ _ _ _ Ec). rewrite (bind_lift_ok _ _ _ _ Eh).
    unfold Random.bind, Random.lift.
    destruct (create_advanced_midi _ _ _ _ _ s1) as [[midi s2] | e];
      [| reflexivity].
    rewrite Ea, En. reflexivity.
Qed.

(** X20.  For every style name, every scale of the catalog and every tempo
    of 4 or more, [generate_complete_composition] returns.  The file has
    the melody track, the two harmony tracks, and a drum track exactly when
    the style is jazz, blues or pop and the shaped melody has more than 16
    notes.  The record echoes the style, the scale, the tempo and the
    duration, names the root note, and holds structure points that sum to
    the number of notes asked of the melody generator; its [total_notes],
    when present, counts the shaped melody and is never above that
    number. *)
Theorem generate_complete_composition_returns
        (style : string) (duration_seconds tempo_bpm : Z)
        (scale_name : string) (root_note : Z) (s : Random.state)
        (scale : list Z) :
  scales !! scale_name = Some scale -> 4 <= tempo_bpm ->
  exists structure_points scale_notes melody s1 midi_file analysis s'
         root_name,
    compose_melody style duration_seconds tempo_bpm scale_name root_note s
    = Ok (structure_points, scale_notes, melody, s1)
    /\ generate_complete_composition style duration_seconds tempo_bpm
                                     scale_name root_note s
       = Ok (midi_file, analysis, s')
    /\ length (tracks midi_file)
       = (if with_drums style melody then 4 else 3)%nat
    /\ (exists lead, head (tracks midi_file) = Some lead
                     /\ track_notes lead = melody)
    /\ analysis !! "style" = Some (PStr style)
    /\ analysis !! "scale" = Some (PStr scale_name)
    /\ get_note_name root_note = Ok root_name
    /\ analysis !! "root_note" = Some (PStr root_name)
    /\ analysis !! "tempo" = Some (PInt tempo_bpm)
    /\ analysis !! "duration" = Some (PInt duration_seconds)
    /\ analysis !! "structure_points" = Some (PList structure_points)
    /\ Py.sum structure_points = total_notes duration_seconds tempo_bpm
    /\ analysis !! "scale_info" = Some (PDict (get_scale_info scale_name))
    /\ (forall m, analysis !! "total_notes" = Some (PInt m) ->
                  m = Py.len melody
                  /\ 1 <= m <= total_notes duration_seconds tempo_bpm).
Proof.
  intros Hscale Htempo.
  destruct (composition_stages style duration_seconds tempo_bpm scale_name
              root_note s scale Hscale)
    as (sp & sn & melody & s1 & middle & a0 & rn & Ec & Hsum & Hlen & Ea & Ht
        & En & _ & Hin & Hw & Eg).
  destruct (create_advanced_midi_unfold melody [map bass_of melody; middle]
              style tempo_bpm
              match key_map !! (root_note mod 12 + 60) with
              | Some key => key
              | None => "C"
              end s1) as (lead & _ & _ & _ & Hok).
  destruct (Hok Htempo (key_string_valid root_note)) as
    (mt & ht & dt & s' & _ & Hr & Hh & Hd & _ & Em).
  { eapply Forall_impl; [exact Hin |]. apply in_range_writable. }
  { exact Hw. }
  { simpl. lia. }
  rewrite (bind_ok _ _ _ _ _ Em) in Eg.
  eexists sp, sn, melody, s1, _, _, s', rn.
  split; [exact Ec |]. split; [exact Eg |].
  split.
  { cbn [tracks length]. rewrite length_app, Hd.
    apply (f_equal (@length (list note))) in Hh. rewrite !length_map in Hh.
    rewrite Hh. simpl. destruct (with_drums style melody); reflexivity. }
  split; [exists mt; split; [reflexivity | exact Hr] |].
  split; [now rewrite !lookup_insert_ne by discriminate;
          rewrite lookup_insert_eq |].
  split; [now rewrite !lookup_insert_ne by discriminate;
          rewrite lookup_insert_eq |].
  split; [exact En |].
  split; [now rewrite !lookup_insert_ne by discriminate;
          rewrite lookup_insert_eq |].
  split; [now rewrite !lookup_insert_ne by discriminate;
          rewrite lookup_insert_eq |].
  split; [now rewrite !lookup_insert_ne by discriminate;
          rewrite lookup_insert_eq |].
  split; [now rewrite !lookup_insert_ne by discriminate;
          rewrite lookup_insert_eq |].
  split; [exact Hsum |].
  split; [now rewrite lookup_insert_eq |].
  intros m Hm. rewrite !lookup_insert_ne in Hm by discriminate.
  rewrite Ht in Hm. destruct melody as [| n melody]; [discriminate |].
  cbn [Py.truthy] in Hm. injection Hm as <-. split; [reflexivity |].
  unfold Py.len in *. simpl length in *. lia.
Qed.

(** The statement for the style [jazz] on the scale [dorian]. *)
Lemma generate_complete_composition_returns_witness :
  exists structure_points scale_notes melody s1 midi_file analysis s'
         root_name,
    compose_melody "jazz" 30 100 "dorian" 62 zero_draws
    = Ok (structure_points, scale_notes, melody, s1)
    /\ generate_complete_composition "jazz" 30 100 "dorian" 62 zero_draws
       = Ok (midi_file, analysis, s')
    /\ length (tracks midi_file)
       = (if with_drums "jazz" melody then 4 else 3)%nat
    /\ (exists lead, head (tracks midi_file) = Some lead
                     /\ track_notes lead = melody)
    /\ analysis !! "style" = Some (PStr "jazz")
    /\ analysis !! "scale" = Some (PStr "dorian")
    /\ get_note_name 62 = Ok root_name
    /\ analysis !! "root_note" = Some (PStr root_name)
    /\ analysis !! "tempo" = Some (PInt 100)
    /\ analysis !! "duration" = Some (PInt 30)
    /\ analysis !! "structure_points" = Some (PList structure_points)
    /\ Py.sum structure_points = total_notes 30 100
    /\ analysis !! "scale_info" = Some (PDict (get_scale_info "dorian"))
    /\ (forall m, analysis !! "total_notes" = Some (PInt m) ->
                  m = Py.len melody /\ 1 <= m <= total_notes 30 100).
Proof.
  apply (generate_complete_composition_returns
           "jazz" 30 100 "dorian" 62 zero_draws [0; 2; 3; 5; 7; 9; 10]);
    [reflexivity | lia].
Defined.

(** X21.  With a tempo of 0, [generate_complete_composition] raises
    [ZeroDivisionError] for every scale of the catalog: no note is asked of
    the melody generator, and the tempo of the melody track cannot be
    computed. *)
Theorem generate_complete_composition_zero_tempo
        (style : string) (duration_seconds : Z)
        (scale_name : string) (root_note : Z) (s : Random.state)
        (scale : list Z) :
  scales !! scale_name = Some scale ->
  total_notes duration_seconds 0 = 0
  /\ generate_complete_composition style duration_seconds 0 scale_name
                                   root_note s
     = Raise ZeroDivisionError.
Proof.
  intros Hscale. split.
  - apply total_notes_zero_tempo.
  - destruct (composition_stages style duration_seconds 0 scale_name
                root_note s scale Hscale)
      as (sp & sn & melody & s1 & middle & a0 & rn & _ & _ & _ & _ & _ & _ & _
          & _ & _ & Eg).
    rewrite Eg.
    destruct (create_advanced_midi_unfold melody [map bass_of melody; middle]
                style 0
                match key_map !! (root_note mod 12 + 60) with
                | Some key => key
                | None => "C"
                end s1) as (lead & _ & Hzero & _).
    unfold Random.bind. now rewrite (Hzero eq_refl).
Qed.

(** The statement on the scale [major]. *)
Lemma generate_complete_composition_zero_tempo_witness :
  total_notes 60 0 = 0
  /\ generate_complete_composition "classical" 60 0 "major" 60 zero_draws
     = Raise ZeroDivisionError.
Proof.
  apply (generate_complete_composition_zero_tempo
           "classical" 60 "major" 60 zero_draws [0; 2; 4; 5; 7; 9; 11]).
  reflexivity.
Defined.

(** X22.  With a duration of 0 seconds or less and a tempo of 4 or more,
    [generate_complete_composition] still returns, for every scale of the
    catalog: the melody is empty, the file has three tracks that play no
    note, and the record holds the seven fields of the request only, so
    that [total_notes] and every other field of the analysis is missing. *)
Theorem generate_complete_composition_no_notes
        (style : string) (duration_seconds tempo_bpm : Z)
        (scale_name : string) (root_note : Z) (s : Random.state)
        (scale : list Z) :
  scales !! scale_name = Some scale ->
  duration_seconds <= 0 -> 4 <= tempo_bpm ->
  exists structure_points scale_notes s1 midi_file analysis s',
    compose_melody style duration_seconds tempo_bpm scale_name root_note s
    = Ok (structure_points, scale_notes, [], s1)
    /\ generate_complete_composition style duration_seconds tempo_bpm
                                     scale_name root_note s
       = Ok (midi_file, analysis, s')
    /\ length (tracks midi_file) = 3%nat
    /\ Forall (fun track => track_notes track = []) (tracks midi_file)
    /\ analysis !! "total_notes" = None
    /\ dom analysis
       = {["style"; "scale"; "root_note"; "tempo"; "duration";
           "structure_points"; "scale_info"]}.
Proof.
  intros Hscale Hd Ht.
  destruct (composition_stages style duration_seconds tempo_bpm scale_name
              root_note s scale Hscale)
    as (sp & sn & melody & s1 & middle & a0 & rn & Ec & _ & Hlen & Ea & _
        & _ & Eh & Hin & Hw & Eg).
  pose proof (total_notes_nonpositive duration_seconds tempo_bpm Hd
                ltac:(lia)) as Hcount.
  destruct melody as [| n melody]; [| simpl in Hlen; lia].
  injection Ea as <-. injection Eh as <-.
  destruct (create_advanced_midi_unfold [] [map bass_of []; []] style tempo_bpm
              match key_map !! (root_note mod 12 + 60) with
              | Some key => key
              | None => "C"
              end s1) as (lead & _ & _ & _ & Hok).
  destruct (Hok Ht (key_string_valid root_note)) as
    (mt & ht & dt & s' & _ & Hr & Hh & Hdr & _ & Em).
  { constructor. }
  { repeat constructor. }
  { simpl. lia. }
  rewrite (bind_ok _ _ _ _ _ Em) in Eg.
  assert (Hnd : with_drums style [] = false).
  { unfold with_drums. apply andb_false_r. }
  rewrite Hnd in Hdr. destruct dt as [| d dt]; [| discriminate].
  destruct ht as [| h1 [| h2 [| h3 ht]]]; try discriminate.
  cbn [map] in Hh. injection Hh as Hh1 Hh2.
  eexists sp, sn, s1, _, _, s'.
  split; [exact Ec |]. split; [exact Eg |].
  split; [reflexivity |].
  split; [repeat constructor; assumption |].
  split; [reflexivity |].
  rewrite !dom_insert_L, dom_empty_L. set_solver.
Qed.

(** The statement for a duration of 0 on the scale [major]. *)
Lemma generate_complete_composition_no_notes_witness :
  exists structure_points scale_notes s1 midi_file analysis s',
    compose_melody "pop" 0 120 "major" 60 zero_draws
    = Ok (structure_points, scale_notes, [], s1)
    /\ generate_complete_composition "pop" 0 120 "major" 60 zero_draws
       = Ok (midi_file, analysis, s')
    /\ length (tracks midi_file) = 3%nat
    /\ Forall (fun track => track_notes track = []) (tracks midi_file)
    /\ analysis !! "total_notes" = None
    /\ dom analysis
       = {["style"; "scale"; "root_note"; "tempo"; "duration";
           "structure_points"; "scale_info"]}.
Proof.
  apply (generate_complete_composition_no_notes
           "pop" 0 120 "major" 60 zero_draws [0; 2; 4; 5; 7; 9; 11]);
    [reflexivity | lia | lia].
Defined.

(** X23.  With a tempo from 1 to 3, or a negative tempo down to -60000000,
    [generate_complete_composition] raises [ValueError] for every scale of
    the catalog: the melody and its harmony are computed, and the tempo
    message of the melody track refuses the number of microseconds, which
    is above 16777215 or negative. *)
Theorem generate_complete_composition_slow_tempo
        (style : string) (duration_seconds tempo_bpm : Z)
        (scale_name : string) (root_note : Z) (s : Random.state)
        (scale : list Z) :
  scales !! scale_name = Some scale ->
  tempo_bpm <> 0 -> -60000000 <= tempo_bpm <= 3 ->
  generate_complete_composition style duration_seconds tempo_bpm scale_name
                                root_note s
  = Raise ValueError.
Proof.
  intros Hscale Hne Hslow.
  destruct (composition_stages style duration_seconds tempo_bpm scale_name
              root_note s scale Hscale)
    as (sp & sn & melody & s1 & middle & a0 & rn & _ & _ & _ & _ & _ & _ & _
        & _ & _ & Eg).
  rewrite Eg.
  destruct (create_advanced_midi_unfold melody [map bass_of melody; middle]
              style tempo_bpm
              match key_map !! (root_note mod 12 + 60) with
              | Some key => key
              | None => "C"
              end s1) as (lead & _ & _ & Hraise & _).
  unfold Random.bind. now rewrite (Hraise Hne Hslow).
Qed.

(** The statement for a tempo of 3 on the scale [major]. *)
Lemma generate_complete_composition_slow_tempo_witness :
  generate_complete_composition "classical" 60 3 "major" 60 zero_draws
  = Raise ValueError.
Proof.
  apply (generate_complete_composition_slow_tempo
           "classical" 60 3 "major" 60 zero_draws [0; 2; 4; 5; 7; 9; 11]);
    [reflexivity | lia | lia].
Defined.

(** C4.  For every sequence of draws,
    [generate_complete_composition('classical', 10, 120, 'major', 60)]
    returns.  The melody shaped by the rhythm pattern has exactly 20 notes,
    all with pitch in [21,108]; it is the melody written to the first track
    of the file; and the analysis record has [total_notes = 20] and a
    [golden_ratio_percentage] between 0 and 100. *)
Theorem classical_scenario (s : Random.state) :
  exists structure_points scale_notes melody s1 melody_track harmony_tracks
         analysis g,
    compose_melody "classical" 10 120 "major" 60 s
    = Ok (structure_points, scale_notes, melody, s1)
    /\ length melody = 20%nat
    /\ Forall (fun n => 21 <= pitch n <= 108) melody
    /\ _create_melody_track melody 1 120 "C" (4, 4) = Ok melody_track
    /\ generate_complete_composition "classical" 10 120 "major" 60 s
       = Ok ({| file_ticks_per_beat := 480;
                tracks := melody_track :: harmony_tracks |}, analysis, s1)
    /\ analysis !! "total_notes" = Some (PInt 20)
    /\ analysis !! "golden_ratio_percentage" = Some (PFloat g)
    /\ (0 <= g <= 100)%R.
Proof.
  destruct (compose_melody_stages "classical" 10 120 "major" 60 s
              [0; 2; 4; 5; 7; 9; 11] eq_refl)
    as (sp & s0 & raw & s1 & melody & _ & _ & Hlen & Hnotes & _ & Hp & Ec).
  rewrite total_notes_10_120 in Hlen.
  change (rhythm (Py.get style_templates "classical" classical))
    with "straight" in Hp.
  set (scale_notes := map (fun interval => 60 + interval) [0; 2; 4; 5; 7; 9; 11])
    in *.
  assert (Hm : length melody = 20%nat).
  { apply (f_equal (@length Z)) in Hp. rewrite !length_map in Hp.
    rewrite Hp, kept_length. unfold Py.len. rewrite Hlen. reflexivity. }
  assert (Hr : Forall (fun n => 21 <= pitch n <= 108) melody).
  { apply (proj1 (Forall_map pitch (fun p => 21 <= p <= 108) melody)).
    rewrite Hp. apply Forall_map.
    apply Forall_forall. intros x Hx. apply list_elem_of_In in Hx.
    apply kept_notes in Hx. apply list_elem_of_In in Hx.
    apply list_elem_of_lookup in Hx as (k & Hk).
    apply Hnotes in Hk. apply note_at_in_range in Hk. apply Hk. }
  destruct (composition_stages "classical" 10 120 "major" 60 s
              [0; 2; 4; 5; 7; 9; 11] eq_refl)
    as (sp' & sn' & melody' & s1' & middle & a0 & rn & Ec' & _ & _ & Ea & _
        & En & _ & Hin & Hw & Eg).
  rewrite Ec in Ec'. injection Ec' as <- <- <- <-.
  change (match key_map !! (60 mod 12 + 60) with
          | Some key => key
          | None => "C"
          end) with "C" in Eg.
  destruct (create_advanced_midi_unfold melody [map bass_of melody; middle]
              "classical" 120 "C" s1) as (lead & El & _ & _ & Hok).
  injection El as <-.
  destruct Hok as (mt & ht & dt & s' & Et & _ & _ & Hd & Hs & Emidi).
  { lia. }
  { simpl. tauto. }
  { eapply Forall_impl; [exact Hin |]. apply in_range_writable. }
  { exact Hw. }
  { simpl. lia. }
  change (with_drums "classical" melody) with false in Hd, Hs.
  destruct dt as [| d dt]; [| discriminate]. rewrite app_nil_r in Emidi.
  rewrite (Hs eq_refl) in Emidi.
  rewrite (bind_ok _ _ _ _ _ Emidi) in Eg.
  destruct melody as [| n1 [| n2 rest]]; [discriminate Hm.. |].
  destruct (analyze_two_or_more n1 n2 rest) as (analysis & g & Ea' & Ht & Hg & Hb).
  set (melody := n1 :: n2 :: rest) in *.
  rewrite Ea' in Ea. injection Ea as <-.
  exists sp, scale_notes, melody, s1, mt.
  eexists _, _, g.
  split; [exact Ec |]. split; [exact Hm |]. split; [exact Hr |].
  split; [exact Et |].
  split; [exact Eg |]. split; [| split; [| exact Hb]].
  - rewrite !lookup_insert_ne by discriminate.
    rewrite Ht. unfold Py.len. rewrite Hm. reflexivity.
  - rewrite !lookup_insert_ne by discriminate. exact Hg.
Qed.

End CompositionMore.
